(** * The crawl frontier of the Tübingen search engine

    A shallow embedding of [src/crawler/crawl.py], [src/crawler/types.py]
    and [src/crawler/config.py].

    The crawler keeps its frontier in a pandas [DataFrame] indexed by
    [doc_id].  The embedding keeps the frame as an ordered list of labelled
    rows whose cells may be missing (pandas' NaN), and threads the
    [Crawler] object through its methods with a small state monad.  What
    the repository imports from third-party libraries (the regex engine,
    lxml, md5, the HTTP client, the URL parser, the clock and the random
    generator) enters as the variables of [Section Crawler]. *)

From Stdlib Require Import List String Ascii Bool ZArith QArith Lia.
From Stdlib Require Import Sorting.Sorted Sorting.Permutation DecimalString.
Import ListNotations.

Local Open Scope string_scope.
Local Open Scope Z_scope.

(* ================================================================== *)
(** * Python builtins used by the crawler *)
(* ================================================================== *)

Module Py.

(** [s.split(sep)] for a one-character separator. *)
Fixpoint split (sep : ascii) (s : string) : list string :=
  match s with
  | EmptyString => [EmptyString]
  | String c rest =>
      if Ascii.eqb c sep then EmptyString :: split sep rest
      else match split sep rest with
           | [] => [String c EmptyString]
           | w :: ws => String c w :: ws
           end
  end.

(** [s.count(sep)] for a one-character separator. *)
Fixpoint count (sep : ascii) (s : string) : nat :=
  match s with
  | EmptyString => 0%nat
  | String c rest => ((if Ascii.eqb c sep then 1 else 0) + count sep rest)%nat
  end.

(** [sep.join(words)]. *)
Fixpoint join (sep : string) (words : list string) : string :=
  match words with
  | [] => EmptyString
  | [w] => w
  | w :: ws => w ++ sep ++ join sep ws
  end.

(** [xs[-n:]]: the last [n] elements. *)
Definition last_n {A} (n : nat) (xs : list A) : list A :=
  skipn (List.length xs - n) xs.

(** [s.lower()] on ASCII text. *)
Definition lower_char (c : ascii) : ascii :=
  let n := nat_of_ascii c in
  if ((65 <=? n) && (n <=? 90))%nat then ascii_of_nat (n + 32) else c.

Fixpoint lower (s : string) : string :=
  match s with
  | EmptyString => EmptyString
  | String c rest => String (lower_char c) (lower rest)
  end.

(** [s.strip()] on ASCII text: tab, line feed, vertical tab, form feed,
    carriage return, the four separators 28..31 and the space. *)
Definition is_space (c : ascii) : bool :=
  let n := nat_of_ascii c in
  (((9 <=? n) && (n <=? 13)) || ((28 <=? n) && (n <=? 32)))%nat.

Fixpoint lstrip (s : string) : string :=
  match s with
  | EmptyString => EmptyString
  | String c rest => if is_space c then lstrip rest else s
  end.

Fixpoint rstrip (s : string) : string :=
  match s with
  | EmptyString => EmptyString
  | String c rest =>
      match rstrip rest with
      | EmptyString =>
          if is_space c then EmptyString else String c EmptyString
      | kept => String c kept
      end
  end.

Definition strip (s : string) : string := rstrip (lstrip s).

(** [s.startswith(p)]. *)
Definition startswith (p s : string) : bool := String.prefix p s.

(** [str(n)] for a non-negative integer. *)
Definition str_of_nat (n : nat) : string :=
  NilZero.string_of_uint (Nat.to_uint n).

(** [min(a, b)] and [max(a, b)] where [a] is a cell of the frame and [b]
    an integer.  Python returns the first argument unless the second
    compares strictly below (above) it, and no comparison with NaN
    holds: a missing first argument is returned as it is. *)
Definition min (a : option Z) (b : Z) : option Z :=
  match a with
  | Some x => Some (if b <? x then b else x)
  | None => None
  end.

Definition max (a : option Z) (b : Z) : option Z :=
  match a with
  | Some x => Some (if x <? b then b else x)
  | None => None
  end.

(** [a > b] and [a < b] for a cell [a]: false on NaN. *)
Definition gt (a : option Z) (b : Z) : bool :=
  match a with Some x => b <? x | None => false end.

Definition lt (a : option Z) (b : Z) : bool :=
  match a with Some x => x <? b | None => false end.

End Py.

(* ================================================================== *)
(** * crawler/types.py *)
(* ================================================================== *)

Inductive Priority := high | low.

Definition Priority_value (p : Priority) : Z :=
  match p with high => 1 | low => 0 end.

Inductive Status := pending | completed | failed.

Definition Status_eqb (a b : Status) : bool :=
  match a, b with
  | pending, pending | completed, completed | failed, failed => true
  | _, _ => false
  end.

Lemma Status_eqb_eq a b : Status_eqb a b = true <-> a = b.
Proof. destruct a, b; simpl; split; congruence. Qed.

(* ================================================================== *)
(** * httpx.URL

    An [httpx.URL] is held by its parsed, normalised components.  A
    missing query or fragment is [None] (no trailing question mark or hash). *)
(* ================================================================== *)

Module URL.

Record t := mk {
  scheme : string;
  userinfo : string;
  host : string;
  port : option nat;
  path : string;
  query : option string;
  fragment : option string
}.

(** [url.copy_with(query=None, fragment=None, params=None)]: httpx turns
    the [params] keyword into [query], so the call clears the query and
    the fragment and keeps every other component.  On the way httpx
    parses the components again; this definition is the call on
    components that the parser leaves alone, as those of a cleaned URL
    are, and [Httpx.copy_with] below is the call with the parser in
    it. *)
Definition copy_with_no_query_fragment (url : t) : t :=
  mk (scheme url) (userinfo url) (host url) (port url) (path url) None None.

(** [url.copy_with(path=p, query=None, fragment=None)]. *)
Definition copy_with_path (p : string) (url : t) : t :=
  mk (scheme url) (userinfo url) (host url) (port url) p None None.

Definition bracket (h : string) : string :=
  if (0 <? Py.count ":" h)%nat then "[" ++ h ++ "]" else h.

Definition authority (url : t) : string :=
  (if String.eqb (userinfo url) EmptyString then EmptyString
   else userinfo url ++ "@")
  ++ bracket (host url)
  ++ match port url with
     | Some p => ":" ++ Py.str_of_nat p
     | None => EmptyString
     end.

(** [str(url)]. *)
Definition str (url : t) : string :=
  (if String.eqb (scheme url) EmptyString then EmptyString
   else scheme url ++ ":")
  ++ (if String.eqb (authority url) EmptyString then EmptyString
      else "//" ++ authority url)
  ++ path url
  ++ match query url with Some q => "?" ++ q | None => EmptyString end
  ++ match fragment url with Some f => "#" ++ f | None => EmptyString end.

(** [url.is_absolute_url]: a scheme and a host are present. *)
Definition is_absolute_url (url : t) : bool :=
  negb (String.eqb (scheme url) EmptyString)
  && negb (String.eqb (host url) EmptyString).

Definition is_relative_url (url : t) : bool := negb (is_absolute_url url).

End URL.

(* ================================================================== *)
(** * The frontier frame *)
(* ================================================================== *)

Definition Timestamp := Z.

(** One row of the frame; [None] is a missing cell (NaN). *)
Module Row.

Record t := mk {
  url : option URL.t;
  domain : option string;
  main_domain : option string;
  depth : option Z;
  priority : option Z;
  status : option Status;
  created : option Timestamp;
  updated : option Timestamp;
  root : option string;
  random_sort_key : option Q;
  features_tubingen : option bool;
  features_english : option bool
}.

(** The row pandas creates when a label is added by enlargement. *)
Definition nan : t :=
  mk None None None None None None None None None None None None.

End Row.

(** One keyword argument of [update_doc]: a column and its new value. *)
Inductive Keyword :=
| kw_url (v : option URL.t)
| kw_domain (v : option string)
| kw_main_domain (v : option string)
| kw_depth (v : option Z)
| kw_priority (v : option Z)
| kw_status (v : option Status)
| kw_created (v : option Timestamp)
| kw_updated (v : option Timestamp)
| kw_root (v : option string)
| kw_random_sort_key (v : option Q)
| kw_features_tubingen (v : option bool)
| kw_features_english (v : option bool).

Definition set_cell (r : Row.t) (kw : Keyword) : Row.t :=
  let '(Row.mk u d m dp p s c up ro k ft fe) := r in
  match kw with
  | kw_url v => Row.mk v d m dp p s c up ro k ft fe
  | kw_domain v => Row.mk u v m dp p s c up ro k ft fe
  | kw_main_domain v => Row.mk u d v dp p s c up ro k ft fe
  | kw_depth v => Row.mk u d m v p s c up ro k ft fe
  | kw_priority v => Row.mk u d m dp v s c up ro k ft fe
  | kw_status v => Row.mk u d m dp p v c up ro k ft fe
  | kw_created v => Row.mk u d m dp p s v up ro k ft fe
  | kw_updated v => Row.mk u d m dp p s c v ro k ft fe
  | kw_root v => Row.mk u d m dp p s c up v k ft fe
  | kw_random_sort_key v => Row.mk u d m dp p s c up ro v ft fe
  | kw_features_tubingen v => Row.mk u d m dp p s c up ro k v fe
  | kw_features_english v => Row.mk u d m dp p s c up ro k ft v
  end.

Definition set_cells (r : Row.t) (kws : list Keyword) : Row.t :=
  fold_left set_cell kws r.

(** The frame: rows in insertion order, each under its [doc_id] label.
    [load_frontier] drops duplicate labels and [add_to_frontier] adds a
    label only after a [KeyError], so a label occurs once; see
    [unique_index]. *)
Definition Frontier := list (string * Row.t).

Definition index (fr : Frontier) : list string := map fst fr.

Definition unique_index (fr : Frontier) : Prop := NoDup (index fr).

(** [frame.loc[doc_id]]; [None] is the [KeyError]. *)
Fixpoint loc (fr : Frontier) (doc_id : string) : option Row.t :=
  match fr with
  | [] => None
  | (d, r) :: rest => if String.eqb d doc_id then Some r else loc rest doc_id
  end.

(** Apply [f] to every row labelled [doc_id]. *)
Fixpoint on_label (doc_id : string) (f : Row.t -> Row.t) (fr : Frontier)
  : Frontier :=
  match fr with
  | [] => []
  | (d, r) :: rest =>
      (d, if String.eqb d doc_id then f r else r) :: on_label doc_id f rest
  end.

(** [frame.loc[doc_id, columns] = values].  pandas sets the cells of the
    labelled row; when the label is not in the index it enlarges the
    frame by a row of NaN under that label and sets the cells there. *)
Definition loc_set_cells (fr : Frontier) (doc_id : string)
    (kws : list Keyword) : Frontier :=
  match loc fr doc_id with
  | Some _ => on_label doc_id (fun r => set_cells r kws) fr
  | None => (fr ++ [(doc_id, set_cells Row.nan kws)])%list
  end.

(** [frame.loc[doc_id] = row]: replaces the labelled row or appends it. *)
Definition loc_set_row (fr : Frontier) (doc_id : string) (row : Row.t)
  : Frontier :=
  match loc fr doc_id with
  | Some _ => on_label doc_id (fun _ => row) fr
  | None => (fr ++ [(doc_id, row)])%list
  end.

(* ================================================================== *)
(** * crawler/config.py *)
(* ================================================================== *)

(** A compiled regular expression, seen through [pattern.search(text)]
    finding a match. *)
Definition Pattern := string -> bool.

Record CrawlerConfig := {
  batch_size : nat;
  max_depth : Z;
  max_filesize : nat;
  seed_urls : list URL.t;
  denied_domains : list Pattern
}.

(* ================================================================== *)
(** * Requests, responses and documents *)
(* ================================================================== *)

Module ScrapingRequest.

Record t := mk {
  doc_id : string;
  url : URL.t;
  root : option string;
  depth : Z
}.

End ScrapingRequest.

(** What the crawler reads from a parsed lxml tree. *)
Module HtmlElement.

Record t := mk {
  text_content : string;
  xpath_html_lang : list string;
  xpath_a_href : list string
}.

(** [html.fromstring("<html></html>")]. *)
Definition empty : t := mk EmptyString [] [].

End HtmlElement.

Module Response.

Record t := mk {
  url : URL.t;
  status_code : nat;
  content_type : option string;
  content : list Byte.byte
}.

Definition is_success (r : t) : bool :=
  ((200 <=? status_code r) && (status_code r <=? 299))%nat.

End Response.

Inductive Exception := TypeError | RetryError | KeyError.

Inductive Result (A : Type) :=
| Returned (a : A)
| Raised (e : Exception).

Arguments Returned {A} a.
Arguments Raised {A} e.

(* ================================================================== *)
(** * The crawler object and its monad *)
(* ================================================================== *)

(** The mutable part of a [Crawler]: the frame, the directory of saved
    pages, the frame last written to disk, and the number of readings
    taken so far from the clock and the random generator. *)
Record Crawler := {
  frontier : Frontier;
  html_dir : list (string * list Byte.byte);
  csv : option Frontier;
  clock : nat
}.

Definition Crawl (A : Type) : Type := Crawler -> A * Crawler.

Definition ret {A} (a : A) : Crawl A := fun self => (a, self).

Definition bind {A B} (m : Crawl A) (k : A -> Crawl B) : Crawl B :=
  fun self => let (a, self') := m self in k a self'.

Declare Scope crawl_scope.
Delimit Scope crawl_scope with crawl.
Notation "x <- m ;; k" := (bind m (fun x => k))
  (at level 61, m at next level, right associativity) : crawl_scope.
Notation "m ;; k" := (bind m (fun _ => k))
  (at level 61, right associativity) : crawl_scope.
Local Open Scope crawl_scope.

Definition exec {A} (m : Crawl A) (self : Crawler) : Crawler := snd (m self).
Definition eval {A} (m : Crawl A) (self : Crawler) : A := fst (m self).

Definition get_frontier : Crawl Frontier := fun self => (frontier self, self).

Definition set_frontier (fr : Frontier) : Crawl unit :=
  fun self => (tt, {| frontier := fr; html_dir := html_dir self;
                      csv := csv self; clock := clock self |}).

Definition tick : Crawl nat :=
  fun self => (clock self,
               {| frontier := frontier self; html_dir := html_dir self;
                  csv := csv self; clock := S (clock self) |}).

(** [for x in xs: body(x)]. *)
Fixpoint for_each {A} (xs : list A) (body : A -> Crawl unit) : Crawl unit :=
  match xs with
  | [] => ret tt
  | x :: rest => body x ;; for_each rest body
  end.

(** The order of [sort_values] on one column: a missing cell sorts last
    whatever the direction of the column. *)
Definition cell_compare {A} (cmp : A -> A -> comparison) (x y : option A)
  : comparison :=
  match x, y with
  | Some a, Some b => cmp a b
  | Some _, None => Lt
  | None, Some _ => Gt
  | None, None => Eq
  end.

Definition descending {A} (cmp : A -> A -> comparison) : A -> A -> comparison :=
  fun a b => cmp b a.

Definition then_by (c1 c2 : comparison) : comparison :=
  match c1 with Eq => c2 | _ => c1 end.

(** [["priority", "depth", "random_sort_key"]],
    [ascending=[False, True, True]]. *)
Definition sort_key_compare (r1 r2 : Row.t) : comparison :=
  then_by
    (cell_compare (descending Z.compare) (Row.priority r1) (Row.priority r2))
    (then_by
       (cell_compare Z.compare (Row.depth r1) (Row.depth r2))
       (cell_compare Qcompare
          (Row.random_sort_key r1) (Row.random_sort_key r2))).

Definition sorts_before (x y : string * Row.t) : bool :=
  match sort_key_compare (snd x) (snd y) with Gt => false | _ => true end.

(** [frame.sort_values(...)]: pandas sorts several columns with a stable
    sort, so rows with equal keys keep their order. *)
Fixpoint insert_row (x : string * Row.t) (rows : Frontier) : Frontier :=
  match rows with
  | [] => [x]
  | y :: rest => if sorts_before x y then x :: rows else y :: insert_row x rest
  end.

Definition sort_values (fr : Frontier) : Frontier :=
  fold_right insert_row [] fr.

Definition cell_eqb (a b : option string) : bool :=
  match a, b with
  | Some x, Some y => String.eqb x y
  | None, None => true
  | _, _ => false
  end.

(** [frame.drop_duplicates(subset=["main_domain"], keep="first")]; missing
    cells count as equal to each other. *)
Fixpoint drop_duplicates_from (seen : list (option string)) (fr : Frontier)
  : Frontier :=
  match fr with
  | [] => []
  | x :: rest =>
      if existsb (cell_eqb (Row.main_domain (snd x))) seen
      then drop_duplicates_from seen rest
      else x :: drop_duplicates_from (Row.main_domain (snd x) :: seen) rest
  end.

Definition drop_duplicates (fr : Frontier) : Frontier :=
  drop_duplicates_from [] fr.

(** [frame.head(n)]. *)
Definition head (n : nat) (fr : Frontier) : Frontier := firstn n fr.

Definition is_pending (r : Row.t) : bool :=
  match Row.status r with Some s => Status_eqb s pending | None => false end.

(* ================================================================== *)
(** * crawler/crawl.py: class Crawler *)
(* ================================================================== *)

Section Crawler.

#[local] Set Default Proof Using "Type".

(** [hashlib.md5(s.encode()).hexdigest()]. *)
Variable md5_hexdigest : string -> string.

(** The n-th reading of [pd.Timestamp.now()] and of [random.random()]. *)
Variable Timestamp_now : nat -> Timestamp.
Variable random_random : nat -> Q.

(** [URL(text)], [None] standing for [httpx.InvalidURL], and
    [base.join(url)]. *)
Variable URL_parse : string -> option URL.t.
Variable URL_join : URL.t -> URL.t -> URL.t.

(** [html.fromstring(content)], [None] standing for [ParserError]. *)
Variable html_fromstring : list Byte.byte -> option HtmlElement.t.

Variable TUBINGEN_PATTERN : Pattern.
Variable ENGLISH_PATTERN : Pattern.

(** [client.get(url, follow_redirects=True)] under the timeout: the
    outcome of the given attempt for [url] in the given round of the
    run loop; [None] when the attempt raises (a timeout, a transport
    error). *)
Variable client_get : nat -> URL.t -> nat -> option Response.t.

Variable config : CrawlerConfig.

(** Drop from the context what the goal does not mention of the world
    around the crawler, so that no proof search picks it up. *)
Ltac forget_world :=
  try clear client_get; try clear config;
  try clear TUBINGEN_PATTERN; try clear ENGLISH_PATTERN;
  try clear html_fromstring; try clear URL_join; try clear URL_parse;
  try clear random_random; try clear Timestamp_now; try clear md5_hexdigest.

Definition html_too_large (content : list Byte.byte) : bool :=
  (max_filesize config <? List.length content)%nat.

Definition get_main_domain (url : URL.t) : string :=
  if (1 <? Py.count "." (URL.host url))%nat
  then Py.join "." (Py.last_n 2 (Py.split "." (URL.host url)))
  else URL.host url.

Definition clean_url (url : URL.t) : URL.t :=
  URL.copy_with_no_query_fragment url.

Definition create_id_for_url (url : URL.t) : string :=
  md5_hexdigest (URL.str url).

Definition is_html (response : Response.t) : bool :=
  Py.startswith "text/html"
    (Py.strip (Py.lower (match Response.content_type response with
                         | Some v => v
                         | None => EmptyString
                         end))).

Definition is_english (tree : HtmlElement.t) : bool :=
  existsb (fun lang => ENGLISH_PATTERN (Py.strip lang))
          (HtmlElement.xpath_html_lang tree).

Definition is_url_valid (url : URL.t) : bool :=
  URL.is_absolute_url url
  && (String.eqb (URL.scheme url) "http" || String.eqb (URL.scheme url) "https")
  && negb (existsb (fun d : Pattern => d (URL.host url))
                   (denied_domains config)).

Definition parse_html (content : list Byte.byte) : HtmlElement.t :=
  match html_fromstring content with
  | Some tree => tree
  | None => HtmlElement.empty
  end.

(** [_get] under [@retry(stop=stop_after_attempt(3), ...)]: the attempt
    numbered [attempt_number] and, while it fails and attempts remain,
    the following ones.  An attempt fails when the request raises or
    [raise_for_status] rejects the status. *)
Fixpoint retry (round : nat) (url : URL.t) (attempt_number remaining : nat)
  : Result Response.t :=
  match remaining with
  | O => Raised RetryError
  | S remaining' =>
      match client_get round url attempt_number with
      | Some response =>
          if Response.is_success response then Returned response
          else retry round url (S attempt_number) remaining'
      | None => retry round url (S attempt_number) remaining'
      end
  end.

Definition stop_after_attempt : nat := 3.

Definition _get (round : nat) (url : URL.t) : Result Response.t :=
  retry round url 1 stop_after_attempt.

(** ** The frontier *)

Definition seed_row (url : URL.t) (doc_id : string) (now : Timestamp)
    (key : Q) : Row.t :=
  Row.mk (Some url) (Some (URL.host url)) (Some (get_main_domain url))
         (Some 0) (Some (Priority_value high)) (Some pending)
         (Some now) (Some now) (Some doc_id) (Some key)
         (Some false) (Some false).

(** [convert_seed_to_frontier], the rows it yields from reading [n] of
    the clock on. *)
Fixpoint convert_seed_to_frontier (seeds : list URL.t) (n : nat)
  : Frontier * nat :=
  match seeds with
  | [] => ([], n)
  | _url :: rest =>
      let url := clean_url _url in
      if negb (is_url_valid url) then convert_seed_to_frontier rest n
      else
        let doc_id := create_id_for_url url in
        let now := Timestamp_now n in
        let key := random_random (S n) in
        let (rows, n') := convert_seed_to_frontier rest (S (S n)) in
        ((doc_id, seed_row url doc_id now key) :: rows, n')
  end.

(** [drop_duplicates(subset=["doc_id"], keep="first")]. *)
Fixpoint drop_duplicate_ids (seen : list string) (fr : Frontier) : Frontier :=
  match fr with
  | [] => []
  | x :: rest =>
      if existsb (String.eqb (fst x)) seen then drop_duplicate_ids seen rest
      else x :: drop_duplicate_ids (fst x :: seen) rest
  end.

(** [load_frontier] when no file exists yet.  A [DataFrame] made of no
    row at all has no column, so when no seed is valid
    [set_index("doc_id")] raises [KeyError]; the seeds have all been
    looked at by then. *)
Definition new_frontier : Result (Frontier * nat) :=
  let (rows, n) := convert_seed_to_frontier (seed_urls config) 0 in
  match rows with
  | [] => Raised KeyError
  | _ :: _ => Returned (drop_duplicate_ids [] rows, n)
  end.

(** [Crawler(run_id, config)] for a run that has no file yet: the
    exception of [load_frontier] leaves [__init__], and no crawler is
    made. *)
Definition new_crawler : Result Crawler :=
  match new_frontier with
  | Raised e => Raised e
  | Returned (fr, n) =>
      Returned {| frontier := fr; html_dir := []; csv := None; clock := n |}
  end.

Definition update_doc (doc_id : string) (update_dict : list Keyword)
  : Crawl unit :=
  n <- tick ;;
  fr <- get_frontier ;;
  set_frontier
    (loc_set_cells fr doc_id
       (update_dict ++ [kw_updated (Some (Timestamp_now n))])).

Definition add_to_frontier (url : URL.t) (priority : Priority) (depth : Z)
    (root : option string) : Crawl unit :=
  let doc_id := create_id_for_url url in
  fr <- get_frontier ;;
  match loc fr doc_id with
  | None =>
      n <- tick ;;
      k <- tick ;;
      let now := Timestamp_now n in
      set_frontier
        (loc_set_row fr doc_id
           (Row.mk (Some url) (Some (URL.host url))
                   (Some (get_main_domain url))
                   (Some depth) (Some (Priority_value priority))
                   (Some pending) (Some now) (Some now) root
                   (Some (random_random k)) (Some false) (Some false)))
  | Some entry =>
      if is_pending entry
         && (Py.gt (Row.depth entry) depth
             || Py.lt (Row.priority entry) (Priority_value priority))
      then update_doc doc_id
             [kw_depth (Py.min (Row.depth entry) depth);
              kw_priority
                (Py.max (Row.priority entry) (Priority_value priority))]
      else ret tt
  end.

(** ** The scheduler *)

(** [frame.query("status == 'pending' and depth < @max_depth")]. *)
Definition query_pending (fr : Frontier) : Frontier :=
  filter (fun x => is_pending (snd x)
                   && Py.lt (Row.depth (snd x)) (max_depth config))
         fr.

Definition pending_docs (fr : Frontier) : Frontier :=
  head (batch_size config)
       (drop_duplicates (sort_values (query_pending fr))).

(** [ScrapingRequest(doc_id=..., url=URL(row["url"]), depth=..., root=...)]:
    [URL] raises [TypeError] on a missing cell.  The depth of a row that
    passed [depth < max_depth] is never missing. *)
Definition request_of_row (x : string * Row.t) : Result ScrapingRequest.t :=
  match Row.url (snd x), Row.depth (snd x) with
  | Some url, Some depth =>
      Returned (ScrapingRequest.mk (fst x) url (Row.root (snd x)) depth)
  | _, _ => Raised TypeError
  end.

Fixpoint requests_of_rows (rows : Frontier) : Result (list ScrapingRequest.t) :=
  match rows with
  | [] => Returned []
  | x :: rest =>
      match request_of_row x with
      | Raised e => Raised e
      | Returned req =>
          match requests_of_rows rest with
          | Raised e => Raised e
          | Returned reqs => Returned (req :: reqs)
          end
      end
  end.

Definition fetch_next_doc_batch : Crawl (Result (list ScrapingRequest.t)) :=
  fr <- get_frontier ;;
  ret (requests_of_rows (pending_docs fr)).

(** ** Link discovery *)

Definition extract_url (url : string) (base_url : URL.t) : option URL.t :=
  match URL_parse url with
  | None => None
  | Some url =>
      let url :=
        if URL.is_relative_url url then URL_join base_url url else url in
      let url := clean_url url in
      if is_url_valid url then Some url else None
  end.

Definition add_new_links_to_frontier (request : ScrapingRequest.t)
    (response : Response.t) : Crawl unit :=
  let tree := parse_html (Response.content response) in
  if negb (TUBINGEN_PATTERN (HtmlElement.text_content tree)) then ret tt
  else
    priority <-
      (if is_english tree then
         update_doc (ScrapingRequest.doc_id request)
           [kw_features_tubingen (Some true);
            kw_features_english (Some true)] ;;
         ret high
       else
         update_doc (ScrapingRequest.doc_id request)
           [kw_features_tubingen (Some true)] ;;
         let url_en := URL.copy_with_path "/en" (Response.url response) in
         (if is_url_valid url_en
          then add_to_frontier url_en high (ScrapingRequest.depth request + 1)
                 (ScrapingRequest.root request)
          else ret tt) ;;
         ret low) ;;
    for_each (HtmlElement.xpath_a_href tree)
      (fun href =>
         match extract_url href (Response.url response) with
         | Some url =>
             add_to_frontier url priority (ScrapingRequest.depth request + 1)
               (ScrapingRequest.root request)
         | None => ret tt
         end).

(** ** Storage *)

Definition save_response (doc_id : string) (content : list Byte.byte)
  : Crawl unit :=
  fun self => (tt, {| frontier := frontier self;
                      html_dir := (doc_id, content) :: html_dir self;
                      csv := csv self; clock := clock self |}).

Definition save_frontier : Crawl unit :=
  fun self => (tt, {| frontier := frontier self; html_dir := html_dir self;
                      csv := Some (frontier self); clock := clock self |}).

(** ** The run loop *)

(** [fetch_response] catches the [RetryError], the one exception [_get]
    raises, and returns [None] for it. *)
Definition fetch_response (round : nat) (req : ScrapingRequest.t)
  : option Response.t :=
  match _get round (ScrapingRequest.url req) with
  | Returned response => Some response
  | Raised _ => None
  end.

(** The body of [for req, response in zip(req_batch, responses)]. *)
Definition process_response (item : ScrapingRequest.t * option Response.t)
  : Crawl unit :=
  let (req, outcome) := item in
  match outcome with
  | None => update_doc (ScrapingRequest.doc_id req) [kw_status (Some failed)]
  | Some response =>
      if negb (is_html response) || html_too_large (Response.content response)
      then update_doc (ScrapingRequest.doc_id req) [kw_status (Some failed)]
      else
        save_response (ScrapingRequest.doc_id req)
          (Response.content response) ;;
        add_new_links_to_frontier req response ;;
        update_doc (ScrapingRequest.doc_id req)
          [kw_status (Some completed);
           kw_url (Some (Response.url response));
           kw_domain (Some (URL.host (Response.url response)))]
  end.

(** One turn of [while req_batch := self.fetch_next_doc_batch()] on a
    batch already taken: gather the responses, process them in the
    order of the batch, save the frame. *)
Definition run_batch (round : nat) (req_batch : list ScrapingRequest.t)
  : Crawl unit :=
  let responses := map (fetch_response round) req_batch in
  for_each (combine req_batch responses) process_response ;;
  save_frontier.

Inductive Outcome := Finished | Aborted (e : Exception) | OutOfFuel.

Fixpoint _run (fuel round : nat) : Crawl Outcome :=
  match fuel with
  | O => ret OutOfFuel
  | S fuel' =>
      batch <- fetch_next_doc_batch ;;
      match batch with
      | Raised e => ret (Aborted e)
      | Returned [] => ret Finished
      | Returned req_batch =>
          run_batch round req_batch ;;
          _run fuel' (S round)
      end
  end.

(* ================================================================ *)
(** * Reading and writing the frame *)
(* ================================================================ *)

Local Open Scope list_scope.

Lemma loc_app fr1 fr2 d :
  loc (fr1 ++ fr2) d = match loc fr1 d with Some r => Some r | None => loc fr2 d end.
Proof.
  induction fr1 as [|[d' r'] fr1 IH]; simpl; [reflexivity|].
  destruct (String.eqb d' d); [reflexivity | exact IH].
Qed.

Lemma loc_on_label fr d f d' :
  loc (on_label d f fr) d' =
  if String.eqb d d' then option_map f (loc fr d') else loc fr d'.
Proof.
  induction fr as [|[k r] fr IH]; simpl.
  - destruct (String.eqb d d'); reflexivity.
  - destruct (String.eqb k d') eqn:Ek.
    + apply String.eqb_eq in Ek. subst k.
      rewrite (String.eqb_sym d' d). destruct (String.eqb d d'); reflexivity.
    + exact IH.
Qed.

Lemma index_on_label fr d f : index (on_label d f fr) = index fr.
Proof.
  unfold index.
  induction fr as [|[k r] fr IH]; simpl; [reflexivity|].
  rewrite IH. reflexivity.
Qed.

Lemma loc_None_index fr d : loc fr d = None <-> ~ In d (index fr).
Proof. forget_world.
  induction fr as [|[k r] fr IH]; simpl.
  - tauto.
  - destruct (String.eqb k d) eqn:Ek.
    + apply String.eqb_eq in Ek. split; [discriminate | intros H; exfalso; auto].
    + apply String.eqb_neq in Ek. rewrite IH. tauto.
Qed.

Lemma loc_Some_In fr d r : loc fr d = Some r -> In (d, r) fr.
Proof.
  induction fr as [|[k r'] fr IH]; simpl; [discriminate|].
  destruct (String.eqb k d) eqn:Ek.
  - apply String.eqb_eq in Ek. intros [= ->]. left. congruence.
  - auto.
Qed.

Lemma In_loc_unique fr d r :
  unique_index fr -> In (d, r) fr -> loc fr d = Some r.
Proof. forget_world.
  unfold unique_index, index.
  induction fr as [|[k r'] fr IH]; simpl; [tauto|].
  intros Hnd [Heq | Hin]; inversion Hnd as [|? ? Hk Hnd']; subst.
  - inversion Heq; subst. rewrite String.eqb_refl. reflexivity.
  - destruct (String.eqb k d) eqn:Ek.
    + apply String.eqb_eq in Ek. subst k. exfalso. apply Hk.
      change d with (fst (d, r)). apply in_map. exact Hin.
    + auto.
Qed.

Lemma loc_loc_set_cells fr d kws d' :
  loc (loc_set_cells fr d kws) d' =
  if String.eqb d d'
  then Some (set_cells (match loc fr d' with Some r => r | None => Row.nan end) kws)
  else loc fr d'.
Proof.
  unfold loc_set_cells. destruct (loc fr d) as [r|] eqn:E.
  - rewrite loc_on_label. destruct (String.eqb d d') eqn:Ed; [|reflexivity].
    apply String.eqb_eq in Ed. subst d'. rewrite E. reflexivity.
  - rewrite loc_app. simpl. destruct (String.eqb d d') eqn:Ed.
    + apply String.eqb_eq in Ed. subst d'. rewrite E. reflexivity.
    + destruct (loc fr d'); reflexivity.
Qed.

Lemma index_loc_set_cells fr d kws :
  index (loc_set_cells fr d kws) =
  match loc fr d with Some _ => index fr | None => index fr ++ [d] end.
Proof.
  unfold loc_set_cells. destruct (loc fr d).
  - apply index_on_label.
  - unfold index. rewrite map_app. reflexivity.
Qed.

Lemma unique_index_snoc fr d r :
  unique_index fr -> loc fr d = None -> unique_index (fr ++ [(d, r)]).
Proof. forget_world.
  unfold unique_index, index. intros Hnd Hloc. rewrite map_app. simpl.
  apply loc_None_index in Hloc.
  apply NoDup_app; [exact Hnd | repeat constructor; simpl; tauto |].
  intros x Hx [<- | []]. exact (Hloc Hx).
Qed.

Lemma unique_index_loc_set_cells fr d kws :
  unique_index fr -> unique_index (loc_set_cells fr d kws).
Proof.
  intros Hnd. unfold loc_set_cells. destruct (loc fr d) eqn:E.
  - unfold unique_index. rewrite index_on_label. exact Hnd.
  - apply unique_index_snoc; assumption.
Qed.

(** The cells a keyword list leaves alone. *)
Definition sets_status (kw : Keyword) : bool :=
  match kw with kw_status _ => true | _ => false end.

Lemma set_cells_status r kws :
  forallb (fun kw => negb (sets_status kw)) kws = true ->
  Row.status (set_cells r kws) = Row.status r.
Proof.
  unfold set_cells. revert r.
  induction kws as [|kw kws IH]; simpl; intros r H; [reflexivity|].
  apply andb_true_iff in H. destruct H as [Hkw H].
  rewrite (IH _ H). destruct r, kw; simpl in *; try reflexivity; discriminate.
Qed.

(* ================================================================== *)
(** * Running the methods *)
(* ================================================================== *)

Lemma exec_bind {A B} (m : Crawl A) (k : A -> Crawl B) self :
  exec (bind m k) self = exec (k (eval m self)) (exec m self).
Proof. unfold exec, eval, bind. destruct (m self). reflexivity. Qed.

Lemma eval_bind {A B} (m : Crawl A) (k : A -> Crawl B) self :
  eval (bind m k) self = eval (k (eval m self)) (exec m self).
Proof. unfold exec, eval, bind. destruct (m self). reflexivity. Qed.

Lemma for_each_app {A} (xs ys : list A) body self :
  exec (for_each (xs ++ ys) body) self =
  exec (for_each ys body) (exec (for_each xs body) self).
Proof.
  revert self. induction xs as [|x xs IH]; intros self; simpl.
  - reflexivity.
  - rewrite !exec_bind. apply IH.
Qed.

Lemma frontier_update_doc doc_id kws self :
  frontier (exec (update_doc doc_id kws) self) =
  loc_set_cells (frontier self) doc_id
    (kws ++ [kw_updated (Some (Timestamp_now (clock self)))]).
Proof. reflexivity. Qed.

(** A relation between the frame before and after a method that holds
    of doing nothing and composes along a sequence of methods. *)
Section FrameRelation.

Variable P : Frontier -> Frontier -> Prop.
Hypothesis P_refl : forall fr, P fr fr.
Hypothesis P_trans : forall a b c, P a b -> P b c -> P a c.

Definition relates {A} (m : Crawl A) : Prop :=
  forall self, P (frontier self) (frontier (exec m self)).

Lemma relates_ret {A} (a : A) : relates (ret a).
Proof using P_refl. intros self. apply P_refl. Qed.

Lemma relates_bind {A B} (m : Crawl A) (k : A -> Crawl B) :
  relates m -> (forall a, relates (k a)) -> relates (bind m k).
Proof using P_trans.
  intros Hm Hk self. rewrite exec_bind.
  eapply P_trans; [apply Hm | apply Hk].
Qed.

Lemma relates_for_each {A} (xs : list A) body :
  (forall x, In x xs -> relates (body x)) -> relates (for_each xs body).
Proof using P_refl P_trans.
  induction xs as [|x xs IH]; intros H; simpl.
  - apply relates_ret.
  - apply relates_bind; [apply H; left; reflexivity|].
    intros _. apply IH. intros y Hy. apply H. right. exact Hy.
Qed.

Lemma relates_save_response d content : relates (save_response d content).
Proof using P_refl. intros self. apply P_refl. Qed.

Lemma relates_save_frontier : relates save_frontier.
Proof using P_refl. intros self. apply P_refl. Qed.

End FrameRelation.


(* ================================================================== *)
(** * What the frontier methods do to the rows *)
(* ================================================================== *)

(** The row [add_to_frontier] inserts under a new label. *)
Definition inserted_row (url : URL.t) (priority : Priority) (depth : Z)
    (root : option string) (now : Timestamp) (key : Q) : Row.t :=
  Row.mk (Some url) (Some (URL.host url)) (Some (get_main_domain url))
         (Some depth) (Some (Priority_value priority)) (Some pending)
         (Some now) (Some now) root (Some key) (Some false) (Some false).

(** The test guarding the update of an entry already present. *)
Definition improves (entry : Row.t) (priority : Priority) (depth : Z) : bool :=
  is_pending entry
  && (Py.gt (Row.depth entry) depth
      || Py.lt (Row.priority entry) (Priority_value priority)).

Definition improved (entry : Row.t) (priority : Priority) (depth : Z)
    (now : Timestamp) : Row.t :=
  set_cells entry
    [kw_depth (Py.min (Row.depth entry) depth);
     kw_priority (Py.max (Row.priority entry) (Priority_value priority));
     kw_updated (Some now)].

Lemma loc_add_to_frontier url priority depth root self d :
  loc (frontier (exec (add_to_frontier url priority depth root) self)) d =
  if String.eqb (create_id_for_url url) d then
    match loc (frontier self) d with
    | None =>
        Some (inserted_row url priority depth root
                (Timestamp_now (clock self)) (random_random (S (clock self))))
    | Some entry =>
        if improves entry priority depth
        then Some (improved entry priority depth (Timestamp_now (clock self)))
        else Some entry
    end
  else loc (frontier self) d.
Proof.
  unfold add_to_frontier. rewrite exec_bind.
  change (eval get_frontier self) with (frontier self).
  change (exec get_frontier self) with self.
  destruct (String.eqb (create_id_for_url url) d) eqn:Ed.
  - apply String.eqb_eq in Ed. subst d.
    destruct (loc (frontier self) (create_id_for_url url)) as [entry|] eqn:E.
    + fold (improves entry priority depth).
      destruct (improves entry priority depth) eqn:Ei.
      * rewrite frontier_update_doc, loc_loc_set_cells, String.eqb_refl, E.
        reflexivity.
      * exact E.
    + cbn. unfold loc_set_row. rewrite E, loc_app, E. simpl.
      rewrite String.eqb_refl. reflexivity.
  - destruct (loc (frontier self) (create_id_for_url url)) as [entry|] eqn:E.
    + fold (improves entry priority depth).
      destruct (improves entry priority depth) eqn:Ei.
      * rewrite frontier_update_doc, loc_loc_set_cells, Ed. reflexivity.
      * reflexivity.
    + cbn. unfold loc_set_row. rewrite E, loc_app. simpl. rewrite Ed.
      destruct (loc (frontier self) d); reflexivity.
Qed.

Lemma index_add_to_frontier url priority depth root self :
  index (frontier (exec (add_to_frontier url priority depth root) self)) =
  match loc (frontier self) (create_id_for_url url) with
  | Some _ => index (frontier self)
  | None => index (frontier self) ++ [create_id_for_url url]
  end.
Proof.
  unfold add_to_frontier. rewrite exec_bind.
  change (eval get_frontier self) with (frontier self).
  change (exec get_frontier self) with self.
  destruct (loc (frontier self) (create_id_for_url url)) as [entry|] eqn:E.
  - fold (improves entry priority depth).
    destruct (improves entry priority depth).
    + rewrite frontier_update_doc, index_loc_set_cells, E. reflexivity.
    + reflexivity.
  - cbn. unfold loc_set_row. rewrite E. unfold index. rewrite map_app.
    reflexivity.
Qed.

Lemma loc_update_doc doc_id kws self d :
  loc (frontier (exec (update_doc doc_id kws) self)) d =
  if String.eqb doc_id d
  then Some (set_cells (match loc (frontier self) d with
                        | Some r => r
                        | None => Row.nan
                        end)
                       (kws ++ [kw_updated (Some (Timestamp_now (clock self)))]))
  else loc (frontier self) d.
Proof. rewrite frontier_update_doc. apply loc_loc_set_cells. Qed.

Lemma index_update_doc doc_id kws self :
  index (frontier (exec (update_doc doc_id kws) self)) =
  match loc (frontier self) doc_id with
  | Some _ => index (frontier self)
  | None => index (frontier self) ++ [doc_id]
  end.
Proof. rewrite frontier_update_doc. apply index_loc_set_cells. Qed.

(** Rows are kept, each related to what it was. *)
Definition keeps (R : Row.t -> Row.t -> Prop) (fr fr' : Frontier) : Prop :=
  forall d r, loc fr d = Some r -> exists r', loc fr' d = Some r' /\ R r r'.

Lemma keeps_refl (R : Row.t -> Row.t -> Prop) :
  (forall r, R r r) -> forall fr, keeps R fr fr.
Proof. intros HR fr d r H. exists r. auto. Qed.

Lemma keeps_trans (R : Row.t -> Row.t -> Prop) :
  (forall a b c, R a b -> R b c -> R a c) ->
  forall a b c, keeps R a b -> keeps R b c -> keeps R a c.
Proof.
  intros HR a b c Hab Hbc d r H.
  destruct (Hab d r H) as (r1 & H1 & R1).
  destruct (Hbc d r1 H1) as (r2 & H2 & R2).
  exists r2. eauto.
Qed.

Lemma keeps_update_doc (R : Row.t -> Row.t -> Prop) doc_id kws :
  (forall r, R r r) ->
  (forall r now, R r (set_cells r (kws ++ [kw_updated now]))) ->
  relates (keeps R) (update_doc doc_id kws).
Proof.
  intros Hrefl Hset self d r H. rewrite loc_update_doc, H.
  destruct (String.eqb doc_id d); eauto.
Qed.

Lemma keeps_add_to_frontier (R : Row.t -> Row.t -> Prop) url priority depth root :
  (forall r, R r r) ->
  (forall r now, improves r priority depth = true ->
                 R r (improved r priority depth now)) ->
  relates (keeps R) (add_to_frontier url priority depth root).
Proof.
  intros Hrefl Himp self d r H. rewrite loc_add_to_frontier, H.
  destruct (String.eqb (create_id_for_url url) d); [|eauto].
  destruct (improves r priority depth) eqn:E; eauto.
Qed.


(** ** Status, depth and priority under [add_to_frontier] *)

Definition same_status (r r' : Row.t) : Prop := Row.status r' = Row.status r.

(** Order on cells: both present and ordered, or both missing. *)
Definition cell_le (a b : option Z) : Prop :=
  match a, b with
  | Some x, Some y => x <= y
  | None, None => True
  | _, _ => False
  end.

Lemma cell_le_refl a : cell_le a a.
Proof. destruct a; simpl; lia || exact I. Qed.

Lemma cell_le_trans a b c : cell_le a b -> cell_le b c -> cell_le a c.
Proof. destruct a, b, c; simpl; try tauto; lia. Qed.

(** A row after a rediscovery: same status, depth no larger, priority no
    smaller. *)
Definition never_worse (r r' : Row.t) : Prop :=
  Row.status r' = Row.status r
  /\ cell_le (Row.depth r') (Row.depth r)
  /\ cell_le (Row.priority r) (Row.priority r').

Lemma never_worse_refl r : never_worse r r.
Proof. repeat split; apply cell_le_refl. Qed.

Lemma never_worse_trans a b c :
  never_worse a b -> never_worse b c -> never_worse a c.
Proof.
  intros (S1 & D1 & P1) (S2 & D2 & P2). repeat split.
  - congruence.
  - eapply cell_le_trans; eassumption.
  - eapply cell_le_trans; eassumption.
Qed.

Lemma improved_cells entry priority depth now :
  Row.status (improved entry priority depth now) = Row.status entry
  /\ Row.depth (improved entry priority depth now) = Py.min (Row.depth entry) depth
  /\ Row.priority (improved entry priority depth now)
     = Py.max (Row.priority entry) (Priority_value priority)
  /\ Row.url (improved entry priority depth now) = Row.url entry
  /\ Row.root (improved entry priority depth now) = Row.root entry
  /\ Row.main_domain (improved entry priority depth now) = Row.main_domain entry
  /\ Row.features_tubingen (improved entry priority depth now)
     = Row.features_tubingen entry
  /\ Row.features_english (improved entry priority depth now)
     = Row.features_english entry.
Proof. destruct entry. cbn. repeat split. Qed.

Lemma py_min_le a b : cell_le (Py.min a b) a.
Proof.
  destruct a as [x|]; simpl; [|exact I].
  destruct (Z.ltb_spec b x); lia.
Qed.

Lemma py_max_ge a b : cell_le a (Py.max a b).
Proof.
  destruct a as [x|]; simpl; [|exact I].
  destruct (Z.ltb_spec x b); lia.
Qed.

Lemma improved_never_worse entry priority depth now :
  never_worse entry (improved entry priority depth now).
Proof.
  destruct (improved_cells entry priority depth now) as (S & D & P & _).
  unfold never_worse. rewrite S, D, P.
  repeat split; [apply py_min_le | apply py_max_ge].
Qed.

Lemma add_to_frontier_never_worse url priority depth root :
  relates (keeps never_worse) (add_to_frontier url priority depth root).
Proof.
  apply keeps_add_to_frontier.
  - apply never_worse_refl.
  - intros. apply improved_never_worse.
Qed.

(** A sequence of [add_to_frontier] calls. *)
Definition Proposal : Type := URL.t * Priority * Z * option string.

Definition propose (p : Proposal) : Crawl unit :=
  let '(url, priority, depth, root) := p in
  add_to_frontier url priority depth root.

Definition add_all (calls : list Proposal) : Crawl unit :=
  for_each calls propose.

Lemma add_all_never_worse calls : relates (keeps never_worse) (add_all calls).
Proof.
  apply relates_for_each.
  - apply keeps_refl, never_worse_refl.
  - apply keeps_trans, never_worse_trans.
  - intros [[[url priority] depth] root] _. apply add_to_frontier_never_worse.
Qed.

(** The proposal is strictly better than the entry: a smaller depth or a
    higher priority. *)
Definition strictly_better (entry : Row.t) (priority : Priority) (depth : Z)
  : Prop :=
  (exists d0, Row.depth entry = Some d0 /\ depth < d0)
  \/ (exists p0, Row.priority entry = Some p0 /\ p0 < Priority_value priority).

Lemma improves_spec entry priority depth :
  improves entry priority depth = true <->
  Row.status entry = Some pending /\ strictly_better entry priority depth.
Proof.
  unfold improves, is_pending, strictly_better, Py.gt, Py.lt.
  rewrite andb_true_iff, orb_true_iff. split.
  - intros [Hs Hb]. split.
    + destruct (Row.status entry) as [s|]; [|discriminate].
      apply Status_eqb_eq in Hs. congruence.
    + destruct Hb as [Hb | Hb]; [left | right].
      * destruct (Row.depth entry) as [d0|]; [|discriminate].
        exists d0. split; [reflexivity | apply Z.ltb_lt; exact Hb].
      * destruct (Row.priority entry) as [p0|]; [|discriminate].
        exists p0. split; [reflexivity | apply Z.ltb_lt; exact Hb].
  - intros [Hs Hb]. rewrite Hs. split; [reflexivity|].
    destruct Hb as [(d0 & -> & H) | (p0 & -> & H)]; [left | right];
      apply Z.ltb_lt; exact H.
Qed.

Lemma py_min_Z a b : Py.min a b = option_map (fun x => Z.min x b) a.
Proof.
  destruct a as [x|]; simpl; [|reflexivity].
  destruct (Z.ltb_spec b x); f_equal; lia.
Qed.

Lemma py_max_Z a b : Py.max a b = option_map (fun x => Z.max x b) a.
Proof.
  destruct a as [x|]; simpl; [|reflexivity].
  destruct (Z.ltb_spec x b); f_equal; lia.
Qed.


(* ================================================================== *)
(** * The order of [sort_values] *)
(* ================================================================== *)

(** A three-way comparison that behaves as a total preorder. *)
Record order_like {A} (cmp : A -> A -> comparison) : Prop := {
  cmp_opp : forall a b, cmp b a = CompOpp (cmp a b);
  cmp_eq_l : forall a b c, cmp a b = Eq -> cmp a c = cmp b c;
  cmp_lt_trans : forall a b c, cmp a b = Lt -> cmp b c = Lt -> cmp a c = Lt
}.

Lemma cmp_eq_r {A} (cmp : A -> A -> comparison) :
  order_like cmp -> forall a b c, cmp a b = Eq -> cmp c a = cmp c b.
Proof.
  intros O a b c H. rewrite (cmp_opp cmp O a c), (cmp_opp cmp O b c).
  f_equal. apply (cmp_eq_l cmp O). exact H.
Qed.

Lemma cmp_le_trans {A} (cmp : A -> A -> comparison) :
  order_like cmp ->
  forall a b c, cmp a b <> Gt -> cmp b c <> Gt -> cmp a c <> Gt.
Proof.
  intros O a b c Hab Hbc.
  destruct (cmp a b) eqn:Eab; [| |congruence].
  - rewrite (cmp_eq_l cmp O a b c Eab). exact Hbc.
  - destruct (cmp b c) eqn:Ebc; [| |congruence].
    + rewrite <- (cmp_eq_r cmp O b c a Ebc), Eab. discriminate.
    + rewrite (cmp_lt_trans cmp O a b c Eab Ebc). discriminate.
Qed.

Lemma order_like_Z : order_like Z.compare.
Proof.
  constructor.
  - intros a b. apply Z.compare_antisym.
  - intros a b c H. apply Z.compare_eq in H. congruence.
  - intros a b c. rewrite !Z.compare_lt_iff. lia.
Qed.

Lemma order_like_Q : order_like Qcompare.
Proof.
  constructor.
  - intros a b. symmetry. apply Qcompare_antisym.
  - intros a b c H. apply Qeq_alt in H. rewrite H. reflexivity.
  - intros a b c. rewrite <- !Qlt_alt. apply Qlt_trans.
Qed.

Lemma order_like_descending {A} (cmp : A -> A -> comparison) :
  order_like cmp -> order_like (descending cmp).
Proof.
  intros O. unfold descending. constructor.
  - intros a b. apply (cmp_opp cmp O).
  - intros a b c H. apply (cmp_eq_r cmp O).
    rewrite (cmp_opp cmp O), H. reflexivity.
  - intros a b c H1 H2. exact (cmp_lt_trans cmp O c b a H2 H1).
Qed.

Lemma order_like_cell {A} (cmp : A -> A -> comparison) :
  order_like cmp -> order_like (cell_compare cmp).
Proof.
  intros O. constructor.
  - intros [a|] [b|]; simpl; try reflexivity. apply (cmp_opp cmp O).
  - intros [a|] [b|] [c|]; simpl; try reflexivity; try discriminate.
    apply (cmp_eq_l cmp O).
  - intros [a|] [b|] [c|]; simpl; try reflexivity; try discriminate.
    apply (cmp_lt_trans cmp O).
Qed.

(** Compare by a first key, then by a second. *)
Definition lexicographic {A} (c1 c2 : A -> A -> comparison) : A -> A -> comparison :=
  fun a b => then_by (c1 a b) (c2 a b).

Lemma order_like_lexicographic {A} (c1 c2 : A -> A -> comparison) :
  order_like c1 -> order_like c2 -> order_like (lexicographic c1 c2).
Proof.
  intros O1 O2. unfold lexicographic, then_by. constructor.
  - intros a b. rewrite (cmp_opp c1 O1 a b), (cmp_opp c2 O2 a b).
    destruct (c1 a b); reflexivity.
  - intros a b c H. destruct (c1 a b) eqn:E1; try discriminate.
    rewrite (cmp_eq_l c1 O1 a b c E1), (cmp_eq_l c2 O2 a b c H). reflexivity.
  - intros a b c Hab Hbc.
    destruct (c1 a b) eqn:E1; try discriminate.
    + rewrite (cmp_eq_l c1 O1 a b c E1).
      destruct (c1 b c); try discriminate; [|reflexivity].
      exact (cmp_lt_trans c2 O2 a b c Hab Hbc).
    + destruct (c1 b c) eqn:E2; try discriminate.
      * rewrite <- (cmp_eq_r c1 O1 b c a E2), E1. reflexivity.
      * rewrite (cmp_lt_trans c1 O1 a b c E1 E2). reflexivity.
Qed.

Definition by_cell {A B} (cell : A -> B) (cmp : B -> B -> comparison)
  : A -> A -> comparison :=
  fun x y => cmp (cell x) (cell y).

Lemma order_like_by_cell {A B} (cell : A -> B) (cmp : B -> B -> comparison) :
  order_like cmp -> order_like (by_cell cell cmp).
Proof.
  intros O. unfold by_cell. constructor; intros.
  - apply (cmp_opp cmp O).
  - apply (cmp_eq_l cmp O); assumption.
  - eapply (cmp_lt_trans cmp O); eassumption.
Qed.

Lemma order_like_sort_key : order_like sort_key_compare.
Proof.
  change sort_key_compare with
    (lexicographic
       (by_cell Row.priority (cell_compare (descending Z.compare)))
       (lexicographic
          (by_cell Row.depth (cell_compare Z.compare))
          (by_cell Row.random_sort_key (cell_compare Qcompare)))).
  apply order_like_lexicographic; [|apply order_like_lexicographic];
    apply order_like_by_cell, order_like_cell.
  - apply order_like_descending, order_like_Z.
  - apply order_like_Z.
  - apply order_like_Q.
Qed.

Lemma sorts_before_total x y : sorts_before x y = false -> sorts_before y x = true.
Proof.
  unfold sorts_before.
  rewrite (cmp_opp _ order_like_sort_key (snd x) (snd y)).
  destruct (sort_key_compare (snd x) (snd y)); simpl; congruence.
Qed.

Lemma sorts_before_trans x y z :
  sorts_before x y = true -> sorts_before y z = true -> sorts_before x z = true.
Proof.
  unfold sorts_before. intros Hxy Hyz.
  assert (H : sort_key_compare (snd x) (snd z) <> Gt).
  { apply (cmp_le_trans _ order_like_sort_key _ (snd y)).
    - destruct (sort_key_compare (snd x) (snd y)); congruence.
    - destruct (sort_key_compare (snd y) (snd z)); congruence. }
  destruct (sort_key_compare (snd x) (snd z)); congruence.
Qed.


(* ================================================================== *)
(** * The scheduler's pipeline *)
(* ================================================================== *)

Definition ordered (x y : string * Row.t) : Prop := sorts_before x y = true.

Lemma insert_row_perm x rows : Permutation (x :: rows) (insert_row x rows).
Proof.
  induction rows as [|y rows IH]; simpl.
  - apply Permutation_refl.
  - destruct (sorts_before x y).
    + apply Permutation_refl.
    + eapply Permutation_trans; [apply perm_swap|].
      apply perm_skip. exact IH.
Qed.

Lemma sort_values_perm fr : Permutation fr (sort_values fr).
Proof.
  induction fr as [|x fr IH]; simpl.
  - apply Permutation_refl.
  - eapply Permutation_trans; [|apply insert_row_perm].
    apply perm_skip. exact IH.
Qed.

Lemma insert_row_sorted x rows :
  StronglySorted ordered rows -> StronglySorted ordered (insert_row x rows).
Proof.
  induction rows as [|y rows IH]; simpl; intros Hs.
  - repeat constructor.
  - inversion Hs as [|? ? Hs' Hall]; subst.
    destruct (sorts_before x y) eqn:E.
    + constructor; [exact Hs|].
      constructor; [exact E|].
      eapply Forall_impl; [|exact Hall].
      intros z Hz. eapply sorts_before_trans; eassumption.
    + constructor; [apply IH; exact Hs'|].
      apply (Permutation_Forall (insert_row_perm x rows)).
      constructor; [apply sorts_before_total; exact E | exact Hall].
Qed.

Lemma sort_values_sorted fr : StronglySorted ordered (sort_values fr).
Proof.
  induction fr as [|x fr IH]; simpl.
  - constructor.
  - apply insert_row_sorted. exact IH.
Qed.

Lemma cell_eqb_eq a b : cell_eqb a b = true <-> a = b.
Proof.
  destruct a as [x|], b as [y|]; simpl; split; try congruence.
  - intros H. apply String.eqb_eq in H. congruence.
  - intros [= ->]. apply String.eqb_refl.
Qed.

Lemma seen_spec m seen : existsb (cell_eqb m) seen = true <-> In m seen.
Proof.
  rewrite existsb_exists. split.
  - intros (s & Hin & Heq). apply cell_eqb_eq in Heq. congruence.
  - intros Hin. exists m. split; [exact Hin | apply cell_eqb_eq; reflexivity].
Qed.

Definition main_domain_of (x : string * Row.t) : option string :=
  Row.main_domain (snd x).

Lemma drop_duplicates_from_In seen fr x :
  In x (drop_duplicates_from seen fr) ->
  In x fr /\ ~ In (main_domain_of x) seen.
Proof. forget_world.
  revert seen. induction fr as [|y fr IH]; simpl; intros seen H; [tauto|].
  destruct (existsb (cell_eqb (Row.main_domain (snd y))) seen) eqn:E.
  - destruct (IH _ H). tauto.
  - destruct H as [<- | H].
    + split; [tauto|]. intros Hin. apply seen_spec in Hin.
      unfold main_domain_of in Hin. congruence.
    + destruct (IH _ H) as [? Hn]. split; [tauto|].
      intros Hin. apply Hn. right. exact Hin.
Qed.

Lemma drop_duplicates_from_NoDup seen fr :
  NoDup (map main_domain_of (drop_duplicates_from seen fr)).
Proof.
  revert seen. induction fr as [|y fr IH]; simpl; intros seen.
  - constructor.
  - destruct (existsb (cell_eqb (Row.main_domain (snd y))) seen); [apply IH|].
    simpl. constructor; [|apply IH].
    intros Hin. apply in_map_iff in Hin. destruct Hin as (z & Hz & Hin).
    apply drop_duplicates_from_In in Hin. destruct Hin as [_ Hn].
    apply Hn. left. symmetry. exact Hz.
Qed.

Lemma drop_duplicates_from_sorted seen fr :
  StronglySorted ordered fr ->
  StronglySorted ordered (drop_duplicates_from seen fr).
Proof.
  revert seen. induction fr as [|y fr IH]; simpl; intros seen Hs.
  - constructor.
  - inversion Hs as [|? ? Hs' Hall]; subst.
    destruct (existsb (cell_eqb (Row.main_domain (snd y))) seen); [auto|].
    constructor; [auto|].
    apply Forall_forall. intros z Hz.
    apply drop_duplicates_from_In in Hz.
    rewrite Forall_forall in Hall. apply Hall. tauto.
Qed.

Lemma sorts_before_refl x : sorts_before x x = true.
Proof.
  pose proof (sorts_before_total x x) as H.
  destruct (sorts_before x x); [reflexivity | apply H; reflexivity].
Qed.

(** [keep="first"]: every row of a sorted frame has, among the rows
    kept, one of its main domain that sorts no later. *)
Lemma drop_duplicates_from_first seen fr x :
  StronglySorted ordered fr -> In x fr ->
  In (main_domain_of x) seen
  \/ exists y, In y (drop_duplicates_from seen fr)
               /\ main_domain_of y = main_domain_of x /\ ordered y x.
Proof. forget_world.
  revert seen. induction fr as [|a fr IH]; simpl; intros seen Hs Hin; [tauto|].
  inversion Hs as [|? ? Hs' Hall]; subst. rewrite Forall_forall in Hall.
  destruct (existsb (cell_eqb (Row.main_domain (snd a))) seen) eqn:E.
  - destruct Hin as [<- | Hin].
    + left. apply seen_spec. exact E.
    + apply IH; assumption.
  - destruct Hin as [<- | Hin].
    + right. exists a. split; [left; reflexivity|].
      split; [reflexivity | apply sorts_before_refl].
    + destruct (IH (Row.main_domain (snd a) :: seen) Hs' Hin)
        as [[Hm | Hseen] | (y & Hy & Hm & Ho)].
      * right. exists a. split; [left; reflexivity|]. split; [exact Hm | auto].
      * left. exact Hseen.
      * right. exists y. split; [right; exact Hy | tauto].
Qed.


Lemma head_In n fr x : In x (head n fr) -> In x fr.
Proof.
  unfold head. intros H. rewrite <- (firstn_skipn n fr).
  apply in_or_app. left. exact H.
Qed.

Lemma head_NoDup {B} (f : string * Row.t -> B) n fr :
  NoDup (map f fr) -> NoDup (map f (head n fr)).
Proof.
  unfold head. intros H. rewrite <- (firstn_skipn n fr), map_app in H.
  exact (NoDup_app_remove_r _ _ H).
Qed.

Lemma head_sorted n fr :
  StronglySorted ordered fr -> StronglySorted ordered (head n fr).
Proof.
  unfold head. revert n. induction fr as [|x fr IH]; intros [|n] Hs; simpl;
    try constructor.
  - inversion Hs; subst. auto.
  - inversion Hs as [|? ? _ Hall]; subst.
    apply Forall_forall. intros y Hy. rewrite Forall_forall in Hall.
    apply Hall. exact (head_In n fr y Hy).
Qed.

(** A row of the frame from which the scheduler may draw. *)
Definition eligible (x : string * Row.t) : Prop :=
  Row.status (snd x) = Some pending
  /\ exists depth, Row.depth (snd x) = Some depth /\ depth < max_depth config.

Lemma query_pending_In fr x :
  In x (query_pending fr) <-> In x fr /\ eligible x.
Proof.
  unfold query_pending, eligible, is_pending, Py.lt.
  rewrite filter_In, andb_true_iff. split; intros [Hin H]; split; try exact Hin.
  - destruct H as [Hs Hd]. split.
    + destruct (Row.status (snd x)) as [s|]; [|discriminate].
      apply Status_eqb_eq in Hs. congruence.
    + destruct (Row.depth (snd x)) as [d|]; [|discriminate].
      exists d. split; [reflexivity | apply Z.ltb_lt; exact Hd].
  - destruct H as [Hs (d & Hd & Hlt)]. rewrite Hs, Hd.
    split; [reflexivity | apply Z.ltb_lt; exact Hlt].
Qed.

Lemma pending_docs_In fr x :
  In x (pending_docs fr) -> In x fr /\ eligible x.
Proof.
  unfold pending_docs, drop_duplicates. intros H.
  apply head_In, drop_duplicates_from_In in H. destruct H as [H _].
  apply (Permutation_in _ (Permutation_sym (sort_values_perm _))) in H.
  apply query_pending_In. exact H.
Qed.

(** The request made from a row. *)
Definition request_from (x : string * Row.t) (req : ScrapingRequest.t) : Prop :=
  ScrapingRequest.doc_id req = fst x
  /\ Row.url (snd x) = Some (ScrapingRequest.url req)
  /\ Row.depth (snd x) = Some (ScrapingRequest.depth req)
  /\ ScrapingRequest.root req = Row.root (snd x).

Lemma requests_of_rows_from rows batch :
  requests_of_rows rows = Returned batch -> Forall2 request_from rows batch.
Proof.
  revert batch. induction rows as [|x rows IH]; simpl; intros batch H.
  - inversion H. constructor.
  - unfold request_of_row in H.
    destruct (Row.url (snd x)) as [u|] eqn:Eu; [|discriminate].
    destruct (Row.depth (snd x)) as [d|] eqn:Ed; [|discriminate].
    destruct (requests_of_rows rows) as [reqs|]; [|discriminate].
    inversion H; subst. constructor; [|apply IH; reflexivity].
    unfold request_from. simpl. auto.
Qed.

Lemma requests_of_rows_returns rows :
  Forall (fun x => Row.url (snd x) <> None /\ Row.depth (snd x) <> None) rows ->
  exists batch, requests_of_rows rows = Returned batch.
Proof.
  induction 1 as [|x rows [Hu Hd] _ IH]; simpl.
  - eexists. reflexivity.
  - unfold request_of_row.
    destruct (Row.url (snd x)); [|congruence].
    destruct (Row.depth (snd x)); [|congruence].
    destruct IH as (reqs & ->). eexists. reflexivity.
Qed.

(** Every pending row carries a url: true of every row that
    [convert_seed_to_frontier] and [add_to_frontier] insert. *)
Definition pending_rows_have_url (fr : Frontier) : Prop :=
  forall d r, In (d, r) fr -> Row.status r = Some pending -> Row.url r <> None.

Lemma fetch_next_doc_batch_returns self :
  pending_rows_have_url (frontier self) ->
  exists batch, eval fetch_next_doc_batch self = Returned batch.
Proof.
  intros Hurl. unfold fetch_next_doc_batch, eval. simpl.
  apply requests_of_rows_returns, Forall_forall. intros [d r] Hx.
  apply pending_docs_In in Hx. destruct Hx as [Hin [Hs (dp & Hd & _)]].
  simpl in *. split; [eapply Hurl; eassumption | congruence].
Qed.

(** The rows behind a batch are those of [pending_docs]. *)
Lemma batch_rows self batch :
  eval fetch_next_doc_batch self = Returned batch ->
  Forall2 request_from (pending_docs (frontier self)) batch.
Proof. intros H. apply requests_of_rows_from. exact H. Qed.

Lemma Forall2_In_r {A B} (R : A -> B -> Prop) xs ys y :
  Forall2 R xs ys -> In y ys -> exists x, In x xs /\ R x y.
Proof.
  induction 1 as [|x0 y0 xs ys H0 _ IH]; simpl; [tauto|].
  intros [<- | Hin].
  - exists x0. auto.
  - destruct (IH Hin) as (x & Hx & Hr). exists x. auto.
Qed.

Lemma batch_member_pending self batch req :
  eval fetch_next_doc_batch self = Returned batch -> In req batch ->
  exists r, In (ScrapingRequest.doc_id req, r) (frontier self)
            /\ Row.status r = Some pending.
Proof.
  intros Hb Hin.
  destruct (Forall2_In_r _ _ _ _ (batch_rows self batch Hb) Hin)
    as ([d r] & Hx & Hid & _).
  apply pending_docs_In in Hx. destruct Hx as [Hx [Hs _]].
  simpl in *. exists r. rewrite Hid. auto.
Qed.

Lemma Forall2_map_l {A B C} (R : A -> B -> Prop) (f : A -> C) (g : B -> C) xs ys :
  Forall2 R xs ys -> (forall x y, R x y -> f x = g y) -> map f xs = map g ys.
Proof.
  intros H Hfg. induction H; simpl; [reflexivity|].
  f_equal; auto.
Qed.

Lemma pending_docs_unique fr :
  unique_index fr -> unique_index (pending_docs fr).
Proof.
  unfold unique_index, index, pending_docs, drop_duplicates. intros Hnd.
  apply head_NoDup.
  assert (Hs : NoDup (map fst (sort_values (query_pending fr)))).
  { eapply Permutation_NoDup.
    - apply Permutation_map, sort_values_perm.
    - unfold query_pending. clear - Hnd.
      induction fr as [|x fr IH]; simpl; [constructor|].
      inversion Hnd as [|? ? Hx Hnd']; subst.
      destruct (is_pending (snd x) && Py.lt (Row.depth (snd x)) (max_depth config)).
      + simpl. constructor; [|auto]. intros Hin. apply Hx.
        apply in_map_iff in Hin. destruct Hin as (y & Hy & Hin).
        apply filter_In in Hin. rewrite <- Hy. apply in_map. tauto.
      + auto. }
  revert Hs. generalize (sort_values (query_pending fr)) (@nil (option string)).
  intros l. induction l as [|x l IH]; simpl; intros seen Hs; [constructor|].
  inversion Hs as [|? ? Hx Hs']; subst.
  destruct (existsb (cell_eqb (Row.main_domain (snd x))) seen); [auto|].
  simpl. constructor; [|auto]. intros Hin. apply Hx.
  apply in_map_iff in Hin. destruct Hin as (y & Hy & Hin).
  apply drop_duplicates_from_In in Hin. rewrite <- Hy. apply in_map. tauto.
Qed.

Lemma batch_ids_unique self batch :
  unique_index (frontier self) ->
  eval fetch_next_doc_batch self = Returned batch ->
  NoDup (map ScrapingRequest.doc_id batch).
Proof.
  intros Hnd Hb.
  rewrite <- (Forall2_map_l _ fst ScrapingRequest.doc_id _ _
                (batch_rows self batch Hb)).
  - apply pending_docs_unique. exact Hnd.
  - intros x y (H & _). symmetry. exact H.
Qed.


(* ================================================================== *)
(** * Link discovery and the run loop *)
(* ================================================================== *)

Definition features_only (kws : list Keyword) : bool :=
  forallb (fun kw => match kw with
                     | kw_features_tubingen _ | kw_features_english _ => true
                     | _ => false
                     end) kws.

(** A relation on rows that holds across link discovery as soon as it
    holds across an improvement and across the writing of the features. *)
Section LinkDiscovery.

Variable R : Row.t -> Row.t -> Prop.
Hypothesis R_refl : forall r, R r r.
Hypothesis R_trans : forall a b c, R a b -> R b c -> R a c.
Hypothesis R_improved : forall r priority depth now,
  R r (improved r priority depth now).
Hypothesis R_features : forall r kws now,
  features_only kws = true -> R r (set_cells r (kws ++ [kw_updated now])).

Lemma keeps_add_links hrefs base priority depth root :
  relates (keeps R)
    (for_each hrefs
       (fun href =>
          match extract_url href base with
          | Some url => add_to_frontier url priority depth root
          | None => ret tt
          end)).
Proof using R_refl R_trans R_improved.
  apply relates_for_each.
  - apply keeps_refl, R_refl.
  - apply keeps_trans, R_trans.
  - intros href _. destruct (extract_url href base).
    + apply keeps_add_to_frontier; auto.
    + apply relates_ret, keeps_refl, R_refl.
Qed.

Lemma keeps_add_new_links_to_frontier request response :
  relates (keeps R) (add_new_links_to_frontier request response).
Proof using R_refl R_trans R_improved R_features.
  assert (Hrefl := keeps_refl R R_refl).
  assert (Htrans := keeps_trans R R_trans).
  unfold add_new_links_to_frontier.
  destruct (negb (TUBINGEN_PATTERN _)); [apply relates_ret; exact Hrefl|].
  apply relates_bind; [exact Htrans | | intros priority; apply keeps_add_links].
  destruct (is_english _).
  - apply relates_bind; [exact Htrans | | intros; apply relates_ret; exact Hrefl].
    apply keeps_update_doc; [exact R_refl|]. intros. apply R_features. reflexivity.
  - apply relates_bind; [exact Htrans | |].
    + apply keeps_update_doc; [exact R_refl|]. intros. apply R_features.
      reflexivity.
    + intros _. apply relates_bind; [exact Htrans | |].
      * destruct (is_url_valid _).
        -- apply keeps_add_to_frontier; auto.
        -- apply relates_ret. exact Hrefl.
      * intros; apply relates_ret; exact Hrefl.
Qed.

End LinkDiscovery.

Lemma features_only_status r kws now :
  features_only kws = true ->
  Row.status (set_cells r (kws ++ [kw_updated now])) = Row.status r.
Proof.
  intros H. apply set_cells_status. rewrite forallb_app. simpl.
  rewrite andb_true_r. unfold features_only in H.
  rewrite forallb_forall in *. intros kw Hkw. specialize (H kw Hkw).
  destruct kw; try discriminate; reflexivity.
Qed.

Lemma add_new_links_same_status request response :
  relates (keeps same_status) (add_new_links_to_frontier request response).
Proof.
  apply keeps_add_new_links_to_frontier; unfold same_status.
  - reflexivity.
  - intros; congruence.
  - intros. apply improved_cells.
  - intros. apply features_only_status. assumption.
Qed.

(** The status [_run] writes for an outcome of the fetch. *)
Definition verdict (outcome : option Response.t) : Status :=
  match outcome with
  | None => failed
  | Some response =>
      if negb (is_html response) || html_too_large (Response.content response)
      then failed else completed
  end.

Lemma process_response_status req outcome self d r :
  loc (frontier self) d = Some r ->
  exists r',
    loc (frontier (exec (process_response (req, outcome)) self)) d = Some r'
    /\ Row.status r' = if String.eqb (ScrapingRequest.doc_id req) d
                       then Some (verdict outcome) else Row.status r.
Proof.
  intros H. unfold process_response, verdict.
  assert (Hfail : exists r',
    loc (frontier (exec (update_doc (ScrapingRequest.doc_id req)
                           [kw_status (Some failed)]) self)) d = Some r'
    /\ Row.status r' = if String.eqb (ScrapingRequest.doc_id req) d
                       then Some failed else Row.status r).
  { rewrite loc_update_doc, H.
    destruct (String.eqb (ScrapingRequest.doc_id req) d).
    - eexists. split; [reflexivity|]. destruct r; reflexivity.
    - eauto. }
  destruct outcome as [response|]; [|exact Hfail].
  destruct (negb (is_html response) || html_too_large (Response.content response));
    [exact Hfail|].
  rewrite !exec_bind.
  set (self1 := exec (save_response _ _) self).
  destruct (add_new_links_same_status req response self1 d r H)
    as (r1 & H1 & S1).
  rewrite loc_update_doc, H1.
  destruct (String.eqb (ScrapingRequest.doc_id req) d).
  - eexists. split; [reflexivity|]. destruct r1; reflexivity.
  - eauto.
Qed.

Definition item_id (item : ScrapingRequest.t * option Response.t) : string :=
  ScrapingRequest.doc_id (fst item).

Lemma process_all_status items self d r :
  NoDup (map item_id items) ->
  loc (frontier self) d = Some r ->
  exists r',
    loc (frontier (exec (for_each items process_response) self)) d = Some r'
    /\ (forall item, In item items -> item_id item = d ->
                     Row.status r' = Some (verdict (snd item)))
    /\ (~ In d (map item_id items) -> Row.status r' = Row.status r).
Proof.
  revert self r. induction items as [|[req outcome] items IH];
    simpl; intros self r Hnd H.
  - exists r. repeat split; tauto.
  - inversion Hnd as [|? ? Hfresh Hnd']; subst.
    rewrite exec_bind.
    destruct (process_response_status req outcome self d r H) as (r1 & H1 & S1).
    destruct (IH _ r1 Hnd' H1) as (r' & H' & Hin & Hout).
    exists r'. split; [exact H'|]. split.
    + intros item [<- | Hitem] Hid.
      * unfold item_id in Hid. simpl in Hid, Hfresh. subst d.
        rewrite String.eqb_refl in S1. rewrite Hout; assumption.
      * auto.
    + intros Hn. rewrite Hout by tauto. rewrite S1.
      destruct (String.eqb_spec (ScrapingRequest.doc_id req) d) as [E|E];
        [|reflexivity].
      exfalso. apply Hn. left. exact E.
Qed.

Lemma map_item_id_combine (batch : list ScrapingRequest.t)
    (f : ScrapingRequest.t -> option Response.t) :
  map item_id (combine batch (map f batch)) = map ScrapingRequest.doc_id batch.
Proof. induction batch; simpl; [reflexivity | f_equal; assumption]. Qed.

Lemma In_combine_map {A B} (f : A -> B) xs x y :
  In (x, y) (combine xs (map f xs)) <-> In x xs /\ y = f x.
Proof.
  induction xs as [|a xs IH]; simpl; [tauto|]. rewrite IH. split.
  - intros [[= -> ->] | H]; tauto.
  - intros [[-> | H] ->]; auto.
Qed.

Lemma frontier_run_batch round batch self :
  frontier (exec (run_batch round batch) self) =
  frontier (exec (for_each (combine batch (map (fetch_response round) batch))
                    process_response) self).
Proof. unfold run_batch. rewrite exec_bind. reflexivity. Qed.

(** After a round: the rows of the batch carry their verdicts, the
    others the status they had. *)
Lemma run_batch_status round batch self d r :
  NoDup (map ScrapingRequest.doc_id batch) ->
  loc (frontier self) d = Some r ->
  exists r',
    loc (frontier (exec (run_batch round batch) self)) d = Some r'
    /\ (forall req, In req batch -> ScrapingRequest.doc_id req = d ->
                    Row.status r' = Some (verdict (fetch_response round req)))
    /\ (~ In d (map ScrapingRequest.doc_id batch) ->
        Row.status r' = Row.status r).
Proof.
  intros Hnd H. rewrite frontier_run_batch.
  rewrite <- (map_item_id_combine batch (fetch_response round)) in Hnd.
  destruct (process_all_status _ self d r Hnd H) as (r' & H' & Hin & Hout).
  exists r'. split; [exact H'|]. split.
  - intros req Hreq Hid.
    apply (Hin (req, fetch_response round req)); [|exact Hid].
    apply In_combine_map. auto.
  - rewrite map_item_id_combine in Hout. exact Hout.
Qed.


(** ** The index stays unique *)

Definition stays_unique (fr fr' : Frontier) : Prop :=
  unique_index fr -> unique_index fr'.

Lemma stays_unique_refl fr : stays_unique fr fr.
Proof. exact (fun H => H). Qed.

Lemma stays_unique_trans a b c :
  stays_unique a b -> stays_unique b c -> stays_unique a c.
Proof. unfold stays_unique. auto. Qed.

Lemma unique_update_doc doc_id kws : relates stays_unique (update_doc doc_id kws).
Proof.
  intros self H. rewrite frontier_update_doc.
  apply unique_index_loc_set_cells. exact H.
Qed.

Lemma unique_add_to_frontier url priority depth root :
  relates stays_unique (add_to_frontier url priority depth root).
Proof. forget_world.
  intros self H. unfold unique_index in *. rewrite index_add_to_frontier.
  destruct (loc (frontier self) (create_id_for_url url)) eqn:E; [exact H|].
  apply loc_None_index in E.
  apply NoDup_app; [exact H | repeat constructor; simpl; tauto |].
  intros x Hx [<- | []]. exact (E Hx).
Qed.

Lemma unique_add_new_links_to_frontier request response :
  relates stays_unique (add_new_links_to_frontier request response).
Proof.
  pose proof stays_unique_refl as Hr. pose proof stays_unique_trans as Ht.
  unfold add_new_links_to_frontier.
  destruct (negb (TUBINGEN_PATTERN _)); [apply relates_ret; exact Hr|].
  apply relates_bind; [exact Ht | |].
  - destruct (is_english _).
    + apply relates_bind; [exact Ht | apply unique_update_doc |].
      intros; apply relates_ret; exact Hr.
    + apply relates_bind; [exact Ht | apply unique_update_doc |].
      intros _. apply relates_bind; [exact Ht | |].
      * destruct (is_url_valid _);
          [apply unique_add_to_frontier | apply relates_ret; exact Hr].
      * intros; apply relates_ret; exact Hr.
  - intros priority. apply relates_for_each; [exact Hr | exact Ht |].
    intros href _. destruct (extract_url _ _);
      [apply unique_add_to_frontier | apply relates_ret; exact Hr].
Qed.

Lemma unique_process_response item : relates stays_unique (process_response item).
Proof.
  pose proof stays_unique_refl as Hr. pose proof stays_unique_trans as Ht.
  destruct item as [req [response|]]; simpl; [|apply unique_update_doc].
  destruct (negb (is_html response) || html_too_large (Response.content response));
    [apply unique_update_doc|].
  apply relates_bind; [exact Ht | apply relates_save_response; exact Hr |].
  intros _. apply relates_bind; [exact Ht | |].
  - apply unique_add_new_links_to_frontier.
  - intros _. apply unique_update_doc.
Qed.

Lemma unique_run_batch round batch : relates stays_unique (run_batch round batch).
Proof.
  pose proof stays_unique_refl as Hr. pose proof stays_unique_trans as Ht.
  unfold run_batch. apply relates_bind; [exact Ht | |].
  - apply relates_for_each; [exact Hr | exact Ht |].
    intros item _. apply unique_process_response.
  - intros _. apply relates_save_frontier. exact Hr.
Qed.

(** ** The states of a run *)

(** [run_steps round self round' self']: the loop of [_run], entered in
    round [round] with the crawler [self], reaches round [round'] with
    the crawler [self'] after some turns. *)
Inductive run_steps : nat -> Crawler -> nat -> Crawler -> Prop :=
| run_here round self : run_steps round self round self
| run_turn round self req_batch round' self' :
    eval fetch_next_doc_batch self = Returned req_batch ->
    req_batch <> [] ->
    run_steps (S round) (exec (run_batch round req_batch) self) round' self' ->
    run_steps round self round' self'.

Lemma _run_steps fuel round self :
  exists round', run_steps round self round' (exec (_run fuel round) self).
Proof.
  revert round self. induction fuel as [|fuel IH]; intros round self; simpl.
  - exists round. constructor.
  - rewrite exec_bind.
    change (exec fetch_next_doc_batch self) with self.
    destruct (eval fetch_next_doc_batch self) as [[|req batch]|e] eqn:E.
    + exists round. constructor.
    + rewrite exec_bind.
      destruct (IH (S round) (exec (run_batch round (req :: batch)) self))
        as (round' & H).
      exists round'. eapply run_turn; [exact E | discriminate | exact H].
    + exists round. constructor.
Qed.

(** How the status of a row may move. *)
Definition status_step (s s' : option Status) : Prop :=
  s' = s \/ (s = Some pending /\ (s' = Some completed \/ s' = Some failed)).

Lemma status_step_trans a b c :
  status_step a b -> status_step b c -> status_step a c.
Proof.
  unfold status_step. intros [-> | [-> [-> | ->]]] [-> | [E H]];
    try discriminate; auto.
Qed.

Lemma verdict_terminal outcome :
  verdict outcome = completed \/ verdict outcome = failed.
Proof.
  unfold verdict. destruct outcome as [response|]; [|auto].
  destruct (negb (is_html response) || html_too_large (Response.content response));
    auto.
Qed.

Lemma in_map_doc_id (batch : list ScrapingRequest.t) d :
  In d (map ScrapingRequest.doc_id batch) ->
  exists req, In req batch /\ ScrapingRequest.doc_id req = d.
Proof.
  intros H. apply in_map_iff in H. destruct H as (req & Hid & Hin). eauto.
Qed.

Lemma In_dec_id (batch : list ScrapingRequest.t) d :
  In d (map ScrapingRequest.doc_id batch)
  \/ ~ In d (map ScrapingRequest.doc_id batch).
Proof.
  destruct (in_dec string_dec d (map ScrapingRequest.doc_id batch)); auto.
Qed.

(** One turn of the loop moves each status along [status_step]. *)
Lemma run_batch_status_step round self batch d r :
  unique_index (frontier self) ->
  eval fetch_next_doc_batch self = Returned batch ->
  loc (frontier self) d = Some r ->
  exists r',
    loc (frontier (exec (run_batch round batch) self)) d = Some r'
    /\ status_step (Row.status r) (Row.status r').
Proof.
  intros Hu Hb H.
  destruct (run_batch_status round batch self d r
              (batch_ids_unique self batch Hu Hb) H) as (r' & H' & Hin & Hout).
  exists r'. split; [exact H'|].
  destruct (In_dec_id batch d) as [Hd | Hd].
  - right. destruct (in_map_doc_id _ _ Hd) as (req & Hreq & Hid).
    destruct (batch_member_pending self batch req Hb Hreq) as (r0 & Hr0 & Hp).
    rewrite Hid in Hr0. rewrite (In_loc_unique _ _ _ Hu Hr0) in H.
    inversion H; subst r0. split; [exact Hp|].
    rewrite (Hin req Hreq Hid).
    destruct (verdict_terminal (fetch_response round req)) as [-> | ->]; auto.
  - left. apply Hout. exact Hd.
Qed.

Lemma run_steps_unique round self round' self' :
  run_steps round self round' self' ->
  unique_index (frontier self) -> unique_index (frontier self').
Proof.
  induction 1 as [|round self batch round' self' Hb Hne Hsteps IH]; [auto|].
  intros Hu. apply IH. apply unique_run_batch. exact Hu.
Qed.

(** Along a run every status moves along [status_step]. *)
Lemma run_steps_status_step round self round' self' :
  run_steps round self round' self' ->
  unique_index (frontier self) ->
  forall d r, loc (frontier self) d = Some r ->
  exists r', loc (frontier self') d = Some r'
             /\ status_step (Row.status r) (Row.status r').
Proof.
  induction 1 as [|round self batch round' self' Hb Hne Hsteps IH];
    intros Hu d r H.
  - exists r. split; [exact H | left; reflexivity].
  - destruct (run_batch_status_step round self batch d r Hu Hb H)
      as (r1 & H1 & S1).
    destruct (IH (unique_run_batch round batch self Hu) d r1 H1)
      as (r' & H' & S').
    exists r'. split; [exact H'|]. eapply status_step_trans; eassumption.
Qed.


(* ================================================================== *)
(** * URL canonicalisation and fingerprints *)
(* ================================================================== *)

(** Two URLs that differ at most in query string and fragment (httpx
    parses the parameters of a URL into its query). *)
Definition same_but_query_fragment (u1 u2 : URL.t) : Prop :=
  URL.scheme u1 = URL.scheme u2
  /\ URL.userinfo u1 = URL.userinfo u2
  /\ URL.host u1 = URL.host u2
  /\ URL.port u1 = URL.port u2
  /\ URL.path u1 = URL.path u2.

(** C8. Fingerprint determinism: two URLs that differ only in query
    string, fragment or parameters have the same [doc_id] once cleaned,
    and equal canonical URLs always have equal [doc_id]s. *)
Theorem create_id_for_url_deterministic (u1 u2 : URL.t) :
  same_but_query_fragment u1 u2 ->
  clean_url u1 = clean_url u2
  /\ create_id_for_url (clean_url u1) = create_id_for_url (clean_url u2)
  /\ (forall v1 v2 : URL.t,
        v1 = v2 -> create_id_for_url v1 = create_id_for_url v2).
Proof.
  intros (Hs & Hu & Hh & Hp & Hpa).
  assert (E : clean_url u1 = clean_url u2).
  { unfold clean_url, URL.copy_with_no_query_fragment.
    rewrite Hs, Hu, Hh, Hp, Hpa. reflexivity. }
  split; [exact E|]. split.
  - rewrite E. reflexivity.
  - intros v1 v2 ->. reflexivity.
Qed.

(* ================================================================== *)
(** * The frontier store *)
(* ================================================================== *)

(** C2, as the code has it. [update_doc] on a [doc_id] that is not in the
    frame raises nothing and leaves every row in place, but it does not
    leave the frame alone: pandas enlarges the frame by one row under
    that [doc_id], holding the given fields and the refreshed [updated]
    and missing every other cell. *)
Theorem update_doc_absent_enlarges (doc_id : string) (kws : list Keyword)
    (self : Crawler) :
  loc (frontier self) doc_id = None ->
  update_doc doc_id kws self =
  (tt, {| frontier :=
            frontier self ++
            [(doc_id,
              set_cells Row.nan
                (kws ++ [kw_updated (Some (Timestamp_now (clock self)))]))];
          html_dir := html_dir self;
          csv := csv self;
          clock := S (clock self) |}).
Proof.
  intros H. unfold update_doc, bind, tick, get_frontier, set_frontier. simpl.
  unfold loc_set_cells. rewrite H. reflexivity.
Qed.

(** C3. Monotonic priority and depth: along any sequence of
    [add_to_frontier] calls a stored row keeps its status, its depth never
    increases and its priority never decreases.  A single call changes
    the entry of its URL only when that entry is pending and the proposal
    is strictly better, and then the depth becomes the minimum and the
    priority the maximum of old and new. *)
Theorem add_to_frontier_monotonic (calls : list Proposal) (self : Crawler)
    (d : string) (r : Row.t) :
  loc (frontier self) d = Some r ->
  (exists r', loc (frontier (exec (add_all calls) self)) d = Some r'
              /\ never_worse r r')
  /\ (forall url priority depth root,
        create_id_for_url url = d ->
        let self' := exec (add_to_frontier url priority depth root) self in
        (Row.status r = Some pending /\ strictly_better r priority depth ->
         exists r', loc (frontier self') d = Some r'
           /\ Row.status r' = Some pending
           /\ Row.depth r' = option_map (fun d0 => Z.min d0 depth) (Row.depth r)
           /\ Row.priority r'
              = option_map (fun p0 => Z.max p0 (Priority_value priority))
                           (Row.priority r))
        /\ (~ (Row.status r = Some pending /\ strictly_better r priority depth)
            -> self' = self)).
Proof.
  intros H. split; [exact (add_all_never_worse calls self d r H)|].
  intros url priority depth root Hid self'. split.
  - intros Hb. apply improves_spec in Hb.
    exists (improved r priority depth (Timestamp_now (clock self))).
    unfold self'. rewrite loc_add_to_frontier, Hid, String.eqb_refl, H, Hb.
    destruct (improved_cells r priority depth (Timestamp_now (clock self)))
      as (S & D & P & _).
    rewrite S, D, P, py_min_Z, py_max_Z.
    apply improves_spec in Hb. destruct Hb as [Hs _]. auto.
  - intros Hn. rewrite <- improves_spec in Hn.
    unfold self', add_to_frontier. rewrite exec_bind.
    change (eval get_frontier self) with (frontier self).
    change (exec get_frontier self) with self.
    rewrite Hid, H. fold (improves r priority depth).
    destruct (improves r priority depth); [congruence | reflexivity].
Qed.

Lemma add_to_frontier_same_status url priority depth root :
  relates (keeps same_status) (add_to_frontier url priority depth root).
Proof.
  apply keeps_add_to_frontier; unfold same_status.
  - reflexivity.
  - intros. apply improved_cells.
Qed.

(** C1, as the code has it. [add_to_frontier] never changes the status of
    a row, and [update_doc] leaves it alone unless it is handed a status.
    The run loop hands one only for the requests of the batch at hand,
    whose rows were pending when they were scheduled: along a run the
    status of a row stays as it is or moves from pending to completed or
    to failed, and a row that is completed or failed keeps its status. *)
Theorem terminal_status_stable (self : Crawler) (d : string) (r : Row.t) :
  loc (frontier self) d = Some r ->
  (forall url priority depth root,
      exists r',
        loc (frontier (exec (add_to_frontier url priority depth root) self)) d
        = Some r' /\ Row.status r' = Row.status r)
  /\ (forall doc_id kws,
        forallb (fun kw => negb (sets_status kw)) kws = true ->
        exists r',
          loc (frontier (exec (update_doc doc_id kws) self)) d = Some r'
          /\ Row.status r' = Row.status r)
  /\ (unique_index (frontier self) ->
      forall round round' self',
        run_steps round self round' self' ->
        exists r',
          loc (frontier self') d = Some r'
          /\ status_step (Row.status r) (Row.status r')
          /\ (Row.status r <> Some pending -> Row.status r' = Row.status r)).
Proof.
  intros H. split; [|split].
  - intros. exact (add_to_frontier_same_status url priority depth root self d r H).
  - intros doc_id kws Hk.
    apply (keeps_update_doc same_status doc_id kws); unfold same_status.
    + reflexivity.
    + intros r0 now. apply set_cells_status. rewrite forallb_app, Hk.
      reflexivity.
    + exact H.
  - intros Hu round round' self' Hrun.
    destruct (run_steps_status_step _ _ _ _ Hrun Hu d r H) as (r' & H' & S').
    exists r'. split; [exact H'|]. split; [exact S'|].
    intros Hn. destruct S' as [E | [E _]]; [exact E | contradiction].
Qed.

(* ================================================================== *)
(** * The scheduler *)
(* ================================================================== *)

(** C10. Taking the next batch is a pure read: [fetch_next_doc_batch]
    returns the crawler, and with it the frame, exactly as it found it. *)
Theorem fetch_next_doc_batch_pure (self : Crawler) :
  exec fetch_next_doc_batch self = self
  /\ frontier (exec fetch_next_doc_batch self) = frontier self.
Proof. split; reflexivity. Qed.

(* ================================================================== *)
(** * The order of the specification *)
(* ================================================================== *)

(** The order the scheduler is specified to use, written from its three
    keys and not from the comparator of [sort_values]: on one column a
    cell comes before another when both hold a value and the values are
    in the wanted order, or when it holds a value and the other is
    missing (a missing cell comes last whatever the direction); two
    cells tie when they hold equal values or are both missing. *)
Definition cell_lt {A} (lt : A -> A -> Prop) (a b : option A) : Prop :=
  match a, b with
  | Some x, Some y => lt x y
  | Some _, None => True
  | None, _ => False
  end.

Definition cell_tie {A} (same : A -> A -> Prop) (a b : option A) : Prop :=
  match a, b with
  | Some x, Some y => same x y
  | None, None => True
  | _, _ => False
  end.

(** Priority descending, then depth ascending, then random sort key
    ascending: [x] is no later than [y]. *)
Definition priority_depth_key (x y : string * Row.t) : Prop :=
  cell_lt (fun p q => p > q) (Row.priority (snd x)) (Row.priority (snd y))
  \/ (cell_tie eq (Row.priority (snd x)) (Row.priority (snd y))
      /\ (cell_lt Z.lt (Row.depth (snd x)) (Row.depth (snd y))
          \/ (cell_tie eq (Row.depth (snd x)) (Row.depth (snd y))
              /\ (cell_lt Qlt (Row.random_sort_key (snd x))
                               (Row.random_sort_key (snd y))
                  \/ cell_tie Qeq (Row.random_sort_key (snd x))
                                  (Row.random_sort_key (snd y)))))).

Lemma cell_compare_Lt {A} (cmp : A -> A -> comparison) (lt : A -> A -> Prop) :
  (forall a b, cmp a b = Lt <-> lt a b) ->
  forall x y, cell_compare cmp x y = Lt <-> cell_lt lt x y.
Proof. forget_world.
  intros H [a|] [b|]; simpl; [apply H | | |]; split; intros E;
    try reflexivity; try discriminate; try exact I; destruct E.
Qed.

Lemma cell_compare_Eq {A} (cmp : A -> A -> comparison) (same : A -> A -> Prop) :
  (forall a b, cmp a b = Eq <-> same a b) ->
  forall x y, cell_compare cmp x y = Eq <-> cell_tie same x y.
Proof. forget_world.
  intros H [a|] [b|]; simpl; [apply H | | |]; split; intros E;
    try reflexivity; try discriminate; try exact I; destruct E.
Qed.

Lemma then_by_not_Gt c1 c2 :
  then_by c1 c2 <> Gt <-> c1 = Lt \/ (c1 = Eq /\ c2 <> Gt).
Proof. forget_world.
  destruct c1; simpl; split; intros H.
  - right. split; [reflexivity | exact H].
  - destruct H as [H | [_ H]]; [discriminate | exact H].
  - left. reflexivity.
  - discriminate.
  - congruence.
  - destruct H as [H | [H _]]; discriminate.
Qed.

Lemma not_Gt c : c <> Gt <-> c = Lt \/ c = Eq.
Proof. forget_world.
  destruct c; split; intros H; try congruence; auto;
    destruct H; discriminate.
Qed.

(** The comparator of [sort_values] realises the order of the
    specification. *)
Lemma ordered_priority_depth_key x y : ordered x y <-> priority_depth_key x y.
Proof. forget_world.
  unfold ordered, sorts_before, priority_depth_key.
  assert (Hgt : sort_key_compare (snd x) (snd y) <> Gt <->
                match sort_key_compare (snd x) (snd y) with
                | Gt => false | _ => true end = true)
    by (destruct (sort_key_compare (snd x) (snd y)); split; congruence).
  rewrite <- Hgt. unfold sort_key_compare.
  rewrite !then_by_not_Gt, not_Gt.
  rewrite (cell_compare_Lt (descending Z.compare) (fun p q => p > q)),
          (cell_compare_Eq (descending Z.compare) eq),
          (cell_compare_Lt Z.compare Z.lt),
          (cell_compare_Eq Z.compare eq),
          (cell_compare_Lt Qcompare Qlt),
          (cell_compare_Eq Qcompare Qeq).
  - reflexivity.
  - intros a b. symmetry. apply Qeq_alt.
  - intros a b. symmetry. apply Qlt_alt.
  - intros a b. apply Z.compare_eq_iff.
  - intros a b. apply Z.compare_lt_iff.
  - intros a b. unfold descending. rewrite Z.compare_eq_iff.
    split; congruence.
  - intros a b. unfold descending. rewrite Z.compare_lt_iff. lia.
Qed.

Lemma StronglySorted_ordered rows :
  StronglySorted ordered rows -> StronglySorted priority_depth_key rows.
Proof. forget_world.
  induction 1 as [|x rows _ IH Hall]; constructor; [exact IH|].
  revert Hall. apply Forall_impl. intros y. apply ordered_priority_depth_key.
Qed.

Lemma filter_split {A} (f : A -> bool) (l : list A) :
  Permutation l (filter f l ++ filter (fun x => negb (f x)) l).
Proof. forget_world.
  induction l as [|a l IH]; simpl; [constructor|].
  destruct (f a); simpl.
  - constructor. exact IH.
  - apply Permutation_cons_app. exact IH.
Qed.

(** The eligible rows and the others make up the frame. *)
Lemma query_pending_split fr :
  exists others,
    Permutation fr (query_pending fr ++ others)
    /\ Forall eligible (query_pending fr)
    /\ Forall (fun x => ~ eligible x) others.
Proof.
  exists (filter (fun x => negb (is_pending (snd x)
                                 && Py.lt (Row.depth (snd x)) (max_depth config)))
                 fr).
  split; [apply filter_split|]. split; apply Forall_forall; intros x Hx.
  - apply query_pending_In in Hx. tauto.
  - apply filter_In in Hx. destruct Hx as [Hin Hf]. intros Hel.
    assert (Hq : In x (query_pending fr)) by (apply query_pending_In; auto).
    apply filter_In in Hq. destruct Hq as [_ Hq].
    rewrite Hq in Hf. discriminate.
Qed.

Lemma head_prefix n fr :
  exists rest,
    fr = (head n fr ++ rest)%list
    /\ (rest = [] \/ List.length (head n fr) = n).
Proof. forget_world.
  unfold head. exists (skipn n fr). split.
  - symmetry. apply firstn_skipn.
  - destruct (Nat.le_gt_cases n (List.length fr)) as [Hle | Hgt].
    + right. apply firstn_length_le. exact Hle.
    + left. apply skipn_all2. lia.
Qed.

(** C4. The scheduler's postcondition.  On every frame
    [fetch_next_doc_batch] builds its requests, row by row, from rows of
    the frame that are pending and of depth below [max_depth]; no two of
    these rows share a main domain; there are at most [batch_size] of
    them, and they are in the order (priority descending, depth
    ascending, random sort key ascending).  They are what is left of the
    eligible rows of the frame, all of them and no other row, put in
    that order, after keeping for each main domain the row that comes
    first and cutting the list after [batch_size] rows, and only then.
    When the pending rows carry a url, as all rows the crawler inserts
    do, the requests are built and returned: one per row, at most
    [batch_size]. *)
Theorem fetch_next_doc_batch_postcondition (self : Crawler) :
  exists rows,
    fetch_next_doc_batch self = (requests_of_rows rows, self)
    /\ Forall (fun x => In x (frontier self) /\ eligible x) rows
    /\ NoDup (map main_domain_of rows)
    /\ (List.length rows <= batch_size config)%nat
    /\ StronglySorted priority_depth_key rows
    /\ (exists sorted others,
          Permutation (frontier self) (sorted ++ others)
          /\ Forall eligible sorted
          /\ Forall (fun x => ~ eligible x) others
          /\ StronglySorted priority_depth_key sorted
          /\ (forall x, In x sorted ->
                exists y, In y (drop_duplicates sorted)
                          /\ main_domain_of y = main_domain_of x
                          /\ priority_depth_key y x)
          /\ rows = head (batch_size config) (drop_duplicates sorted)
          /\ exists cut,
               drop_duplicates sorted = (rows ++ cut)%list
               /\ (cut = [] \/ List.length rows = batch_size config))
    /\ (pending_rows_have_url (frontier self) ->
        exists batch,
          fetch_next_doc_batch self = (Returned batch, self)
          /\ Forall2 request_from rows batch
          /\ (List.length batch <= batch_size config)%nat).
Proof.
  exists (pending_docs (frontier self)).
  assert (Hlen : (List.length (pending_docs (frontier self))
                  <= batch_size config)%nat) by apply firstn_le_length.
  pose proof (sort_values_sorted (query_pending (frontier self))) as Hsorted.
  split; [reflexivity|].
  split; [|split; [|split; [exact Hlen|split; [|split]]]].
  - apply Forall_forall. intros x Hx. apply pending_docs_In. exact Hx.
  - apply head_NoDup, drop_duplicates_from_NoDup.
  - apply StronglySorted_ordered, head_sorted, drop_duplicates_from_sorted.
    exact Hsorted.
  - destruct (query_pending_split (frontier self)) as (others & Hp & He & Hn).
    exists (sort_values (query_pending (frontier self))), others.
    split; [|split; [|split; [exact Hn|split; [|split; [|split]]]]].
    + apply (Permutation_trans Hp).
      apply Permutation_app_tail, sort_values_perm.
    + rewrite Forall_forall in *. intros x Hx. apply He.
      apply (Permutation_in _ (Permutation_sym (sort_values_perm _))).
      exact Hx.
    + apply StronglySorted_ordered. exact Hsorted.
    + intros x Hx.
      destruct (drop_duplicates_from_first [] _ x Hsorted Hx)
        as [[] | (y & Hy & Hm & Ho)].
      exists y. split; [exact Hy|]. split; [exact Hm|].
      apply ordered_priority_depth_key. exact Ho.
    + reflexivity.
    + apply head_prefix.
  - intros Hurl.
    destruct (fetch_next_doc_batch_returns self Hurl) as (batch & Hb).
    pose proof (batch_rows self batch Hb) as Hrows.
    exists batch. split; [|split; [exact Hrows|]].
    + unfold eval in Hb.
      unfold fetch_next_doc_batch, bind, get_frontier, ret in *.
      simpl in *. rewrite Hb. reflexivity.
    + rewrite <- (Forall2_length Hrows). exact Hlen.
Qed.

(* ================================================================== *)
(** * Processing a fetched page *)
(* ================================================================== *)

(** C5. Dead-end pruning: a fetched HTML page of admissible size whose
    text has no match for the Tübingen pattern discovers no link, the
    frame gets no new entry, the row of the request becomes completed
    and every other row stays as it was. *)
Theorem dead_end_pruning (req : ScrapingRequest.t) (response : Response.t)
    (self : Crawler) (r : Row.t) :
  loc (frontier self) (ScrapingRequest.doc_id req) = Some r ->
  is_html response = true ->
  html_too_large (Response.content response) = false ->
  TUBINGEN_PATTERN
    (HtmlElement.text_content (parse_html (Response.content response))) = false ->
  let self' := exec (process_response (req, Some response)) self in
  (forall s, add_new_links_to_frontier req response s = (tt, s))
  /\ index (frontier self') = index (frontier self)
  /\ (exists r', loc (frontier self') (ScrapingRequest.doc_id req) = Some r'
                 /\ Row.status r' = Some completed)
  /\ (forall d, d <> ScrapingRequest.doc_id req ->
                loc (frontier self') d = loc (frontier self) d).
Proof.
  intros H Hhtml Hsize Hno self'.
  assert (Hlinks : forall s, add_new_links_to_frontier req response s = (tt, s)).
  { intros s. unfold add_new_links_to_frontier. rewrite Hno. reflexivity. }
  split; [exact Hlinks|].
  assert (E : self' =
              exec (update_doc (ScrapingRequest.doc_id req)
                      [kw_status (Some completed);
                       kw_url (Some (Response.url response));
                       kw_domain (Some (URL.host (Response.url response)))])
                   (exec (save_response (ScrapingRequest.doc_id req)
                            (Response.content response)) self)).
  { unfold self', process_response. rewrite Hhtml, Hsize. simpl.
    rewrite !exec_bind. unfold exec at 2. rewrite Hlinks. reflexivity. }
  rewrite E. split; [|split].
  - rewrite index_update_doc. simpl. rewrite H. reflexivity.
  - rewrite loc_update_doc, String.eqb_refl. simpl. rewrite H.
    eexists. split; [reflexivity|]. destruct r; reflexivity.
  - intros d Hd. rewrite loc_update_doc.
    destruct (String.eqb_spec (ScrapingRequest.doc_id req) d); [congruence|].
    reflexivity.
Qed.

(** An attempt of the fetch fails when the request raises or the
    response has a status outside 2xx. *)
Definition attempt_fails (round : nat) (url : URL.t) (attempt : nat) : Prop :=
  match client_get round url attempt with
  | Some response => Response.is_success response = false
  | None => True
  end.

Lemma retry_exhausted round url attempt remaining :
  (forall k, (attempt <= k < attempt + remaining)%nat -> attempt_fails round url k) ->
  retry round url attempt remaining = Raised RetryError.
Proof.
  revert attempt. induction remaining as [|n IH]; intros attempt H; simpl.
  - reflexivity.
  - assert (Hk : attempt_fails round url attempt) by (apply H; lia).
    unfold attempt_fails in Hk.
    destruct (client_get round url attempt) as [response|].
    + rewrite Hk. apply IH. intros k Hrange. apply H. lia.
    + apply IH. intros k Hrange. apply H. lia.
Qed.

(** C7. Retry exhaustion: when the three attempts for a request of the
    batch all fail, [_get] gives up with [RetryError], [fetch_response]
    turns it into [None], the round leaves the row of the request
    failed, and from then on in the run the row stays failed and no
    batch holds its [doc_id] again. *)
Theorem retry_exhaustion (round : nat) (self : Crawler)
    (batch : list ScrapingRequest.t) (req : ScrapingRequest.t) :
  unique_index (frontier self) ->
  eval fetch_next_doc_batch self = Returned batch ->
  In req batch ->
  (forall attempt, (1 <= attempt <= 3)%nat ->
                   attempt_fails round (ScrapingRequest.url req) attempt) ->
  _get round (ScrapingRequest.url req) = Raised RetryError
  /\ fetch_response round req = None
  /\ forall round' self',
       run_steps (S round) (exec (run_batch round batch) self) round' self' ->
       (exists r', loc (frontier self') (ScrapingRequest.doc_id req) = Some r'
                   /\ Row.status r' = Some failed)
       /\ (forall batch',
             eval fetch_next_doc_batch self' = Returned batch' ->
             ~ In (ScrapingRequest.doc_id req)
                  (map ScrapingRequest.doc_id batch')).
Proof.
  intros Hu Hb Hin Hfail.
  assert (Hget : _get round (ScrapingRequest.url req) = Raised RetryError).
  { apply retry_exhausted. intros k Hk. apply Hfail.
    unfold stop_after_attempt in Hk. lia. }
  assert (Hresp : fetch_response round req = None).
  { unfold fetch_response. rewrite Hget. reflexivity. }
  split; [exact Hget|]. split; [exact Hresp|].
  intros round' self' Hrun.
  set (self1 := exec (run_batch round batch) self) in *.
  destruct (batch_member_pending self batch req Hb Hin) as (r & Hr & Hp).
  apply (In_loc_unique _ _ _ Hu) in Hr.
  destruct (run_batch_status round batch self _ r
              (batch_ids_unique self batch Hu Hb) Hr) as (r1 & H1 & Hv & _).
  specialize (Hv req Hin eq_refl). rewrite Hresp in Hv. simpl in Hv.
  assert (Hu1 : unique_index (frontier self1))
    by (apply unique_run_batch; exact Hu).
  destruct (run_steps_status_step _ _ _ _ Hrun Hu1 _ r1 H1) as (r' & H' & S').
  assert (Hf : Row.status r' = Some failed).
  { rewrite Hv in S'. destruct S' as [E | [E _]]; [exact E | discriminate]. }
  split; [exists r'; auto|].
  intros batch' Hb' Hin'.
  destruct (in_map_doc_id _ _ Hin') as (req' & Hreq' & Hid).
  destruct (batch_member_pending self' batch' req' Hb' Hreq') as (r2 & Hr2 & Hp2).
  rewrite Hid in Hr2.
  apply (In_loc_unique _ _ _ (run_steps_unique _ _ _ _ Hrun Hu1)) in Hr2.
  congruence.
Qed.


(* ================================================================== *)
(** * The language branch of link discovery *)
(* ================================================================== *)

(** The links of a page that survive [extract_url], in document order. *)
Definition discovered (hrefs : list string) (base : URL.t) : list URL.t :=
  flat_map (fun href => match extract_url href base with
                        | Some url => [url]
                        | None => []
                        end) hrefs.

Definition url_en (response : Response.t) : URL.t :=
  URL.copy_with_path "/en" (Response.url response).

(** The [add_to_frontier] calls of the branch for a page that is not in
    English, in the order they are made. *)
Definition language_branch_calls (request : ScrapingRequest.t)
    (response : Response.t) : list Proposal :=
  let depth := ScrapingRequest.depth request + 1 in
  let root := ScrapingRequest.root request in
  (if is_url_valid (url_en response)
   then [(url_en response, high, depth, root)] else [])
  ++ map (fun url => (url, low, depth, root))
         (discovered
            (HtmlElement.xpath_a_href (parse_html (Response.content response)))
            (Response.url response)).

Lemma for_each_links hrefs base priority depth root self :
  exec (for_each hrefs
          (fun href =>
             match extract_url href base with
             | Some url => add_to_frontier url priority depth root
             | None => ret tt
             end)) self
  = exec (add_all (map (fun url => (url, priority, depth, root))
                       (discovered hrefs base))) self.
Proof.
  revert self. induction hrefs as [|href hrefs IH]; intros self; simpl.
  - reflexivity.
  - rewrite exec_bind. destruct (extract_url href base) as [url|]; simpl.
    + unfold add_all. simpl. rewrite exec_bind. apply IH.
    + apply IH.
Qed.

Lemma language_branch_exec request response self :
  TUBINGEN_PATTERN
    (HtmlElement.text_content (parse_html (Response.content response))) = true ->
  is_english (parse_html (Response.content response)) = false ->
  exec (add_new_links_to_frontier request response) self
  = exec (add_all (language_branch_calls request response))
         (exec (update_doc (ScrapingRequest.doc_id request)
                  [kw_features_tubingen (Some true)]) self).
Proof.
  intros Ht He. unfold add_new_links_to_frontier, language_branch_calls.
  rewrite Ht, He. simpl negb. cbv iota.
  rewrite !exec_bind. unfold add_all. rewrite for_each_app.
  fold (url_en response).
  set (self1 := exec (update_doc _ _) self).
  rewrite !eval_bind.
  assert (Hev : forall s : Crawler, eval (ret low) s = low) by reflexivity.
  assert (Hex : forall s : Crawler, exec (ret low) s = s) by reflexivity.
  rewrite Hev, Hex, for_each_links. unfold add_all. f_equal.
  destruct (is_url_valid (url_en response)); simpl.
  - rewrite exec_bind. reflexivity.
  - reflexivity.
Qed.

Definition call_id (c : Proposal) : string :=
  let '(url, _, _, _) := c in create_id_for_url url.

Definition call_depth (c : Proposal) : Z := let '(_, _, depth, _) := c in depth.

Definition call_root (c : Proposal) : option string :=
  let '(_, _, _, root) := c in root.

Definition call_is_high (c : Proposal) : bool :=
  let '(_, priority, _, _) := c in
  match priority with high => true | low => false end.

(** Some call proposes the label [d] at high priority. *)
Definition asks_high (d : string) (calls : list Proposal) : bool :=
  existsb (fun c => String.eqb (call_id c) d && call_is_high c) calls.

(** A pending row at the depth of the calls keeps that depth and ends at
    high priority exactly when it had it or some call asks for it. *)
Lemma add_all_live calls depth self d r p :
  Forall (fun c => call_depth c = depth) calls ->
  loc (frontier self) d = Some r ->
  Row.status r = Some pending ->
  Row.depth r = Some depth ->
  Row.priority r = Some p -> (p = 0 \/ p = 1) ->
  exists r',
    loc (frontier (exec (add_all calls) self)) d = Some r'
    /\ Row.status r' = Some pending
    /\ Row.depth r' = Some depth
    /\ Row.priority r' = Some (if asks_high d calls then 1 else p)
    /\ Row.root r' = Row.root r.
Proof.
  intros Hcalls. revert self r p.
  induction Hcalls as [|[[[url priority] dp] root] calls Hdp _ IH];
    intros self r p H Hs Hd Hp Hp01.
  - exists r. simpl. auto.
  - simpl in Hdp. subst dp. unfold add_all. simpl for_each. rewrite exec_bind.
    simpl propose. fold (add_all calls). unfold asks_high. simpl existsb.
    fold (asks_high d calls).
    set (self1 := exec (add_to_frontier url priority depth root) self).
    assert (H1 : exists r1,
      loc (frontier self1) d = Some r1
      /\ Row.status r1 = Some pending /\ Row.depth r1 = Some depth
      /\ Row.root r1 = Row.root r
      /\ Row.priority r1
         = Some (if String.eqb (create_id_for_url url) d
                    && call_is_high (url, priority, depth, root)
                 then 1 else p)
      /\ ((if String.eqb (create_id_for_url url) d
              && call_is_high (url, priority, depth, root)
           then 1 else p) = 0
          \/ (if String.eqb (create_id_for_url url) d
                 && call_is_high (url, priority, depth, root)
              then 1 else p) = 1)).
    { unfold self1. rewrite loc_add_to_frontier, H.
      destruct (String.eqb (create_id_for_url url) d); simpl.
      - unfold improves, is_pending, Py.gt, Py.lt. rewrite Hs, Hd, Hp.
        rewrite Z.ltb_irrefl. simpl.
        destruct (Z.ltb_spec p (Priority_value priority)) as [Hlt | Hge].
        + eexists. split; [reflexivity|].
          destruct (improved_cells r priority depth (Timestamp_now (clock self)))
            as (S & D & P & _ & Ro & _).
          rewrite S, D, P, Ro, Hd, Hp. simpl. rewrite Z.ltb_irrefl.
          destruct priority; simpl in *.
          * assert (p = 0) by lia. subst p. simpl. auto 10.
          * exfalso. lia.
        + exists r. destruct priority; simpl in *.
          * assert (p = 1) by lia. subst p. auto 10.
          * auto 10.
      - exists r. auto 10. }
    destruct H1 as (r1 & H1 & S1 & D1 & Ro1 & P1 & P01).
    destruct (IH self1 r1 _ H1 S1 D1 P1 P01) as (r' & H' & S' & D' & P' & Ro').
    exists r'. repeat split; try assumption; [|congruence].
    rewrite P'. f_equal. simpl call_is_high.
    destruct (String.eqb (create_id_for_url url) d), priority,
      (asks_high d calls); reflexivity.
Qed.

(** A label that is not in the frame stays out unless some call carries
    it; then its row is pending, at the depth and under the root of the
    calls, and at high priority exactly when some call asks for it. *)
Lemma add_all_fresh calls depth root self d :
  Forall (fun c => call_depth c = depth /\ call_root c = root) calls ->
  loc (frontier self) d = None ->
  match loc (frontier (exec (add_all calls) self)) d with
  | None => forall c, In c calls -> call_id c <> d
  | Some r' =>
      (exists c, In c calls /\ call_id c = d)
      /\ Row.status r' = Some pending
      /\ Row.depth r' = Some depth
      /\ Row.root r' = root
      /\ Row.priority r' = Some (if asks_high d calls then 1 else 0)
  end.
Proof. forget_world.
  intros Hcalls. revert self.
  induction Hcalls as [|[[[url priority] dp] ro] calls [Hdp Hro] Hrest IH];
    intros self H.
  - change (exec (add_all []) self) with self. rewrite H. simpl. tauto.
  - simpl in Hdp, Hro. subst dp ro.
    unfold add_all. simpl for_each. rewrite exec_bind. simpl propose.
    fold (add_all calls).
    set (self1 := exec (add_to_frontier url priority depth root) self).
    assert (H1 := loc_add_to_frontier url priority depth root self d).
    fold self1 in H1. rewrite H in H1.
    unfold asks_high. simpl existsb. fold (asks_high d calls).
    destruct (String.eqb_spec (create_id_for_url url) d) as [E | E].
    + assert (Hd : Forall (fun c => call_depth c = depth) calls).
      { eapply Forall_impl; [|exact Hrest]. simpl. tauto. }
      destruct (add_all_live calls depth self1 d _
                  (Priority_value priority) Hd H1 eq_refl eq_refl eq_refl)
        as (r' & H' & S' & D' & P' & Ro').
      { destruct priority; simpl; auto. }
      rewrite H'. split; [|repeat split; try assumption].
      * exists (url, priority, depth, root). simpl. auto.
      * rewrite P'. destruct priority; simpl; destruct (asks_high d calls);
          reflexivity.
    + specialize (IH self1 H1). simpl andb.
      destruct (loc (frontier (exec (add_all calls) self1)) d) as [r'|].
      * destruct IH as ((c & Hc & Hid) & Hrest').
        split; [|exact Hrest']. exists c. simpl. auto.
      * intros c [<- | Hc]; [exact E | auto].
Qed.


Definition same_features (r r' : Row.t) : Prop :=
  Row.features_tubingen r' = Row.features_tubingen r
  /\ Row.features_english r' = Row.features_english r
  /\ Row.status r' = Row.status r.

Lemma add_all_same_features calls : relates (keeps same_features) (add_all calls).
Proof.
  apply relates_for_each.
  - apply keeps_refl. unfold same_features. auto.
  - apply keeps_trans. unfold same_features. intros a b c (A1 & A2 & A3)
      (B1 & B2 & B3). repeat split; congruence.
  - intros [[[url priority] depth] root] _.
    apply keeps_add_to_frontier; unfold same_features.
    + auto.
    + intros r now _.
      destruct (improved_cells r priority depth now)
        as (S & _ & _ & _ & _ & _ & Ft & Fe).
      auto.
Qed.

Lemma language_branch_calls_In request response c :
  In c (language_branch_calls request response) <->
  (is_url_valid (url_en response) = true
   /\ c = (url_en response, high, ScrapingRequest.depth request + 1,
           ScrapingRequest.root request))
  \/ (exists href url,
        In href (HtmlElement.xpath_a_href
                   (parse_html (Response.content response)))
        /\ extract_url href (Response.url response) = Some url
        /\ c = (url, low, ScrapingRequest.depth request + 1,
                ScrapingRequest.root request)).
Proof.
  unfold language_branch_calls, discovered.
  rewrite in_app_iff, in_map_iff. split.
  - intros [H | (url & <- & H)].
    + left. destruct (is_url_valid (url_en response)); simpl in H;
        [|contradiction].
      destruct H as [<- | []]. auto.
    + right. apply in_flat_map in H. destruct H as (href & Hhref & H).
      exists href, url. destruct (extract_url href (Response.url response));
        simpl in H; [|contradiction].
      destruct H as [-> | []]. auto.
  - intros [(Hv & ->) | (href & url & Hhref & He & ->)].
    + left. rewrite Hv. left. reflexivity.
    + right. exists url. split; [reflexivity|].
      apply in_flat_map. exists href. rewrite He. simpl. auto.
Qed.

Lemma language_branch_calls_uniform request response :
  Forall (fun c => call_depth c = ScrapingRequest.depth request + 1
                   /\ call_root c = ScrapingRequest.root request)
         (language_branch_calls request response).
Proof.
  apply Forall_forall. intros c Hc. apply language_branch_calls_In in Hc.
  destruct Hc as [(_ & ->) | (href & url & _ & _ & ->)]; simpl; auto.
Qed.

Lemma language_branch_asks_high request response d :
  asks_high d (language_branch_calls request response)
  = is_url_valid (url_en response)
    && String.eqb (create_id_for_url (url_en response)) d.
Proof.
  unfold asks_high, language_branch_calls. rewrite existsb_app.
  match goal with |- (_ || ?b)%bool = _ => assert (E : b = false) end.
  { generalize (discovered
                  (HtmlElement.xpath_a_href
                     (parse_html (Response.content response)))
                  (Response.url response)).
    intros urls. induction urls as [|u urls IH]; simpl; [reflexivity|].
    rewrite IH, andb_false_r. reflexivity. }
  rewrite E, orb_false_r.
  destruct (is_url_valid (url_en response)); simpl; [|reflexivity].
  rewrite andb_true_r, orb_false_r. reflexivity.
Qed.

(** C6. The language branch.  For a fetched page that matches the
    Tübingen pattern and declares no English language, link discovery
    sets [features_tubingen] on the row of the request and leaves its
    [features_english] and its status as they were; it proposes to the
    frontier exactly the discovered links, each at priority low, and the
    URL of the page with path [/en] and no query or fragment, at priority
    high, if and only if that URL is valid; a row the proposals add is
    pending, one link deeper than the request, under the request's root,
    and at priority high exactly when it is the row of the valid [/en]
    URL; and every proposed URL has a row afterwards. *)
Theorem language_branch (request : ScrapingRequest.t) (response : Response.t)
    (self : Crawler) (r0 : Row.t) :
  let tree := parse_html (Response.content response) in
  let depth := ScrapingRequest.depth request + 1 in
  let root := ScrapingRequest.root request in
  let self' := exec (add_new_links_to_frontier request response) self in
  loc (frontier self) (ScrapingRequest.doc_id request) = Some r0 ->
  TUBINGEN_PATTERN (HtmlElement.text_content tree) = true ->
  is_english tree = false ->
  (exists r', loc (frontier self') (ScrapingRequest.doc_id request) = Some r'
              /\ Row.features_tubingen r' = Some true
              /\ Row.features_english r' = Row.features_english r0
              /\ Row.status r' = Row.status r0)
  /\ self' = exec (add_all (language_branch_calls request response))
                  (exec (update_doc (ScrapingRequest.doc_id request)
                           [kw_features_tubingen (Some true)]) self)
  /\ (forall c, In c (language_branch_calls request response) <->
        (is_url_valid (url_en response) = true
         /\ c = (url_en response, high, depth, root))
        \/ (exists href url,
              In href (HtmlElement.xpath_a_href tree)
              /\ extract_url href (Response.url response) = Some url
              /\ c = (url, low, depth, root)))
  /\ (URL.scheme (url_en response) = URL.scheme (Response.url response)
      /\ URL.userinfo (url_en response) = URL.userinfo (Response.url response)
      /\ URL.host (url_en response) = URL.host (Response.url response)
      /\ URL.port (url_en response) = URL.port (Response.url response)
      /\ URL.path (url_en response) = "/en"%string
      /\ URL.query (url_en response) = None
      /\ URL.fragment (url_en response) = None)
  /\ (forall d r', loc (frontier self) d = None ->
                   loc (frontier self') d = Some r' ->
        Row.status r' = Some pending
        /\ Row.depth r' = Some depth
        /\ Row.root r' = root
        /\ Row.priority r'
           = Some (if is_url_valid (url_en response)
                      && String.eqb (create_id_for_url (url_en response)) d
                   then Priority_value high else Priority_value low))
  /\ (forall c, In c (language_branch_calls request response) ->
                loc (frontier self') (call_id c) <> None).
Proof.
  intros tree depth root self' H0 Ht He.
  set (self1 := exec (update_doc (ScrapingRequest.doc_id request)
                        [kw_features_tubingen (Some true)]) self).
  assert (E : self' = exec (add_all (language_branch_calls request response)) self1)
    by (apply language_branch_exec; assumption).
  assert (Hloc1 : forall d,
    loc (frontier self1) d =
    if String.eqb (ScrapingRequest.doc_id request) d
    then Some (set_cells r0 [kw_features_tubingen (Some true);
                             kw_updated (Some (Timestamp_now (clock self)))])
    else loc (frontier self) d).
  { intros d. unfold self1. rewrite loc_update_doc.
    destruct (String.eqb_spec (ScrapingRequest.doc_id request) d) as [<-|];
      [rewrite H0|]; reflexivity. }
  assert (Hfresh1 : forall d, loc (frontier self) d = None ->
                              loc (frontier self1) d = None).
  { intros d Hd. rewrite Hloc1.
    destruct (String.eqb_spec (ScrapingRequest.doc_id request) d) as [<-|];
      [congruence | exact Hd]. }
  split; [|split; [exact E|split; [apply language_branch_calls_In|split;
    [|split]]]].
  - specialize (Hloc1 (ScrapingRequest.doc_id request)).
    rewrite String.eqb_refl in Hloc1.
    destruct (add_all_same_features (language_branch_calls request response)
                self1 _ _ Hloc1) as (r' & H' & Ft & Fe & St).
    exists r'. rewrite E. split; [exact H'|].
    rewrite Ft, Fe, St. destruct r0; simpl. auto.
  - unfold url_en, URL.copy_with_path. simpl. repeat split.
  - intros d r' Hd H'. rewrite E in H'.
    pose proof (add_all_fresh _ depth root self1 d
                  (language_branch_calls_uniform request response)
                  (Hfresh1 d Hd)) as Hf.
    rewrite H' in Hf. destruct Hf as (_ & S & D & Ro & P).
    rewrite language_branch_asks_high in P. rewrite P.
    repeat split; assumption.
  - intros c Hc Hnone. rewrite E in Hnone.
    destruct (loc (frontier self1) (call_id c)) as [r1|] eqn:E1.
    + destruct (add_all_same_features (language_branch_calls request response)
                  self1 _ _ E1) as (r' & H' & _).
      congruence.
    + pose proof (add_all_fresh _ depth root self1 (call_id c)
                    (language_branch_calls_uniform request response) E1) as Hf.
      rewrite Hnone in Hf. exact (Hf c Hc eq_refl).
Qed.


(* ================================================================== *)
(** * The invariants of the frame *)
(* ================================================================== *)

Lemma frontier_add_to_frontier url priority depth root self :
  frontier (exec (add_to_frontier url priority depth root) self) =
  match loc (frontier self) (create_id_for_url url) with
  | None =>
      frontier self ++
      [(create_id_for_url url,
        inserted_row url priority depth root
          (Timestamp_now (clock self)) (random_random (S (clock self))))]
  | Some entry =>
      if improves entry priority depth
      then loc_set_cells (frontier self) (create_id_for_url url)
             [kw_depth (Py.min (Row.depth entry) depth);
              kw_priority (Py.max (Row.priority entry) (Priority_value priority));
              kw_updated (Some (Timestamp_now (clock self)))]
      else frontier self
  end.
Proof.
  unfold add_to_frontier. rewrite exec_bind.
  change (eval get_frontier self) with (frontier self).
  change (exec get_frontier self) with self.
  destruct (loc (frontier self) (create_id_for_url url)) as [entry|] eqn:E.
  - fold (improves entry priority depth).
    destruct (improves entry priority depth); reflexivity.
  - cbn. unfold loc_set_row. rewrite E. reflexivity.
Qed.

Lemma In_on_label d0 f fr d r' :
  In (d, r') (on_label d0 f fr) ->
  exists r, In (d, r) fr /\ (r' = r \/ r' = f r).
Proof. forget_world.
  induction fr as [|[k r] fr IH]; simpl; [tauto|].
  intros [Heq | Hin].
  - inversion Heq; subst. exists r. split; [auto|].
    destruct (String.eqb d d0); auto.
  - destruct (IH Hin) as (r1 & H1 & H2). exists r1. auto.
Qed.

(** Keywords that cannot leave a pending row without a url. *)
Definition url_safe (kws : list Keyword) : Prop :=
  forall r, (Row.status r = Some pending -> Row.url r <> None) ->
            Row.status (set_cells r kws) = Some pending ->
            Row.url (set_cells r kws) <> None.

Definition keeps_urls (fr fr' : Frontier) : Prop :=
  pending_rows_have_url fr -> pending_rows_have_url fr'.

Lemma keeps_urls_refl fr : keeps_urls fr fr.
Proof. exact (fun H => H). Qed.

Lemma keeps_urls_trans a b c : keeps_urls a b -> keeps_urls b c -> keeps_urls a c.
Proof. unfold keeps_urls. auto. Qed.

Lemma keeps_urls_loc_set_cells fr d kws :
  url_safe kws -> keeps_urls fr (loc_set_cells fr d kws).
Proof.
  intros Hsafe Hfr k r' Hin Hs. unfold loc_set_cells in Hin.
  destruct (loc fr d).
  - apply In_on_label in Hin. destruct Hin as (r & Hr & [-> | ->]).
    + eapply Hfr; eassumption.
    + apply Hsafe; [|exact Hs]. intros Hp. eapply Hfr; eassumption.
  - apply in_app_or in Hin. destruct Hin as [Hin | [Heq | []]].
    + eapply Hfr; eassumption.
    + inversion Heq; subst. apply Hsafe; [|exact Hs]. discriminate.
Qed.

Lemma url_safe_features kws now :
  features_only kws = true -> url_safe (kws ++ [kw_updated now]).
Proof.
  intros Hk r Hr Hs.
  assert (E : Row.status (set_cells r (kws ++ [kw_updated now])) = Row.status r
              /\ Row.url (set_cells r (kws ++ [kw_updated now])) = Row.url r).
  { clear Hr Hs. unfold set_cells. rewrite fold_left_app. simpl.
    unfold features_only in Hk. revert r.
    induction kws as [|kw kws IH]; simpl in *; intros r.
    - destruct r; simpl; auto.
    - apply andb_true_iff in Hk. destruct Hk as [Hkw Hk].
      destruct (IH Hk (set_cell r kw)) as [-> ->].
      destruct r, kw; simpl in *; try discriminate; auto. }
  destruct E as [Es Eu]. rewrite Es in Hs. rewrite Eu. auto.
Qed.

Lemma url_safe_improvement dp pr now :
  url_safe [kw_depth dp; kw_priority pr; kw_updated now].
Proof. intros r Hr. destruct r; simpl in *. exact Hr. Qed.

Lemma url_safe_failed now : url_safe [kw_status (Some failed); kw_updated now].
Proof. intros r _. destruct r; simpl. discriminate. Qed.

Lemma url_safe_completed u dm now :
  url_safe [kw_status (Some completed); kw_url u; kw_domain dm; kw_updated now].
Proof. intros r _. destruct r; simpl. discriminate. Qed.

Lemma keeps_urls_add_to_frontier url priority depth root :
  relates keeps_urls (add_to_frontier url priority depth root).
Proof.
  intros self. rewrite frontier_add_to_frontier.
  destruct (loc (frontier self) (create_id_for_url url)) as [entry|].
  - destruct (improves entry priority depth); [|apply keeps_urls_refl].
    apply keeps_urls_loc_set_cells, url_safe_improvement.
  - intros Hfr k r' Hin Hs. apply in_app_or in Hin.
    destruct Hin as [Hin | [Heq | []]].
    + eapply Hfr; eassumption.
    + inversion Heq; subst. discriminate.
Qed.

Lemma keeps_urls_run_batch round batch :
  relates keeps_urls (run_batch round batch).
Proof.
  pose proof keeps_urls_refl as Hr. pose proof keeps_urls_trans as Ht.
  assert (Hfeat : forall d kws, features_only kws = true ->
                                relates keeps_urls (update_doc d kws)).
  { intros d kws Hk self. rewrite frontier_update_doc.
    apply keeps_urls_loc_set_cells, url_safe_features. exact Hk. }
  assert (Hfailed : forall d, relates keeps_urls
                                (update_doc d [kw_status (Some failed)])).
  { intros d self. rewrite frontier_update_doc.
    apply keeps_urls_loc_set_cells, url_safe_failed. }
  unfold run_batch. apply relates_bind; [exact Ht | |].
  2: intros _; apply relates_save_frontier; exact Hr.
  apply relates_for_each; [exact Hr | exact Ht |].
  intros [req [response|]] _; simpl; [|apply Hfailed].
  destruct (negb (is_html response) || html_too_large (Response.content response));
    [apply Hfailed|].
  apply relates_bind; [exact Ht | apply relates_save_response; exact Hr |].
  intros _. apply relates_bind; [exact Ht | |].
  - unfold add_new_links_to_frontier.
    destruct (negb (TUBINGEN_PATTERN _)); [apply relates_ret; exact Hr|].
    apply relates_bind; [exact Ht | |].
    + destruct (is_english _).
      * apply relates_bind; [exact Ht | apply Hfeat; reflexivity |].
        intros; apply relates_ret; exact Hr.
      * apply relates_bind; [exact Ht | apply Hfeat; reflexivity |].
        intros _. apply relates_bind; [exact Ht | |].
        -- destruct (is_url_valid _);
             [apply keeps_urls_add_to_frontier | apply relates_ret; exact Hr].
        -- intros; apply relates_ret; exact Hr.
    + intros priority. apply relates_for_each; [exact Hr | exact Ht |].
      intros href _. destruct (extract_url _ _);
        [apply keeps_urls_add_to_frontier | apply relates_ret; exact Hr].
  - intros _ self. rewrite frontier_update_doc.
    apply keeps_urls_loc_set_cells, url_safe_completed.
Qed.

Lemma drop_duplicate_ids_In seen fr x :
  In x (drop_duplicate_ids seen fr) -> In x fr /\ ~ In (fst x) seen.
Proof. forget_world.
  revert seen. induction fr as [|y fr IH]; simpl; intros seen H; [tauto|].
  destruct (existsb (String.eqb (fst y)) seen) eqn:E.
  - destruct (IH _ H). tauto.
  - destruct H as [<- | H].
    + split; [tauto|]. intros Hin.
      assert (existsb (String.eqb (fst y)) seen = true); [|congruence].
      apply existsb_exists. exists (fst y). split; [exact Hin|].
      apply String.eqb_refl.
    + destruct (IH _ H) as [? Hn]. split; [tauto|].
      intros Hin. apply Hn. right. exact Hin.
Qed.

Lemma drop_duplicate_ids_unique seen fr :
  unique_index (drop_duplicate_ids seen fr).
Proof.
  unfold unique_index, index. revert seen.
  induction fr as [|y fr IH]; simpl; intros seen; [constructor|].
  destruct (existsb (String.eqb (fst y)) seen); [apply IH|].
  simpl. constructor; [|apply IH].
  intros Hin. apply in_map_iff in Hin. destruct Hin as (z & Hz & Hin).
  apply drop_duplicate_ids_In in Hin. destruct Hin as [_ Hn].
  apply Hn. left. symmetry. exact Hz.
Qed.

Lemma convert_seed_to_frontier_urls seeds n d r :
  In (d, r) (fst (convert_seed_to_frontier seeds n)) -> Row.url r <> None.
Proof. forget_world.
  revert n. induction seeds as [|u seeds IH]; simpl; intros n H; [tauto|].
  destruct (negb (is_url_valid (clean_url u))); [eauto|].
  destruct (convert_seed_to_frontier seeds (S (S n))) as [rows n'] eqn:E.
  simpl in H. destruct H as [Heq | Hin].
  - inversion Heq; subst. discriminate.
  - apply (IH (S (S n))). rewrite E. exact Hin.
Qed.

(** A crawler started on the seeds has both invariants, and so has every
    crawler a run reaches from one that has them. *)
Lemma new_crawler_frontier self :
  new_crawler = Returned self ->
  frontier self
  = drop_duplicate_ids [] (fst (convert_seed_to_frontier (seed_urls config) 0))
  /\ fst (convert_seed_to_frontier (seed_urls config) 0) <> [].
Proof.
  unfold new_crawler, new_frontier.
  destruct (convert_seed_to_frontier (seed_urls config) 0) as [rows n].
  destruct rows as [|x rows]; [discriminate|].
  intros H. inversion H; subst. simpl. split; [reflexivity | discriminate].
Qed.

Lemma new_crawler_invariants self :
  new_crawler = Returned self ->
  unique_index (frontier self)
  /\ pending_rows_have_url (frontier self).
Proof.
  intros Hnew. destruct (new_crawler_frontier self Hnew) as [-> _].
  split; [apply drop_duplicate_ids_unique|].
  intros d r Hin _. apply drop_duplicate_ids_In in Hin. destruct Hin as [Hin _].
  exact (convert_seed_to_frontier_urls (seed_urls config) 0 d r Hin).
Qed.

Lemma run_steps_invariants round self round' self' :
  run_steps round self round' self' ->
  unique_index (frontier self) /\ pending_rows_have_url (frontier self) ->
  unique_index (frontier self') /\ pending_rows_have_url (frontier self').
Proof.
  induction 1 as [|round self batch round' self' Hb Hne Hsteps IH]; [auto|].
  intros [Hu Hurl]. apply IH. split.
  - apply unique_run_batch. exact Hu.
  - apply keeps_urls_run_batch. exact Hurl.
Qed.


(* ================================================================== *)
(** * More on URLs: main domains and validity *)
(* ================================================================== *)














(* ================================================================== *)
(** * Invariants of the rows along a run *)
(* ================================================================== *)

Definition all_rows (Q : string -> Row.t -> Prop) (fr : Frontier) : Prop :=
  forall d r, In (d, r) fr -> Q d r.

Lemma In_on_label_label d0 f fr d r' :
  In (d, r') (on_label d0 f fr) ->
  exists r, In (d, r) fr /\ (r' = r \/ (d = d0 /\ r' = f r)).
Proof. forget_world.
  induction fr as [|[k r] fr IH]; simpl; [tauto|].
  intros [Heq | Hin].
  - inversion Heq; subst. exists r. split; [auto|].
    destruct (String.eqb_spec d d0); auto.
  - destruct (IH Hin) as (r1 & H1 & H2). exists r1. auto.
Qed.

Lemma all_rows_loc_set_cells (Q : string -> Row.t -> Prop) fr d kws :
  Q d Row.nan ->
  (forall r, Q d r -> Q d (set_cells r kws)) ->
  all_rows Q fr -> all_rows Q (loc_set_cells fr d kws).
Proof. forget_world.
  intros Hnan Hset Hfr k r' Hin. unfold loc_set_cells in Hin.
  destruct (loc fr d).
  - apply In_on_label_label in Hin.
    destruct Hin as (r & Hr & [-> | [-> ->]]); auto.
  - apply in_app_or in Hin. destruct Hin as [Hin | [Heq | []]]; [auto|].
    inversion Heq; subst. auto.
Qed.

Lemma extract_url_Some href base url :
  extract_url href base = Some url ->
  is_url_valid url = true /\ clean_url url = url.
Proof.
  unfold extract_url. destruct (URL_parse href) as [parsed|]; [|discriminate].
  destruct (is_url_valid _) eqn:Hv; [|discriminate].
  intros [= <-]. split; [exact Hv | reflexivity].
Qed.

(** A property [Q] of the labelled rows that the writes of the crawler
    keep, given that the proposals made are [admissible]. *)
Section RowInvariant.

Variable Q : string -> Row.t -> Prop.
Variable admissible : URL.t -> Z -> Prop.

Hypothesis Q_nan : forall d, Q d Row.nan.
Hypothesis Q_features : forall d r kws now,
  features_only kws = true -> Q d r ->
  Q d (set_cells r (kws ++ [kw_updated now])).
Hypothesis Q_improved : forall url entry r priority depth now,
  admissible url depth ->
  Q (create_id_for_url url) entry -> Q (create_id_for_url url) r ->
  Q (create_id_for_url url)
    (set_cells r
       [kw_depth (Py.min (Row.depth entry) depth);
        kw_priority (Py.max (Row.priority entry) (Priority_value priority));
        kw_updated now]).
Hypothesis Q_failed : forall d r now,
  Q d r -> Q d (set_cells r [kw_status (Some failed); kw_updated now]).
Hypothesis Q_completed : forall d r u h now,
  Q d r ->
  Q d (set_cells r [kw_status (Some completed); kw_url u; kw_domain h;
                    kw_updated now]).
Hypothesis Q_inserted : forall url priority depth root now key,
  admissible url depth ->
  Q (create_id_for_url url) (inserted_row url priority depth root now key).
Hypothesis Q_admits : forall d r depth url,
  Q d r -> Row.depth r = Some depth -> depth < max_depth config ->
  is_url_valid url = true -> clean_url url = url ->
  admissible url (depth + 1).

Definition holds_after (fr fr' : Frontier) : Prop :=
  all_rows Q fr -> all_rows Q fr'.

Lemma holds_after_refl fr : holds_after fr fr.
Proof using Type. exact (fun H => H). Qed.

Lemma holds_after_trans a b c :
  holds_after a b -> holds_after b c -> holds_after a c.
Proof using Type. unfold holds_after. auto. Qed.

Lemma inv_add_to_frontier url priority depth root :
  admissible url depth ->
  relates holds_after (add_to_frontier url priority depth root).
Proof using Q_nan Q_improved Q_inserted.
  intros Hok self Hfr. rewrite frontier_add_to_frontier.
  destruct (loc (frontier self) (create_id_for_url url)) as [entry|] eqn:E.
  - destruct (improves entry priority depth); [|exact Hfr].
    apply all_rows_loc_set_cells; [apply Q_nan | | exact Hfr].
    intros r Hr. apply Q_improved; [exact Hok | | exact Hr].
    apply Hfr. apply loc_Some_In. exact E.
  - intros k r' Hin. apply in_app_or in Hin.
    destruct Hin as [Hin | [Heq | []]]; [auto|].
    inversion Heq; subst. apply Q_inserted. exact Hok.
Qed.

Lemma inv_update_features d kws :
  features_only kws = true -> relates holds_after (update_doc d kws).
Proof using Q_nan Q_features.
  intros Hk self Hfr. rewrite frontier_update_doc.
  apply all_rows_loc_set_cells; [apply Q_nan | | exact Hfr].
  intros r Hr. apply Q_features; assumption.
Qed.

Lemma inv_add_new_links_to_frontier request response :
  (forall url, is_url_valid url = true -> clean_url url = url ->
               admissible url (ScrapingRequest.depth request + 1)) ->
  relates holds_after (add_new_links_to_frontier request response).
Proof using Q_nan Q_features Q_improved Q_inserted.
  intros Hok.
  pose proof holds_after_refl as Hr. pose proof holds_after_trans as Ht.
  unfold add_new_links_to_frontier.
  destruct (negb (TUBINGEN_PATTERN _)); [apply relates_ret; exact Hr|].
  apply relates_bind; [exact Ht | |].
  - destruct (is_english _).
    + apply relates_bind; [exact Ht | apply inv_update_features; reflexivity |].
      intros; apply relates_ret; exact Hr.
    + apply relates_bind; [exact Ht | apply inv_update_features; reflexivity |].
      intros _. apply relates_bind; [exact Ht | |].
      * destruct (is_url_valid _) eqn:Hv; [|apply relates_ret; exact Hr].
        apply inv_add_to_frontier. apply Hok; [exact Hv | reflexivity].
      * intros; apply relates_ret; exact Hr.
  - intros priority. apply relates_for_each; [exact Hr | exact Ht |].
    intros href _. destruct (extract_url _ _) as [url|] eqn:He;
      [|apply relates_ret; exact Hr].
    apply extract_url_Some in He. destruct He as [Hv Hc].
    apply inv_add_to_frontier. apply Hok; assumption.
Qed.

Lemma inv_process_response req outcome :
  (forall url, is_url_valid url = true -> clean_url url = url ->
               admissible url (ScrapingRequest.depth req + 1)) ->
  relates holds_after (process_response (req, outcome)).
Proof using Q_nan Q_features Q_improved Q_inserted Q_failed Q_completed.
  intros Hok.
  pose proof holds_after_refl as Hr. pose proof holds_after_trans as Ht.
  assert (Hfailed : relates holds_after
                      (update_doc (ScrapingRequest.doc_id req)
                         [kw_status (Some failed)])).
  { intros self Hfr. rewrite frontier_update_doc.
    apply all_rows_loc_set_cells; [apply Q_nan | | exact Hfr].
    intros r Hq. apply Q_failed. exact Hq. }
  destruct outcome as [response|]; simpl; [|exact Hfailed].
  destruct (negb (is_html response) || html_too_large (Response.content response));
    [exact Hfailed|].
  apply relates_bind; [exact Ht | apply relates_save_response; exact Hr |].
  intros _. apply relates_bind; [exact Ht | |].
  - apply inv_add_new_links_to_frontier. exact Hok.
  - intros _ self Hfr. rewrite frontier_update_doc.
    apply all_rows_loc_set_cells; [apply Q_nan | | exact Hfr].
    intros r Hq. apply Q_completed. exact Hq.
Qed.

Lemma inv_run_batch round batch :
  (forall req url, In req batch ->
     is_url_valid url = true -> clean_url url = url ->
     admissible url (ScrapingRequest.depth req + 1)) ->
  relates holds_after (run_batch round batch).
Proof using Q_nan Q_features Q_improved Q_inserted Q_failed Q_completed.
  intros Hok.
  pose proof holds_after_refl as Hr. pose proof holds_after_trans as Ht.
  unfold run_batch. apply relates_bind; [exact Ht | |].
  2: intros _; apply relates_save_frontier; exact Hr.
  apply relates_for_each; [exact Hr | exact Ht |].
  intros [req outcome] Hin. apply inv_process_response.
  intros url Hv Hc. apply (Hok req url); [|exact Hv | exact Hc].
  apply in_combine_l in Hin. exact Hin.
Qed.

Lemma inv_scheduled_round round self batch :
  eval fetch_next_doc_batch self = Returned batch ->
  all_rows Q (frontier self) ->
  all_rows Q (frontier (exec (run_batch round batch) self)).
Proof using Q_nan Q_features Q_improved Q_inserted Q_failed Q_completed
  Q_admits.
  intros Hb Hfr. apply inv_run_batch; [|exact Hfr].
  intros req url Hin Hv Hc.
  destruct (Forall2_In_r _ _ _ _ (batch_rows self batch Hb) Hin)
    as ([d r] & Hx & _ & _ & Hd & _).
  apply pending_docs_In in Hx. destruct Hx as [Hx [_ (dp & Hdp & Hlt)]].
  simpl in *. rewrite Hd in Hdp. inversion Hdp; subst dp.
  apply (Q_admits d r); auto.
Qed.

Lemma inv_run_steps round self round' self' :
  run_steps round self round' self' ->
  all_rows Q (frontier self) -> all_rows Q (frontier self').
Proof using Q_nan Q_features Q_improved Q_inserted Q_failed Q_completed
  Q_admits.
  induction 1 as [|round self batch round' self' Hb Hne Hsteps IH]; [auto|].
  intros Hfr. apply IH. apply inv_scheduled_round; assumption.
Qed.

End RowInvariant.


Lemma features_only_cells r kws now :
  features_only kws = true ->
  let r' := set_cells r (kws ++ [kw_updated now]) in
  Row.url r' = Row.url r /\ Row.domain r' = Row.domain r
  /\ Row.main_domain r' = Row.main_domain r /\ Row.depth r' = Row.depth r
  /\ Row.priority r' = Row.priority r /\ Row.status r' = Row.status r
  /\ Row.created r' = Row.created r /\ Row.root r' = Row.root r
  /\ Row.random_sort_key r' = Row.random_sort_key r
  /\ Row.updated r' = now.
Proof. forget_world.
  intros Hk. unfold set_cells. rewrite fold_left_app. simpl.
  unfold features_only in Hk. revert r.
  induction kws as [|kw kws IH]; simpl in *; intros r.
  - destruct r; simpl. repeat split.
  - apply andb_true_iff in Hk. destruct Hk as [Hkw Hk].
    specialize (IH Hk (set_cell r kw)).
    destruct IH as (H1 & H2 & H3 & H4 & H5 & H6 & H7 & H8 & H9 & H10).
    rewrite H1, H2, H3, H4, H5, H6, H7, H8, H9, H10.
    destruct r, kw; simpl in *; try discriminate; repeat split.
Qed.

(** ** Depth and priority stay within bounds *)

Definition within_bounds (d : string) (r : Row.t) : Prop :=
  match Row.depth r with
  | Some depth => 0 <= depth <= max_depth config
  | None => True
  end
  /\ match Row.priority r with
     | Some p => p = Priority_value low \/ p = Priority_value high
     | None => True
     end.

Definition depth_admissible (url : URL.t) (depth : Z) : Prop :=
  0 <= depth <= max_depth config.

(** X4. Depth and priority stay within bounds.  If every depth in the
    frame lies between 0 and [max_depth] and every priority is that of
    [low] or [high], the same holds in every state the run loop reaches:
    a row is inserted one link below a scheduled request, whose depth is
    below [max_depth], and an improvement takes a minimum of depths and a
    maximum of priorities. *)
Theorem run_steps_within_bounds round self round' self' :
  run_steps round self round' self' ->
  all_rows within_bounds (frontier self) ->
  all_rows within_bounds (frontier self').
Proof.
  apply (inv_run_steps within_bounds depth_admissible);
    unfold within_bounds, depth_admissible.
  - intros d. simpl. auto.
  - intros d r kws now Hk.
    destruct (features_only_cells r kws now Hk)
      as (_ & _ & _ & -> & -> & _). auto.
  - intros url entry r priority depth now Hdepth [He Hp] _.
    destruct r; simpl. split.
    + destruct (Row.depth entry) as [x|]; simpl; [|exact I].
      destruct (Z.ltb_spec depth x); lia.
    + destruct (Row.priority entry) as [p|]; simpl; [|exact I].
      destruct (Z.ltb_spec p (Priority_value priority)); [|exact Hp].
      destruct priority; simpl; auto.
  - intros d r now. destruct r; simpl. auto.
  - intros d r u h now. destruct r; simpl. auto.
  - intros url priority depth root now key Hdepth. simpl.
    split; [exact Hdepth | destruct priority; simpl; auto].
  - intros d r depth url [Hd _] E Hlt _ _. rewrite E in Hd. lia.
Qed.

(** ** Pending rows are labelled by the fingerprint of their url *)

Definition fingerprinted (d : string) (r : Row.t) : Prop :=
  Row.status r = Some pending ->
  exists url,
    Row.url r = Some url
    /\ d = create_id_for_url url
    /\ Row.domain r = Some (URL.host url)
    /\ Row.main_domain r = Some (get_main_domain url)
    /\ is_url_valid url = true
    /\ clean_url url = url.

Definition url_admissible (url : URL.t) (depth : Z) : Prop :=
  is_url_valid url = true /\ clean_url url = url.

Lemma run_steps_fingerprinted_aux round self round' self' :
  run_steps round self round' self' ->
  all_rows fingerprinted (frontier self) ->
  all_rows fingerprinted (frontier self').
Proof.
  apply (inv_run_steps fingerprinted url_admissible);
    unfold fingerprinted, url_admissible.
  - intros d. simpl. discriminate.
  - intros d r kws now Hk.
    destruct (features_only_cells r kws now Hk)
      as (-> & -> & -> & _ & _ & -> & _). auto.
  - intros url entry r priority depth now _ _ Hr.
    destruct r; simpl in *. exact Hr.
  - intros d r now _. destruct r; simpl. discriminate.
  - intros d r u h now _. destruct r; simpl. discriminate.
  - intros url priority depth root now key [Hv Hc] _. simpl.
    exists url. auto 10.
  - intros d r depth url _ _ _ Hv Hc. auto.
Qed.


(** ** The rows of a new frontier *)






Lemma NoDup_map_Some {A} (l : list A) :
  NoDup (map (@Some A) l) -> NoDup l.
Proof. forget_world.
  induction l as [|x l IH]; simpl; intros H; [constructor|].
  inversion H as [|? ? Hx Hl]; subst. constructor; [|auto].
  intros Hin. apply Hx. apply in_map. exact Hin.
Qed.

(** X6. In a frame whose pending rows are labelled by the fingerprints of
    their urls, [fetch_next_doc_batch] returns a batch; the [doc_id] of
    each request is the fingerprint of the request's url, that url is
    valid and clean, and no two requests of the batch have urls of the
    same main domain. *)
Theorem scheduled_requests_fingerprinted (self : Crawler) :
  all_rows fingerprinted (frontier self) ->
  exists batch,
    eval fetch_next_doc_batch self = Returned batch
    /\ Forall (fun req =>
                 ScrapingRequest.doc_id req
                 = create_id_for_url (ScrapingRequest.url req)
                 /\ is_url_valid (ScrapingRequest.url req) = true
                 /\ clean_url (ScrapingRequest.url req)
                    = ScrapingRequest.url req) batch
    /\ NoDup (map (fun req => get_main_domain (ScrapingRequest.url req)) batch).
Proof.
  intros Hfp.
  assert (Hurl : pending_rows_have_url (frontier self)).
  { intros d r Hin Hs. destruct (Hfp d r Hin Hs) as (u & -> & _). discriminate. }
  destruct (fetch_next_doc_batch_returns self Hurl) as (batch & Hb).
  pose proof (batch_rows self batch Hb) as Hrows.
  assert (Hreq : forall x req,
            In x (pending_docs (frontier self)) -> request_from x req ->
            ScrapingRequest.doc_id req
            = create_id_for_url (ScrapingRequest.url req)
            /\ is_url_valid (ScrapingRequest.url req) = true
            /\ clean_url (ScrapingRequest.url req) = ScrapingRequest.url req
            /\ main_domain_of x
               = Some (get_main_domain (ScrapingRequest.url req))).
  { intros [d r] req Hx (Hid & Hu & _). apply pending_docs_In in Hx.
    destruct Hx as [Hx [Hs _]]. simpl in *.
    destruct (Hfp d r Hx Hs) as (u & Eu & Ed & _ & Em & Hv & Hc).
    rewrite Eu in Hu. inversion Hu; subst u.
    unfold main_domain_of. simpl. rewrite Hid. auto. }
  exists batch. split; [exact Hb|]. split.
  - apply Forall_forall. intros req Hin.
    destruct (Forall2_In_r _ _ _ _ Hrows Hin) as (x & Hx & Hfrom).
    destruct (Hreq x req Hx Hfrom) as (H1 & H2 & H3 & _). auto.
  - apply NoDup_map_Some. rewrite map_map.
    assert (E : map main_domain_of (pending_docs (frontier self))
                = map (fun req => Some (get_main_domain (ScrapingRequest.url req)))
                      batch).
    { clear Hb. revert Hreq. induction Hrows as [|x req rows reqs Hxr _ IH];
        intros Hreq; simpl; [reflexivity|].
      f_equal.
      - apply (Hreq x req); [left; reflexivity | exact Hxr].
      - apply IH. intros y q Hy. apply Hreq. right. exact Hy. }
    rewrite <- E. unfold pending_docs, drop_duplicates.
    apply head_NoDup, drop_duplicates_from_NoDup.
Qed.



(* ================================================================== *)
(** * What a round writes to disk *)
(* ================================================================== *)

(** A method that writes neither a page nor the frame to disk. *)
Definition keeps_disk {A} (m : Crawl A) : Prop :=
  forall self, html_dir (exec m self) = html_dir self
               /\ csv (exec m self) = csv self.

Lemma keeps_disk_ret {A} (a : A) : keeps_disk (ret a).
Proof. forget_world. intros self. split; reflexivity. Qed.

Lemma keeps_disk_bind {A B} (m : Crawl A) (k : A -> Crawl B) :
  keeps_disk m -> (forall a, keeps_disk (k a)) -> keeps_disk (bind m k).
Proof. forget_world.
  intros Hm Hk self. rewrite exec_bind.
  destruct (Hk (eval m self) (exec m self)) as [-> ->]. apply Hm.
Qed.

Lemma keeps_disk_for_each {A} (xs : list A) body :
  (forall x, keeps_disk (body x)) -> keeps_disk (for_each xs body).
Proof. forget_world.
  intros H. induction xs as [|x xs IH]; simpl.
  - apply keeps_disk_ret.
  - apply keeps_disk_bind; [apply H | intros _; exact IH].
Qed.

Lemma keeps_disk_update_doc doc_id kws : keeps_disk (update_doc doc_id kws).
Proof. intros self. split; reflexivity. Qed.

Lemma keeps_disk_add_to_frontier url priority depth root :
  keeps_disk (add_to_frontier url priority depth root).
Proof.
  intros self. unfold add_to_frontier. rewrite exec_bind.
  change (eval get_frontier self) with (frontier self).
  change (exec get_frontier self) with self.
  destruct (loc (frontier self) (create_id_for_url url)) as [entry|].
  - destruct (_ && _); [apply keeps_disk_update_doc | split; reflexivity].
  - split; reflexivity.
Qed.

Lemma keeps_disk_add_new_links_to_frontier request response :
  keeps_disk (add_new_links_to_frontier request response).
Proof.
  unfold add_new_links_to_frontier.
  destruct (negb (TUBINGEN_PATTERN _)); [apply keeps_disk_ret|].
  apply keeps_disk_bind.
  - destruct (is_english _).
    + apply keeps_disk_bind; [apply keeps_disk_update_doc|].
      intros; apply keeps_disk_ret.
    + apply keeps_disk_bind; [apply keeps_disk_update_doc|].
      intros _. apply keeps_disk_bind.
      * destruct (is_url_valid _);
          [apply keeps_disk_add_to_frontier | apply keeps_disk_ret].
      * intros; apply keeps_disk_ret.
  - intros priority. apply keeps_disk_for_each. intros href.
    destruct (extract_url _ _);
      [apply keeps_disk_add_to_frontier | apply keeps_disk_ret].
Qed.

(** The page [_run] saves for an outcome of the fetch, if any. *)
Definition saved_page (req : ScrapingRequest.t) (outcome : option Response.t)
  : list (string * list Byte.byte) :=
  match outcome with
  | None => []
  | Some response =>
      if negb (is_html response) || html_too_large (Response.content response)
      then []
      else [(ScrapingRequest.doc_id req, Response.content response)]
  end.

Lemma html_dir_process_response req outcome self :
  html_dir (exec (process_response (req, outcome)) self)
  = saved_page req outcome ++ html_dir self
  /\ csv (exec (process_response (req, outcome)) self) = csv self.
Proof.
  unfold process_response, saved_page.
  destruct outcome as [response|]; [|apply keeps_disk_update_doc].
  destruct (negb (is_html response) || html_too_large (Response.content response));
    [apply keeps_disk_update_doc|].
  rewrite !exec_bind.
  set (self1 := exec (save_response _ _) self).
  destruct (keeps_disk_update_doc (ScrapingRequest.doc_id req)
              [kw_status (Some completed);
               kw_url (Some (Response.url response));
               kw_domain (Some (URL.host (Response.url response)))]
              (exec (add_new_links_to_frontier req response) self1))
    as [-> ->].
  destruct (keeps_disk_add_new_links_to_frontier req response self1)
    as [-> ->].
  split; reflexivity.
Qed.

(** The pages a batch saves, the last one saved first. *)
Definition saved_pages (round : nat) (batch : list ScrapingRequest.t)
  : list (string * list Byte.byte) :=
  rev (flat_map (fun req => saved_page req (fetch_response round req)) batch).

(** X8. What a round leaves on disk: the frame written to disk is the
    frame in memory at the end of the round, and the directory of pages
    has grown by exactly the pages of the requests whose fetch gave an
    HTML response of admissible size, each under the [doc_id] of its
    request; no other page is written and none is removed. *)
Theorem run_batch_on_disk (round : nat) (batch : list ScrapingRequest.t)
    (self : Crawler) :
  let self' := exec (run_batch round batch) self in
  csv self' = Some (frontier self')
  /\ html_dir self' = saved_pages round batch ++ html_dir self.
Proof.
  intros self'. unfold self', run_batch. clear self'. rewrite exec_bind.
  split; [reflexivity|].
  assert (Hsave : forall s, html_dir (exec save_frontier s) = html_dir s)
    by reflexivity.
  rewrite Hsave. unfold saved_pages. generalize (fetch_response round). intros fetch.
  revert self. induction batch as [|req batch IH]; intros self;
    cbn [combine map for_each flat_map].
  - reflexivity.
  - rewrite exec_bind, IH.
    destruct (html_dir_process_response req (fetch req) self) as [-> _].
    rewrite rev_app_distr, <- app_assoc. f_equal.
    unfold saved_page. destruct (fetch req) as [response|]; [|reflexivity].
    destruct (negb (is_html response) || html_too_large (Response.content response));
      reflexivity.
Qed.

(** X9. A fetch that failed, or gave a response that is not HTML or is
    too large: processing it writes [failed] and the time into the row
    of the request and does nothing else.  The index, every other cell
    of the row, every other row and the saved pages stay as they were,
    whatever the page says. *)
Theorem failed_outcome (req : ScrapingRequest.t)
    (outcome : option Response.t) (self : Crawler) (r : Row.t) :
  loc (frontier self) (ScrapingRequest.doc_id req) = Some r ->
  match outcome with
  | None => True
  | Some response =>
      is_html response = false
      \/ html_too_large (Response.content response) = true
  end ->
  let self' := exec (process_response (req, outcome)) self in
  index (frontier self') = index (frontier self)
  /\ html_dir self' = html_dir self
  /\ loc (frontier self') (ScrapingRequest.doc_id req)
     = Some (set_cells r [kw_status (Some failed);
                          kw_updated (Some (Timestamp_now (clock self)))])
  /\ (forall d, d <> ScrapingRequest.doc_id req ->
                loc (frontier self') d = loc (frontier self) d).
Proof.
  intros H Hbad self'.
  assert (E : self' = exec (update_doc (ScrapingRequest.doc_id req)
                              [kw_status (Some failed)]) self).
  { unfold self', process_response. destruct outcome as [response|];
      [|reflexivity].
    destruct Hbad as [-> | ->]; [reflexivity|].
    rewrite orb_true_r. reflexivity. }
  rewrite E. split; [|split; [reflexivity|split]].
  - rewrite index_update_doc, H. reflexivity.
  - rewrite loc_update_doc, String.eqb_refl, H. reflexivity.
  - intros d Hd. rewrite loc_update_doc.
    destruct (String.eqb_spec (ScrapingRequest.doc_id req) d); [congruence|].
    reflexivity.
Qed.


(* ================================================================== *)
(** * More on processing a fetched page *)
(* ================================================================== *)

(** The cells link discovery never writes. *)
Definition same_identity (r r' : Row.t) : Prop :=
  Row.url r' = Row.url r /\ Row.domain r' = Row.domain r
  /\ Row.main_domain r' = Row.main_domain r /\ Row.status r' = Row.status r
  /\ Row.root r' = Row.root r /\ Row.created r' = Row.created r
  /\ Row.random_sort_key r' = Row.random_sort_key r.

Lemma same_identity_refl r : same_identity r r.
Proof. forget_world. repeat split. Qed.

Lemma same_identity_trans a b c :
  same_identity a b -> same_identity b c -> same_identity a c.
Proof. forget_world.
  unfold same_identity.
  intros (A1 & A2 & A3 & A4 & A5 & A6 & A7) (B1 & B2 & B3 & B4 & B5 & B6 & B7).
  repeat split; congruence.
Qed.

Lemma add_new_links_same_identity request response :
  relates (keeps same_identity) (add_new_links_to_frontier request response).
Proof.
  apply keeps_add_new_links_to_frontier.
  - apply same_identity_refl.
  - apply same_identity_trans.
  - intros r priority depth now. destruct r; cbn. repeat split.
  - intros r kws now Hk.
    destruct (features_only_cells r kws now Hk)
      as (H1 & H2 & H3 & _ & _ & H6 & H7 & H8 & H9 & _).
    repeat split; assumption.
Qed.

(** X10. An HTML response of admissible size: processing it saves the
    page under the [doc_id] of the request and marks the row completed,
    with [url] and [domain] those of the response, the URL reached after
    redirects.  The [main_domain], the root, the creation time and the
    sort key of the row stay as they were, and in every other row link
    discovery leaves url, domain, main domain, status, root, creation
    time and sort key alone. *)
Theorem good_outcome (req : ScrapingRequest.t) (response : Response.t)
    (self : Crawler) (r0 : Row.t) :
  loc (frontier self) (ScrapingRequest.doc_id req) = Some r0 ->
  is_html response = true ->
  html_too_large (Response.content response) = false ->
  let self' := exec (process_response (req, Some response)) self in
  html_dir self'
  = (ScrapingRequest.doc_id req, Response.content response) :: html_dir self
  /\ (exists r',
        loc (frontier self') (ScrapingRequest.doc_id req) = Some r'
        /\ Row.status r' = Some completed
        /\ Row.url r' = Some (Response.url response)
        /\ Row.domain r' = Some (URL.host (Response.url response))
        /\ Row.main_domain r' = Row.main_domain r0
        /\ Row.root r' = Row.root r0
        /\ Row.created r' = Row.created r0
        /\ Row.random_sort_key r' = Row.random_sort_key r0)
  /\ (forall d r, d <> ScrapingRequest.doc_id req ->
        loc (frontier self) d = Some r ->
        exists r', loc (frontier self') d = Some r' /\ same_identity r r').
Proof.
  intros H0 Hhtml Hsize self'.
  split.
  - destruct (html_dir_process_response req (Some response) self) as [E _].
    unfold self'. rewrite E. unfold saved_page. rewrite Hhtml, Hsize.
    reflexivity.
  - assert (E : self' =
                exec (update_doc (ScrapingRequest.doc_id req)
                        [kw_status (Some completed);
                         kw_url (Some (Response.url response));
                         kw_domain (Some (URL.host (Response.url response)))])
                     (exec (add_new_links_to_frontier req response)
                        (exec (save_response (ScrapingRequest.doc_id req)
                                 (Response.content response)) self))).
    { unfold self', process_response. rewrite Hhtml, Hsize. simpl.
      rewrite !exec_bind. reflexivity. }
    set (self1 := exec (save_response (ScrapingRequest.doc_id req)
                          (Response.content response)) self) in E.
    rewrite E. split.
    + destruct (add_new_links_same_identity req response self1 _ r0 H0)
        as (r1 & H1 & _ & _ & Hm & _ & Hro & Hc & Hk).
      rewrite loc_update_doc, String.eqb_refl, H1.
      eexists. split; [reflexivity|].
      rewrite <- Hm, <- Hro, <- Hc, <- Hk. destruct r1; cbn. repeat split.
    + intros d r Hd H.
      destruct (add_new_links_same_identity req response self1 d r H)
        as (r1 & H1 & Hid).
      exists r1. split; [|exact Hid]. rewrite loc_update_doc.
      destruct (String.eqb_spec (ScrapingRequest.doc_id req) d);
        [congruence | exact H1].
Qed.

Lemma asks_high_all_high d calls :
  Forall (fun c => call_is_high c = true) calls ->
  (exists c, In c calls /\ call_id c = d) ->
  asks_high d calls = true.
Proof.
  intros Hall (c & Hc & Hid). unfold asks_high. apply existsb_exists.
  exists c. split; [exact Hc|]. rewrite Forall_forall in Hall.
  rewrite (Hall c Hc), Hid, String.eqb_refl. reflexivity.
Qed.

(** X11. The English branch.  For a fetched page that matches the
    Tübingen pattern and declares an English language, link discovery
    sets both features on the row of the request and proposes to the
    frontier exactly the discovered links, each at priority high and one
    link deeper than the request, and no [/en] URL; a row the proposals
    add is pending, at that depth, under the request's root, at priority
    high, and labelled by the fingerprint of a discovered link. *)
Theorem english_branch (request : ScrapingRequest.t) (response : Response.t)
    (self : Crawler) (r0 : Row.t) :
  let tree := parse_html (Response.content response) in
  let depth := ScrapingRequest.depth request + 1 in
  let root := ScrapingRequest.root request in
  let links := discovered (HtmlElement.xpath_a_href tree) (Response.url response) in
  let self' := exec (add_new_links_to_frontier request response) self in
  loc (frontier self) (ScrapingRequest.doc_id request) = Some r0 ->
  TUBINGEN_PATTERN (HtmlElement.text_content tree) = true ->
  is_english tree = true ->
  self' = exec (add_all (map (fun url => (url, high, depth, root)) links))
               (exec (update_doc (ScrapingRequest.doc_id request)
                        [kw_features_tubingen (Some true);
                         kw_features_english (Some true)]) self)
  /\ (exists r', loc (frontier self') (ScrapingRequest.doc_id request) = Some r'
                 /\ Row.features_tubingen r' = Some true
                 /\ Row.features_english r' = Some true
                 /\ Row.status r' = Row.status r0)
  /\ (forall d r', loc (frontier self) d = None ->
                   loc (frontier self') d = Some r' ->
        Row.status r' = Some pending
        /\ Row.depth r' = Some depth
        /\ Row.root r' = root
        /\ Row.priority r' = Some (Priority_value high)
        /\ exists url, In url links /\ d = create_id_for_url url)
  /\ (forall url, In url links ->
                  loc (frontier self') (create_id_for_url url) <> None).
Proof.
  intros tree depth root links self' H0 Ht He.
  set (calls := map (fun url => (url, high, depth, root)) links).
  set (self1 := exec (update_doc (ScrapingRequest.doc_id request)
                        [kw_features_tubingen (Some true);
                         kw_features_english (Some true)]) self).
  assert (E : self' = exec (add_all calls) self1).
  { unfold self', add_new_links_to_frontier. fold tree. rewrite Ht, He.
    simpl negb. cbv iota. rewrite !exec_bind, !eval_bind.
    assert (Hev : forall s : Crawler, eval (ret high) s = high) by reflexivity.
    assert (Hex : forall s : Crawler, exec (ret high) s = s) by reflexivity.
    rewrite Hev, Hex. apply for_each_links. }
  assert (Hloc1 : forall d,
    loc (frontier self1) d =
    if String.eqb (ScrapingRequest.doc_id request) d
    then Some (set_cells r0 [kw_features_tubingen (Some true);
                             kw_features_english (Some true);
                             kw_updated (Some (Timestamp_now (clock self)))])
    else loc (frontier self) d).
  { intros d. unfold self1. rewrite loc_update_doc.
    destruct (String.eqb_spec (ScrapingRequest.doc_id request) d) as [<-|];
      [rewrite H0|]; reflexivity. }
  assert (Hfresh1 : forall d, loc (frontier self) d = None ->
                              loc (frontier self1) d = None).
  { intros d Hd. rewrite Hloc1.
    destruct (String.eqb_spec (ScrapingRequest.doc_id request) d) as [<-|];
      [congruence | exact Hd]. }
  assert (Huniform : Forall (fun c => call_depth c = depth /\ call_root c = root)
                            calls).
  { apply Forall_forall. intros c Hc. apply in_map_iff in Hc.
    destruct Hc as (u & <- & _). simpl. auto. }
  assert (Hhigh : Forall (fun c => call_is_high c = true) calls).
  { apply Forall_forall. intros c Hc. apply in_map_iff in Hc.
    destruct Hc as (u & <- & _). reflexivity. }
  split; [exact E|]. split; [|split].
  - specialize (Hloc1 (ScrapingRequest.doc_id request)).
    rewrite String.eqb_refl in Hloc1.
    destruct (add_all_same_features calls self1 _ _ Hloc1)
      as (r' & H' & Ft & Fe & St).
    exists r'. rewrite E. split; [exact H'|].
    rewrite Ft, Fe, St. destruct r0; simpl. auto.
  - intros d r' Hd H'. rewrite E in H'.
    pose proof (add_all_fresh calls depth root self1 d Huniform (Hfresh1 d Hd))
      as Hf.
    rewrite H' in Hf. destruct Hf as (Hex & S & D & Ro & P).
    rewrite (asks_high_all_high d calls Hhigh Hex) in P.
    repeat split; try assumption.
    destruct Hex as (c & Hc & Hid). apply in_map_iff in Hc.
    destruct Hc as (u & <- & Hu). exists u. split; [exact Hu|].
    symmetry. exact Hid.
  - intros u Hu Hnone. rewrite E in Hnone.
    assert (Hc : In (u, high, depth, root) calls)
      by (apply in_map_iff; exists u; auto).
    destruct (loc (frontier self1) (create_id_for_url u)) as [r1|] eqn:E1.
    + destruct (add_all_same_features calls self1 _ _ E1) as (r' & H' & _).
      congruence.
    + pose proof (add_all_fresh calls depth root self1 _ Huniform E1) as Hf.
      rewrite Hnone in Hf. exact (Hf _ Hc eq_refl).
Qed.

(** X12. Markup lxml cannot parse counts as an empty document.  When the
    Tübingen pattern does not match the empty text, an HTML response of
    admissible size whose body raises [ParserError] is processed like a
    page that does not mention the town: the page is saved, no link is
    proposed, the frame gets no new entry and the row of the request
    becomes completed. *)
Theorem unparsable_page (req : ScrapingRequest.t) (response : Response.t)
    (self : Crawler) (r : Row.t) :
  loc (frontier self) (ScrapingRequest.doc_id req) = Some r ->
  is_html response = true ->
  html_too_large (Response.content response) = false ->
  html_fromstring (Response.content response) = None ->
  TUBINGEN_PATTERN EmptyString = false ->
  let self' := exec (process_response (req, Some response)) self in
  parse_html (Response.content response) = HtmlElement.empty
  /\ exec (add_new_links_to_frontier req response) self = self
  /\ index (frontier self') = index (frontier self)
  /\ html_dir self'
     = (ScrapingRequest.doc_id req, Response.content response) :: html_dir self
  /\ exists r', loc (frontier self') (ScrapingRequest.doc_id req) = Some r'
                /\ Row.status r' = Some completed.
Proof.
  intros H Hhtml Hsize Hparse Hempty self'.
  assert (Htree : parse_html (Response.content response) = HtmlElement.empty).
  { unfold parse_html. rewrite Hparse. reflexivity. }
  assert (Hlinks : forall s, add_new_links_to_frontier req response s = (tt, s)).
  { intros s. unfold add_new_links_to_frontier. rewrite Htree. simpl.
    rewrite Hempty. reflexivity. }
  split; [exact Htree|]. split; [unfold exec; rewrite Hlinks; reflexivity|].
  assert (E : self' =
              exec (update_doc (ScrapingRequest.doc_id req)
                      [kw_status (Some completed);
                       kw_url (Some (Response.url response));
                       kw_domain (Some (URL.host (Response.url response)))])
                   (exec (save_response (ScrapingRequest.doc_id req)
                            (Response.content response)) self)).
  { unfold self', process_response. rewrite Hhtml, Hsize. simpl.
    rewrite !exec_bind. unfold exec at 2. rewrite Hlinks. reflexivity. }
  rewrite E. split; [|split].
  - rewrite index_update_doc. simpl. rewrite H. reflexivity.
  - reflexivity.
  - rewrite loc_update_doc, String.eqb_refl. simpl. rewrite H.
    eexists. split; [reflexivity|]. destruct r; reflexivity.
Qed.


(* ================================================================== *)
(** * More on fetching, scheduling and the run loop *)
(* ================================================================== *)

Lemma retry_outcome round url a n :
  match retry round url a n with
  | Returned response =>
      exists k, (a <= k < a + n)%nat
                /\ client_get round url k = Some response
                /\ Response.is_success response = true
                /\ forall j, (a <= j < k)%nat -> attempt_fails round url j
  | Raised e =>
      e = RetryError
      /\ forall k, (a <= k < a + n)%nat -> attempt_fails round url k
  end.
Proof.
  revert a. induction n as [|n IH]; intros a; simpl.
  - split; [reflexivity | intros k Hk; lia].
  - assert (Hnext : attempt_fails round url a ->
      match retry round url (S a) n with
      | Returned response =>
          exists k, (a <= k < a + S n)%nat
                    /\ client_get round url k = Some response
                    /\ Response.is_success response = true
                    /\ forall j, (a <= j < k)%nat -> attempt_fails round url j
      | Raised e =>
          e = RetryError
          /\ forall k, (a <= k < a + S n)%nat -> attempt_fails round url k
      end).
    { intros Hfail. specialize (IH (S a)).
      destruct (retry round url (S a) n) as [response|e].
      - destruct IH as (k & Hk & Hget & Hok & Hbefore).
        exists k. split; [lia|]. split; [exact Hget|]. split; [exact Hok|].
        intros j Hj. destruct (Nat.eq_dec j a) as [-> | Hne]; [exact Hfail|].
        apply Hbefore. lia.
      - destruct IH as [-> Hall]. split; [reflexivity|].
        intros k Hk. destruct (Nat.eq_dec k a) as [-> | Hne]; [exact Hfail|].
        apply Hall. lia. }
    unfold attempt_fails in Hnext at 1.
    destruct (client_get round url a) as [response|] eqn:Hget.
    + destruct (Response.is_success response) eqn:Hok.
      * exists a. split; [lia|]. split; [exact Hget|]. split; [exact Hok|].
        intros j Hj. lia.
      * apply Hnext. reflexivity.
    + apply Hnext. exact I.
Qed.

(** X13. [_get] makes at most three attempts and returns the response of
    the first one that succeeds: a response it returns came from an
    attempt numbered 1 to 3, has a 2xx status, and every earlier attempt
    failed; it raises only [RetryError], and only when all three
    attempts failed.  What later attempts would give plays no role. *)
Theorem _get_first_success (round : nat) (url : URL.t) :
  match _get round url with
  | Returned response =>
      exists k, (1 <= k <= 3)%nat
                /\ client_get round url k = Some response
                /\ Response.is_success response = true
                /\ forall j, (1 <= j < k)%nat -> attempt_fails round url j
  | Raised e =>
      e = RetryError
      /\ forall k, (1 <= k <= 3)%nat -> attempt_fails round url k
  end.
Proof.
  unfold _get, stop_after_attempt.
  pose proof (retry_outcome round url 1 3) as H.
  destruct (retry round url 1 3) as [response|e].
  - destruct H as (k & Hk & Hrest). exists k. split; [lia | exact Hrest].
  - destruct H as [-> Hall]. split; [reflexivity|].
    intros k Hk. apply Hall. lia.
Qed.

Lemma requests_of_rows_nil rows :
  requests_of_rows rows = Returned [] -> rows = [].
Proof. forget_world.
  destruct rows as [|x rows]; [reflexivity|]. simpl.
  destruct (request_of_row x); [|discriminate].
  destruct (requests_of_rows rows); discriminate.
Qed.

Lemma query_pending_nil fr :
  query_pending fr = [] <-> forall x, In x fr -> ~ eligible x.
Proof.
  split.
  - intros E x Hin Hel.
    assert (H : In x (query_pending fr)) by (apply query_pending_In; auto).
    rewrite E in H. exact H.
  - intros H. destruct (query_pending fr) as [|x l] eqn:E; [reflexivity|].
    exfalso. assert (Hx : In x (query_pending fr)) by (rewrite E; left; reflexivity).
    apply query_pending_In in Hx. destruct Hx as [Hin Hel]. exact (H x Hin Hel).
Qed.

Lemma pending_docs_nil fr :
  (0 < batch_size config)%nat ->
  pending_docs fr = [] -> query_pending fr = [].
Proof.
  intros Hsize H. unfold pending_docs, drop_duplicates, head in H.
  pose proof (sort_values_perm (query_pending fr)) as Hperm.
  destruct (sort_values (query_pending fr)) as [|x l].
  - apply Permutation_sym, Permutation_nil in Hperm. exact Hperm.
  - exfalso. simpl in H. destruct (batch_size config); [lia | discriminate].
Qed.

Lemma empty_batch_iff_aux self :
  (0 < batch_size config)%nat ->
  (eval fetch_next_doc_batch self = Returned [] <->
   forall x, In x (frontier self) -> ~ eligible x).
Proof.
  intros Hsize. rewrite <- query_pending_nil. split.
  - intros H. apply pending_docs_nil; [exact Hsize|].
    apply requests_of_rows_nil. exact H.
  - intros H. unfold eval, fetch_next_doc_batch, bind, get_frontier, ret.
    simpl. unfold pending_docs. rewrite H. simpl.
    destruct (batch_size config); reflexivity.
Qed.

(** X14. The loop's stopping test.  With a positive [batch_size],
    [fetch_next_doc_batch] returns the empty batch exactly when the frame
    has no pending row of depth below [max_depth]; with [batch_size] 0
    it returns the empty batch on every frame. *)
Theorem empty_batch_iff (self : Crawler) :
  ((0 < batch_size config)%nat ->
   (eval fetch_next_doc_batch self = Returned [] <->
    forall x, In x (frontier self) -> ~ eligible x))
  /\ (batch_size config = 0%nat ->
      eval fetch_next_doc_batch self = Returned []).
Proof.
  split; [apply empty_batch_iff_aux|].
  - intros H. unfold eval, fetch_next_doc_batch, bind, get_frontier, ret.
    simpl. unfold pending_docs. rewrite H. reflexivity.
Qed.

(** X15. Best first, and breadth.  The rows behind a batch are in the
    order (priority descending, depth ascending, random sort key
    ascending); the first of them is no later in that order than any row
    the scheduler may draw from; and when the main domains of the
    eligible rows are at most [batch_size] in number, every eligible row
    has its main domain served by a row of the batch that is no later in
    that order. *)
Theorem batch_best_first (self : Crawler) :
  let rows := pending_docs (frontier self) in
  fetch_next_doc_batch self = (requests_of_rows rows, self)
  /\ StronglySorted priority_depth_key rows
  /\ (forall first rest x,
        rows = first :: rest -> In x (frontier self) -> eligible x ->
        priority_depth_key first x)
  /\ (forall domains : list (option string),
        (List.length domains <= batch_size config)%nat ->
        (forall x, In x (frontier self) -> eligible x ->
                   In (main_domain_of x) domains) ->
        forall x, In x (frontier self) -> eligible x ->
          exists y, In y rows /\ main_domain_of y = main_domain_of x
                    /\ priority_depth_key y x).
Proof.
  intros rows. split; [reflexivity|].
  pose proof (sort_values_sorted (query_pending (frontier self))) as Hsorted.
  pose proof (sort_values_perm (query_pending (frontier self))) as Hperm.
  assert (Hin : forall x, In x (frontier self) -> eligible x ->
                          In x (sort_values (query_pending (frontier self)))).
  { intros x Hx Hel. apply (Permutation_in _ Hperm).
    apply query_pending_In. auto. }
  split; [|split].
  - apply StronglySorted_ordered, head_sorted, drop_duplicates_from_sorted.
    exact Hsorted.
  - intros first rest x Hrows Hx Hel. specialize (Hin x Hx Hel).
    apply ordered_priority_depth_key.
    unfold rows, pending_docs, drop_duplicates, head in Hrows.
    destruct (sort_values (query_pending (frontier self))) as [|a l];
      [destruct (batch_size config); discriminate|].
    simpl in Hrows. destruct (batch_size config); [discriminate|].
    simpl in Hrows. inversion Hrows; subst a.
    inversion Hsorted as [|? ? _ Hall]; subst. rewrite Forall_forall in Hall.
    destruct Hin as [<- | Hin]; [apply sorts_before_refl | auto].
  - intros domains Hfew Hdomains x Hx Hel. specialize (Hin x Hx Hel).
    assert (Hfit : (List.length
                      (drop_duplicates
                         (sort_values (query_pending (frontier self))))
                    <= batch_size config)%nat).
    { rewrite <- (length_map main_domain_of).
      etransitivity; [|exact Hfew].
      apply NoDup_incl_length; [apply drop_duplicates_from_NoDup|].
      intros m Hm. apply in_map_iff in Hm. destruct Hm as (z & <- & Hz).
      apply drop_duplicates_from_In in Hz. destruct Hz as [Hz _].
      apply (Permutation_in _ (Permutation_sym Hperm)) in Hz.
      apply query_pending_In in Hz. apply Hdomains; tauto. }
    destruct (drop_duplicates_from_first [] _ x Hsorted Hin)
      as [[] | (y & Hy & Hm & Ho)].
    exists y. split; [|split; [exact Hm|]].
    + unfold rows, pending_docs, head. rewrite firstn_all2 by exact Hfit.
      exact Hy.
    + apply ordered_priority_depth_key. exact Ho.
Qed.

(** X16. Where [_run] stops.  The crawler [_run] ends with is reached by
    turns of the loop; either no turn was made or the frame on disk is
    the frame in memory; and when [_run] finishes with a positive
    [batch_size], the frame has no pending row of depth below
    [max_depth] left. *)
Theorem _run_outcome (fuel round : nat) (self : Crawler) :
  let final := exec (_run fuel round) self in
  (exists round', run_steps round self round' final)
  /\ (final = self \/ csv final = Some (frontier final))
  /\ ((0 < batch_size config)%nat ->
      eval (_run fuel round) self = Finished ->
      forall x, In x (frontier final) -> ~ eligible x).
Proof.
  intros final. split; [apply _run_steps|]. unfold final. clear final.
  revert round self. induction fuel as [|fuel IH]; intros round self.
  - split; [left; reflexivity|]. intros _ H. discriminate H.
  - cbn [_run]. rewrite exec_bind, eval_bind.
    change (exec fetch_next_doc_batch self) with self.
    destruct (eval fetch_next_doc_batch self) as [[|req batch]|e] eqn:E.
    + split; [left; reflexivity|]. intros Hsize _.
      apply (proj1 (empty_batch_iff_aux self Hsize)). exact E.
    + rewrite exec_bind, eval_bind.
      set (self1 := exec (run_batch round (req :: batch)) self).
      destruct (IH (S round) self1) as [Hdisk Hdone].
      split; [|exact Hdone]. right.
      destruct Hdisk as [-> | Hdisk]; [|exact Hdisk].
      unfold self1, run_batch. rewrite exec_bind. reflexivity.
    + split; [left; reflexivity|]. intros _ H. discriminate H.
Qed.


(* ================================================================== *)
(** * More on the frontier store *)
(* ================================================================== *)

Lemma improves_improved entry priority depth now :
  improves (improved entry priority depth now) priority depth = false.
Proof. forget_world.
  destruct (improved_cells entry priority depth now) as (S & D & P & _).
  unfold improves, is_pending. rewrite S, D, P.
  destruct (Row.status entry) as [s|]; [|reflexivity].
  destruct (Status_eqb s pending); [|reflexivity]. simpl.
  apply orb_false_iff. split.
  - destruct (Row.depth entry) as [x|]; simpl; [|reflexivity].
    destruct (Z.ltb_spec depth x); apply Z.ltb_ge; lia.
  - destruct (Row.priority entry) as [p|]; simpl; [|reflexivity].
    destruct (Z.ltb_spec p (Priority_value priority)); apply Z.ltb_ge; lia.
Qed.

Lemma improves_inserted url priority depth root now key :
  improves (inserted_row url priority depth root now key) priority depth = false.
Proof. forget_world.
  unfold improves, is_pending. simpl. rewrite !Z.ltb_irrefl. reflexivity.
Qed.

Lemma add_to_frontier_noop url priority depth root self entry :
  loc (frontier self) (create_id_for_url url) = Some entry ->
  improves entry priority depth = false ->
  exec (add_to_frontier url priority depth root) self = self.
Proof.
  intros H Hno. unfold add_to_frontier. rewrite exec_bind.
  change (eval get_frontier self) with (frontier self).
  change (exec get_frontier self) with self.
  rewrite H. fold (improves entry priority depth). rewrite Hno. reflexivity.
Qed.

(** X17. One call of [add_to_frontier].  It touches no row but the one
    labelled by the fingerprint of its URL, and afterwards that label has
    a row.  When the label was missing, the call appends one pending row
    holding the URL, its host and main domain, the given depth, priority
    and root, and no feature; when it was there, the index is unchanged,
    and if its row was not pending the crawler is left exactly as it
    was.  Making the same call a second time changes nothing. *)
Theorem add_to_frontier_frame (url : URL.t) (priority : Priority) (depth : Z)
    (root : option string) (self : Crawler) :
  let d := create_id_for_url url in
  let self' := exec (add_to_frontier url priority depth root) self in
  (forall d', d' <> d -> loc (frontier self') d' = loc (frontier self) d')
  /\ loc (frontier self') d <> None
  /\ (loc (frontier self) d = None ->
      index (frontier self') = index (frontier self) ++ [d]
      /\ loc (frontier self') d
         = Some (Row.mk (Some url) (Some (URL.host url))
                        (Some (get_main_domain url)) (Some depth)
                        (Some (Priority_value priority)) (Some pending)
                        (Some (Timestamp_now (clock self)))
                        (Some (Timestamp_now (clock self))) root
                        (Some (random_random (S (clock self))))
                        (Some false) (Some false)))
  /\ (forall entry, loc (frontier self) d = Some entry ->
        index (frontier self') = index (frontier self)
        /\ (Row.status entry <> Some pending -> self' = self))
  /\ exec (add_to_frontier url priority depth root) self' = self'.
Proof.
  intros d self'.
  pose proof (loc_add_to_frontier url priority depth root self) as Hloc.
  fold self' in Hloc. fold d in Hloc.
  pose proof (index_add_to_frontier url priority depth root self) as Hidx.
  fold self' in Hidx. fold d in Hidx.
  split; [|split; [|split; [|split]]].
  - intros d' Hd. rewrite Hloc.
    destruct (String.eqb_spec d d'); [congruence | reflexivity].
  - rewrite Hloc, String.eqb_refl.
    destruct (loc (frontier self) d) as [entry|]; [|discriminate].
    destruct (improves entry priority depth); discriminate.
  - intros Hnone. rewrite Hidx, Hloc, String.eqb_refl, Hnone.
    split; reflexivity.
  - intros entry Hsome. rewrite Hidx, Hsome. split; [reflexivity|].
    intros Hs. apply (add_to_frontier_noop url priority depth root self entry);
      [exact Hsome|].
    unfold improves, is_pending.
    destruct (Row.status entry) as [[]|]; try reflexivity. congruence.
  - specialize (Hloc d). rewrite String.eqb_refl in Hloc.
    destruct (loc (frontier self) d) as [entry|] eqn:E.
    + destruct (improves entry priority depth) eqn:Ei.
      * apply (add_to_frontier_noop _ _ _ _ _ _ Hloc), improves_improved.
      * apply (add_to_frontier_noop _ _ _ _ _ _ Hloc). exact Ei.
    + apply (add_to_frontier_noop _ _ _ _ _ _ Hloc), improves_inserted.
Qed.

Lemma set_cells_app r k1 k2 :
  set_cells r (k1 ++ k2) = set_cells (set_cells r k1) k2.
Proof. forget_world. apply fold_left_app. Qed.

Lemma set_cells_stamp_twice r1 r2 kws now :
  (exists stamp, r1 = set_cell r2 (kw_updated stamp)) ->
  set_cells r1 (kws ++ [kw_updated now]) = set_cells r2 (kws ++ [kw_updated now]).
Proof. forget_world.
  revert r1 r2. induction kws as [|kw kws IH]; intros r1 r2 (stamp & ->).
  - destruct r2; reflexivity.
  - change ((kw :: kws) ++ [kw_updated now])
      with (kw :: (kws ++ [kw_updated now])).
    unfold set_cells in *. simpl. apply IH.
    destruct r2, kw; simpl; eexists; reflexivity.
Qed.

(** X18. Two updates of a row merge into one.  On a [doc_id] that is in
    the frame, [update_doc] with some fields followed by [update_doc]
    with other fields leaves the row as one [update_doc] with the fields
    of both would, the later ones winning, stamped with the time of the
    second call; the index and every other row are unchanged. *)
Theorem update_doc_merge (doc_id : string) (kws1 kws2 : list Keyword)
    (self : Crawler) (r : Row.t) :
  loc (frontier self) doc_id = Some r ->
  let self' := exec (update_doc doc_id kws1 ;; update_doc doc_id kws2) self in
  loc (frontier self') doc_id
  = Some (set_cells r (kws1 ++ kws2
                       ++ [kw_updated (Some (Timestamp_now (S (clock self))))]))
  /\ index (frontier self') = index (frontier self)
  /\ (forall d, d <> doc_id -> loc (frontier self') d = loc (frontier self) d).
Proof.
  intros H self'. unfold self'. rewrite exec_bind.
  set (self1 := exec (update_doc doc_id kws1) self).
  assert (H1 : loc (frontier self1) doc_id
               = Some (set_cells r (kws1 ++ [kw_updated
                                      (Some (Timestamp_now (clock self)))]))).
  { unfold self1. rewrite loc_update_doc, String.eqb_refl, H. reflexivity. }
  assert (Hclock : clock self1 = S (clock self)) by reflexivity.
  split; [|split].
  - rewrite loc_update_doc, String.eqb_refl, H1, Hclock. f_equal.
    rewrite (set_cells_app r kws1 (kws2 ++ _)), (set_cells_app r kws1 [_]).
    apply set_cells_stamp_twice. eexists. reflexivity.
  - rewrite index_update_doc, H1. unfold self1.
    rewrite index_update_doc, H. reflexivity.
  - intros d Hd. rewrite loc_update_doc.
    destruct (String.eqb_spec doc_id d); [congruence|].
    unfold self1. rewrite loc_update_doc.
    destruct (String.eqb_spec doc_id d); [congruence | reflexivity].
Qed.

(** ** Rows are never deleted and keep where they came from *)

Definition same_origin (r r' : Row.t) : Prop :=
  Row.root r' = Row.root r /\ Row.created r' = Row.created r
  /\ Row.random_sort_key r' = Row.random_sort_key r
  /\ Row.main_domain r' = Row.main_domain r.

Definition grows (fr fr' : Frontier) : Prop :=
  (exists added, index fr' = index fr ++ added) /\ keeps same_origin fr fr'.

Lemma grows_refl fr : grows fr fr.
Proof. forget_world.
  split; [exists []; rewrite app_nil_r; reflexivity|].
  apply keeps_refl. unfold same_origin. auto.
Qed.

Lemma grows_trans a b c : grows a b -> grows b c -> grows a c.
Proof. forget_world.
  intros [(l1 & E1) K1] [(l2 & E2) K2]. split.
  - exists (l1 ++ l2). rewrite E2, E1, app_assoc. reflexivity.
  - revert K1 K2. apply keeps_trans. unfold same_origin.
    intros x y z (A1 & A2 & A3 & A4) (B1 & B2 & B3 & B4).
    repeat split; congruence.
Qed.

Lemma grows_update_doc doc_id kws :
  (forall r now, same_origin r (set_cells r (kws ++ [kw_updated now]))) ->
  relates grows (update_doc doc_id kws).
Proof.
  intros Hk self. split.
  - rewrite index_update_doc. destruct (loc (frontier self) doc_id).
    + exists []. rewrite app_nil_r. reflexivity.
    + eexists. reflexivity.
  - apply keeps_update_doc; [unfold same_origin; auto | exact Hk].
Qed.

Lemma grows_add_to_frontier url priority depth root :
  relates grows (add_to_frontier url priority depth root).
Proof.
  intros self. split.
  - rewrite index_add_to_frontier.
    destruct (loc (frontier self) (create_id_for_url url)).
    + exists []. rewrite app_nil_r. reflexivity.
    + eexists. reflexivity.
  - apply keeps_add_to_frontier; [unfold same_origin; auto|].
    intros r now _. destruct r; cbn. repeat split.
Qed.

Lemma same_origin_features r kws now :
  features_only kws = true ->
  same_origin r (set_cells r (kws ++ [kw_updated now])).
Proof. forget_world.
  intros Hk. destruct (features_only_cells r kws now Hk)
    as (_ & _ & H3 & _ & _ & _ & H7 & H8 & H9 & _).
  repeat split; assumption.
Qed.

Lemma grows_run_batch round batch : relates grows (run_batch round batch).
Proof.
  pose proof grows_refl as Hr. pose proof grows_trans as Ht.
  assert (Hfailed : forall d, relates grows (update_doc d [kw_status (Some failed)])).
  { intros d. apply grows_update_doc. intros r now. destruct r; cbn.
    repeat split. }
  unfold run_batch. apply relates_bind; [exact Ht | |].
  2: intros _; apply relates_save_frontier; exact Hr.
  apply relates_for_each; [exact Hr | exact Ht |].
  intros [req [response|]] _; simpl; [|apply Hfailed].
  destruct (negb (is_html response) || html_too_large (Response.content response));
    [apply Hfailed|].
  apply relates_bind; [exact Ht | apply relates_save_response; exact Hr |].
  intros _. apply relates_bind; [exact Ht | |].
  - unfold add_new_links_to_frontier.
    destruct (negb (TUBINGEN_PATTERN _)); [apply relates_ret; exact Hr|].
    apply relates_bind; [exact Ht | |].
    + destruct (is_english _).
      * apply relates_bind; [exact Ht | |intros; apply relates_ret; exact Hr].
        apply grows_update_doc. intros. apply same_origin_features. reflexivity.
      * apply relates_bind; [exact Ht | |].
        -- apply grows_update_doc. intros. apply same_origin_features.
           reflexivity.
        -- intros _. apply relates_bind; [exact Ht | |].
           ++ destruct (is_url_valid _);
                [apply grows_add_to_frontier | apply relates_ret; exact Hr].
           ++ intros; apply relates_ret; exact Hr.
    + intros priority. apply relates_for_each; [exact Hr | exact Ht |].
      intros href _. destruct (extract_url _ _);
        [apply grows_add_to_frontier | apply relates_ret; exact Hr].
  - intros _. apply grows_update_doc. intros r now. destruct r; cbn.
    repeat split.
Qed.

(** X19. Along a run the frame only grows: the index of every state the
    loop reaches starts with the index it had, so no row is deleted or
    moved, and every row keeps its root, its creation time, its random
    sort key and its main domain. *)
Theorem run_steps_grows round self round' self' :
  run_steps round self round' self' ->
  (exists added, index (frontier self') = index (frontier self) ++ added)
  /\ forall d r, loc (frontier self) d = Some r ->
       exists r', loc (frontier self') d = Some r'
                  /\ Row.root r' = Row.root r
                  /\ Row.created r' = Row.created r
                  /\ Row.random_sort_key r' = Row.random_sort_key r
                  /\ Row.main_domain r' = Row.main_domain r.
Proof.
  intros Hrun.
  assert (H : grows (frontier self) (frontier self')).
  { induction Hrun as [|round self batch round' self' Hb Hne Hsteps IH].
    - apply grows_refl.
    - eapply grows_trans; [apply grows_run_batch | exact IH]. }
  destruct H as [Hidx Hkeeps]. split; [exact Hidx|]. exact Hkeeps.
Qed.


(* ================================================================== *)
(** * More on whole runs *)
(* ================================================================== *)

(** X20. Every scheduled request is fetched once.  After the round that
    fetched it, the row of a request of the batch holds the verdict of
    that fetch, completed or failed; it holds it in every later state of
    the run, and no later batch holds the [doc_id] again. *)
Theorem fetched_once (round : nat) (self : Crawler)
    (batch : list ScrapingRequest.t) (req : ScrapingRequest.t) :
  unique_index (frontier self) ->
  eval fetch_next_doc_batch self = Returned batch ->
  In req batch ->
  forall round' self',
    run_steps (S round) (exec (run_batch round batch) self) round' self' ->
    (exists r', loc (frontier self') (ScrapingRequest.doc_id req) = Some r'
                /\ Row.status r' = Some (verdict (fetch_response round req)))
    /\ (forall batch',
          eval fetch_next_doc_batch self' = Returned batch' ->
          ~ In (ScrapingRequest.doc_id req)
               (map ScrapingRequest.doc_id batch')).
Proof.
  intros Hu Hb Hin round' self' Hrun.
  set (self1 := exec (run_batch round batch) self) in *.
  destruct (batch_member_pending self batch req Hb Hin) as (r & Hr & Hp).
  apply (In_loc_unique _ _ _ Hu) in Hr.
  destruct (run_batch_status round batch self _ r
              (batch_ids_unique self batch Hu Hb) Hr) as (r1 & H1 & Hv & _).
  specialize (Hv req Hin eq_refl).
  assert (Hu1 : unique_index (frontier self1))
    by (apply unique_run_batch; exact Hu).
  destruct (run_steps_status_step _ _ _ _ Hrun Hu1 _ r1 H1) as (r' & H' & S').
  assert (Hf : Row.status r' = Some (verdict (fetch_response round req))).
  { rewrite Hv in S'. destruct S' as [E | [E _]]; [exact E|].
    destruct (verdict_terminal (fetch_response round req)) as [V | V];
      rewrite V in E; discriminate. }
  split; [exists r'; auto|].
  intros batch' Hb' Hin'.
  destruct (in_map_doc_id _ _ Hin') as (req' & Hreq' & Hid).
  destruct (batch_member_pending self' batch' req' Hb' Hreq') as (r2 & Hr2 & Hp2).
  rewrite Hid in Hr2.
  apply (In_loc_unique _ _ _ (run_steps_unique _ _ _ _ Hrun Hu1)) in Hr2.
  rewrite H' in Hr2. inversion Hr2; subst r2. rewrite Hf in Hp2.
  destruct (verdict_terminal (fetch_response round req)) as [V | V];
    rewrite V in Hp2; discriminate.
Qed.

(** X21. The run loop does not abort.  Started on a frame whose pending
    rows carry a url, as the frame built from the seeds does, [_run]
    never ends because [fetch_next_doc_batch] raised: it finishes, or
    the fuel of the embedding runs out. *)
Theorem _run_never_aborts (fuel round : nat) (self : Crawler) :
  pending_rows_have_url (frontier self) ->
  eval (_run fuel round) self = Finished
  \/ eval (_run fuel round) self = OutOfFuel.
Proof.
  revert round self. induction fuel as [|fuel IH]; intros round self Hurl.
  - right. reflexivity.
  - cbn [_run]. rewrite eval_bind.
    change (exec fetch_next_doc_batch self) with self.
    destruct (fetch_next_doc_batch_returns self Hurl) as (batch & ->).
    destruct batch as [|req batch]; [left; reflexivity|].
    rewrite eval_bind. apply IH. apply keeps_urls_run_batch. exact Hurl.
Qed.

(** X22. One row per URL.  In every state a run reaches from a frame
    with a unique index whose pending rows are labelled by the
    fingerprints of their urls, two pending rows that hold the same url
    are one and the same row. *)
Theorem one_pending_row_per_url round self round' self' :
  run_steps round self round' self' ->
  unique_index (frontier self) ->
  all_rows fingerprinted (frontier self) ->
  forall d1 r1 d2 r2,
    In (d1, r1) (frontier self') -> In (d2, r2) (frontier self') ->
    Row.status r1 = Some pending -> Row.status r2 = Some pending ->
    Row.url r1 = Row.url r2 ->
    d1 = d2 /\ r1 = r2.
Proof.
  intros Hrun Hu Hfp d1 r1 d2 r2 H1 H2 S1 S2 Hurl.
  pose proof (run_steps_unique _ _ _ _ Hrun Hu) as Hu'.
  pose proof (run_steps_fingerprinted_aux _ _ _ _ Hrun Hfp) as Hfp'.
  destruct (Hfp' d1 r1 H1 S1) as (u1 & E1 & D1 & _).
  destruct (Hfp' d2 r2 H2 S2) as (u2 & E2 & D2 & _).
  assert (Eu : u1 = u2) by congruence.
  assert (Ed : d1 = d2) by congruence.
  split; [exact Ed|].
  apply (In_loc_unique _ _ _ Hu') in H1, H2. congruence.
Qed.

End Crawler.

(* ================================================================== *)
(** * [copy_with], as httpx computes it

    Above, [url.copy_with(...)] is written as a copy of the components
    of the URL.  httpx does not copy: it hands the components, with
    those named in the call replaced, to its parser of components once
    more, and the parser normalises each of them again (lower case,
    percent-encoding, default ports).  A URL parsed from a string can
    come back with other components: the host [a%3Cb] of
    [URL("http://a<b/x")] becomes [a%3cb].  Idempotence of the
    canonicalisation is a statement about this step, and is proved here
    with the step in place. *)
(* ================================================================== *)

Module Httpx.

Section Reparse.

(** [urlparse("", scheme=..., authority=..., path=..., query=...,
    fragment=...)]: what the parser makes of given components.  Every
    [httpx.URL] is a value of this function, whether it was made from a
    string, by [join] or by [copy_with]. *)
Variable urlparse : URL.t -> URL.t.

(** [url.copy_with(path=..., query=..., fragment=...)] with the
    components named in the call given as [Some], the others kept. *)
Definition copy_with (path : option string) (query fragment : option string)
    (url : URL.t) : URL.t :=
  urlparse (URL.mk (URL.scheme url) (URL.userinfo url) (URL.host url)
                   (URL.port url)
                   (match path with Some p => p | None => URL.path url end)
                   query fragment).

(** [url.copy_with(query=None, fragment=None, params=None)]: the keyword
    [params], when empty, stands for [query=None]. *)
Definition clean_url (url : URL.t) : URL.t := copy_with None None None url.

(** The parser treats the query and the fragment on their own, and a
    missing one stays missing: dropping both before parsing or after it
    is the same. *)
Hypothesis urlparse_query_fragment : forall components,
  URL.copy_with_no_query_fragment (urlparse components)
  = urlparse (URL.copy_with_no_query_fragment components).

(** What the parser returns, parsed again, may still change (the host
    above); parsed once more it does not. *)
Hypothesis urlparse_settles : forall components,
  urlparse (urlparse (urlparse components)) = urlparse (urlparse components).

Lemma clean_url_urlparse url :
  clean_url url = urlparse (URL.copy_with_no_query_fragment url).
Proof using Type. reflexivity. Qed.




(** On a URL the parser leaves alone, [copy_with] is the copy of
    components the rest of the development takes it to be. *)
Lemma clean_url_copies url :
  urlparse url = url -> clean_url url = URL.copy_with_no_query_fragment url.
Proof using urlparse_query_fragment.
  intros E. rewrite clean_url_urlparse, <- urlparse_query_fragment, E.
  reflexivity.
Qed.


End Reparse.

End Httpx.

(* ================================================================== *)
(** * A small crawl

    A world small enough to run: the digest of a text is the text, the
    parser knows a handful of links, two pages can be fetched and one
    host never answers. *)
(* ================================================================== *)

Local Open Scope string_scope.

Definition sample_digest : string -> string := fun text => text.

Definition sample_now : nat -> Timestamp := fun n => 1700000000 + Z.of_nat n.

Definition sample_random : nat -> Q := fun n => Z.of_nat (Nat.modulo n 8) # 8.

Definition https (host path : string) : URL.t :=
  URL.mk "https" EmptyString host None path None None.

Definition sample_parse : string -> option URL.t := fun text =>
  if String.eqb text "https://example.com/a?x=1#f"
  then Some (URL.mk "https" EmptyString "example.com" None "/a"
                    (Some "x=1") (Some "f"))
  else if String.eqb text "/stadt"
  then Some (URL.mk EmptyString EmptyString EmptyString None "/stadt" None None)
  else if String.eqb text "https://www.facebook.com/tuebingen"
  then Some (https "www.facebook.com" "/tuebingen")
  else if String.eqb text "mailto:info@example.com"
  then Some (URL.mk "mailto" EmptyString EmptyString None "info@example.com"
                    None None)
  else None.

(** Resolution of a reference: one with a scheme stands for itself, one
    without is an absolute path on the base. *)
Definition sample_join : URL.t -> URL.t -> URL.t := fun base url =>
  if String.eqb (URL.scheme url) EmptyString
  then URL.mk (URL.scheme base) (URL.userinfo base) (URL.host base)
              (URL.port base) (URL.path url) (URL.query url) (URL.fragment url)
  else url.

Definition german_page : HtmlElement.t :=
  HtmlElement.mk "Willkommen in Tuebingen" ["de"]
    ["/stadt"; "https://example.com/a?x=1#f";
     "https://www.facebook.com/tuebingen"; "mailto:info@example.com"; "%%"].

Definition other_page : HtmlElement.t :=
  HtmlElement.mk "Welcome to Stuttgart" ["en"] ["/stadt"].

Definition sample_fromstring : list Byte.byte -> option HtmlElement.t :=
  fun content =>
    match content with
    | Byte.x01 :: _ => Some german_page
    | Byte.x02 :: _ => Some other_page
    | _ => None
    end.

Fixpoint contains (needle text : string) : bool :=
  String.prefix needle text
  || match text with
     | EmptyString => false
     | String _ rest => contains needle rest
     end.

Definition sample_tubingen : Pattern := fun text =>
  let text := Py.lower text in
  existsb (fun word => contains word text)
    ["tubingen"; "tuebingen"; "tubinger"; "tuebinger"].

Definition sample_english : Pattern := fun text =>
  existsb (String.eqb (Py.lower text))
    ["en"; "en-us"; "en_us"; "en-gb"; "en_gb"; "en-de"; "en_de"].

Definition sample_get : nat -> URL.t -> nat -> option Response.t :=
  fun round url attempt =>
    if String.eqb (URL.host url) "down.example.org" then None
    else if String.eqb (URL.path url) "/de"
    then Some (Response.mk url 200 (Some "text/html; charset=utf-8") [Byte.x01])
    else Some (Response.mk url 200 (Some "Text/HTML") [Byte.x02]).

Definition sample_config : CrawlerConfig :=
  {| batch_size := 2;
     max_depth := 10;
     max_filesize := 100;
     seed_urls := [https "tuebingen.example.de" "/de"];
     denied_domains := [contains "facebook.com"] |}.

Definition sample_row (url : URL.t) (depth priority : Z) (status : Status)
    (key : Q) : Row.t :=
  Row.mk (Some url) (Some (URL.host url)) (Some (get_main_domain url))
         (Some depth) (Some priority) (Some status)
         (Some 1700000000) (Some 1700000000) (Some (URL.str url)) (Some key)
         (Some false) (Some false).

Definition url_de : URL.t := https "tuebingen.example.de" "/de".
Definition url_down : URL.t := https "down.example.org" "/".
Definition url_done : URL.t := https "www.example.de" "/alt".
Definition url_deep : URL.t := https "tief.example.de" "/unten".

(** A frame with two pending rows of one main domain, a pending row of
    another, and a completed row. *)
Definition sample_crawler : Crawler :=
  {| frontier :=
       [(URL.str url_done, sample_row url_done 0 1 completed (1 # 8));
        (URL.str url_deep, sample_row url_deep 3 0 pending (2 # 8));
        (URL.str url_down, sample_row url_down 1 0 pending (3 # 8));
        (URL.str url_de, sample_row url_de 0 1 pending (4 # 8))];
     html_dir := [];
     csv := None;
     clock := 0 |}.

Definition request_de : ScrapingRequest.t :=
  ScrapingRequest.mk (URL.str url_de) url_de (Some (URL.str url_de)) 0.

Definition request_down : ScrapingRequest.t :=
  ScrapingRequest.mk (URL.str url_down) url_down (Some (URL.str url_down)) 1.

Example sample_main_domains :
  get_main_domain url_de = "example.de"
  /\ get_main_domain url_down = "example.org"
  /\ get_main_domain (https "localhost" "/") = "localhost".
Proof. repeat split. Qed.

Example sample_batch :
  eval (fetch_next_doc_batch sample_config) sample_crawler
  = Returned [request_de; request_down].
Proof. reflexivity. Qed.

Lemma sample_unique_index : unique_index (frontier sample_crawler).
Proof.
  unfold unique_index. simpl.
  repeat constructor; simpl; intuition discriminate.
Defined.

Lemma sample_pending_rows_have_url :
  pending_rows_have_url (frontier sample_crawler).
Proof.
  intros d r Hin _. simpl in Hin.
  repeat (destruct Hin as [Heq | Hin]; [inversion Heq; discriminate|]).
  destruct Hin.
Defined.

(** ** Canonicalisation *)

Lemma create_id_for_url_deterministic_witness :
  same_but_query_fragment
    (URL.mk "https" EmptyString "example.com" None "/a" (Some "x=1") (Some "f"))
    (https "example.com" "/a")
  /\ create_id_for_url sample_digest
       (clean_url (URL.mk "https" EmptyString "example.com" None "/a"
                          (Some "x=1") (Some "f")))
     = create_id_for_url sample_digest (clean_url (https "example.com" "/a")).
Proof.
  assert (H : same_but_query_fragment
                (URL.mk "https" EmptyString "example.com" None "/a"
                        (Some "x=1") (Some "f"))
                (https "example.com" "/a")) by (repeat split).
  split; [exact H|].
  exact (proj1 (proj2 (create_id_for_url_deterministic sample_digest _ _ H))).
Defined.

Example sample_canonical_string :
  URL.str (URL.mk "https" EmptyString "example.com" None "/a"
                  (Some "x=1") (Some "f")) = "https://example.com/a?x=1#f"
  /\ URL.str (clean_url (URL.mk "https" EmptyString "example.com" None "/a"
                                (Some "x=1") (Some "f")))
     = "https://example.com/a".
Proof. split; reflexivity. Qed.

(** ** The frontier store *)

(** C1 fails as stated: [update_doc] with a status, the call the run loop
    makes for a failed fetch, turns a completed row into a failed one. *)
Lemma update_doc_overwrites_terminal_status :
  ~ (forall (self : Crawler) (doc_id : string) (kws : list Keyword)
            (d : string) (r : Row.t),
        loc (frontier self) d = Some r ->
        Row.status r = Some completed \/ Row.status r = Some failed ->
        exists r',
          loc (frontier (exec (update_doc sample_now doc_id kws) self)) d
          = Some r'
          /\ Row.status r' = Row.status r).
Proof.
  intros H.
  destruct (H sample_crawler (URL.str url_done) [kw_status (Some failed)]
              (URL.str url_done) (sample_row url_done 0 1 completed (1 # 8))
              eq_refl (or_introl eq_refl)) as (r' & Hloc & Hs).
  vm_compute in Hloc. inversion Hloc; subst r'. discriminate Hs.
Qed.

Lemma terminal_status_stable_witness :
  loc (frontier sample_crawler) (URL.str url_done)
  = Some (sample_row url_done 0 1 completed (1 # 8))
  /\ unique_index (frontier sample_crawler)
  /\ exists r',
       loc (frontier
              (exec (run_batch sample_digest sample_now sample_random
                       sample_parse sample_join sample_fromstring
                       sample_tubingen sample_english sample_get
                       sample_config 0 [request_de; request_down])
                    sample_crawler))
           (URL.str url_done) = Some r'
       /\ Row.status r' = Some completed.
Proof.
  split; [reflexivity|]. split; [exact sample_unique_index|].
  destruct (terminal_status_stable sample_digest sample_now sample_random
              sample_parse sample_join sample_fromstring sample_tubingen
              sample_english sample_get sample_config sample_crawler
              (URL.str url_done) (sample_row url_done 0 1 completed (1 # 8))
              eq_refl) as (_ & _ & Hrun).
  destruct (Hrun sample_unique_index 0%nat 1%nat
              (exec (run_batch sample_digest sample_now sample_random
                       sample_parse sample_join sample_fromstring
                       sample_tubingen sample_english sample_get
                       sample_config 0 [request_de; request_down])
                    sample_crawler))
    as (r' & Hloc & _ & Hkeep).
  - eapply run_turn; [exact sample_batch | discriminate | apply run_here].
  - exists r'. split; [exact Hloc|]. apply Hkeep. discriminate.
Defined.

(** C2 fails as stated: [update_doc] on a label that is not in the frame
    does not leave the frame unchanged. *)
Lemma update_doc_absent_changes_frontier :
  ~ (forall (self : Crawler) (doc_id : string) (kws : list Keyword),
        loc (frontier self) doc_id = None ->
        frontier (exec (update_doc sample_now doc_id kws) self) = frontier self).
Proof.
  intros H.
  specialize (H sample_crawler "no such doc_id"
                [kw_features_tubingen (Some true)] eq_refl).
  apply (f_equal (@List.length _)) in H. vm_compute in H. discriminate H.
Qed.

Lemma update_doc_absent_enlarges_witness :
  loc (frontier sample_crawler) "no such doc_id" = None
  /\ frontier (exec (update_doc sample_now "no such doc_id"
                       [kw_features_tubingen (Some true)]) sample_crawler)
     = (frontier sample_crawler ++
        [("no such doc_id",
          Row.mk None None None None None None None (Some 1700000000)
                 None None (Some true) None)])%list.
Proof.
  split; [reflexivity|].
  unfold exec.
  rewrite (update_doc_absent_enlarges sample_now "no such doc_id"
             [kw_features_tubingen (Some true)] sample_crawler eq_refl).
  reflexivity.
Defined.

Lemma add_to_frontier_monotonic_witness :
  loc (frontier sample_crawler) (URL.str url_deep)
  = Some (sample_row url_deep 3 0 pending (2 # 8))
  /\ exists r',
       loc (frontier
              (exec (add_to_frontier sample_digest sample_now sample_random
                       url_deep high 1 None) sample_crawler))
           (URL.str url_deep) = Some r'
       /\ Row.status r' = Some pending
       /\ Row.depth r' = Some 1
       /\ Row.priority r' = Some 1.
Proof.
  split; [reflexivity|].
  destruct (add_to_frontier_monotonic sample_digest sample_now sample_random
              [] sample_crawler (URL.str url_deep)
              (sample_row url_deep 3 0 pending (2 # 8)) eq_refl)
    as (_ & Hcall).
  destruct (Hcall url_deep high 1 None eq_refl) as (Hbetter & _).
  destruct Hbetter as (r' & Hloc & Hs & Hd & Hp).
  - split; [reflexivity|]. left. exists 3. split; [reflexivity | lia].
  - exists r'. auto.
Defined.

(** ** The scheduler *)

Lemma fetch_next_doc_batch_postcondition_witness :
  pending_rows_have_url (frontier sample_crawler)
  /\ exists rows batch,
       fetch_next_doc_batch sample_config sample_crawler
       = (Returned batch, sample_crawler)
       /\ Forall2 request_from rows batch
       /\ NoDup (map main_domain_of rows)
       /\ StronglySorted priority_depth_key rows
       /\ (List.length batch <= 2)%nat.
Proof.
  split; [exact sample_pending_rows_have_url|].
  destruct (fetch_next_doc_batch_postcondition sample_config sample_crawler)
    as (rows & _ & _ & Hnd & _ & Hsorted & _ & Hreturns).
  destruct (Hreturns sample_pending_rows_have_url)
    as (batch & Hb & Hfrom & Hlen).
  exists rows, batch. auto.
Defined.

(** The order at work: the high-priority row of depth 0 comes before the
    low-priority rows, and of these the one of depth 1 comes before the
    one of depth 3. *)
Example sample_order :
  priority_depth_key
    (URL.str url_de, sample_row url_de 0 1 pending (4 # 8))
    (URL.str url_down, sample_row url_down 1 0 pending (3 # 8))
  /\ priority_depth_key
       (URL.str url_down, sample_row url_down 1 0 pending (3 # 8))
       (URL.str url_deep, sample_row url_deep 3 0 pending (2 # 8))
  /\ ~ priority_depth_key
         (URL.str url_deep, sample_row url_deep 3 0 pending (2 # 8))
         (URL.str url_de, sample_row url_de 0 1 pending (4 # 8)).
Proof.
  unfold priority_depth_key. simpl. split; [left; lia|].
  split; [right; split; [reflexivity|]; left; lia|].
  intros [H | [H _]]; [lia | discriminate].
Qed.

(** A pending row without a url, as [update_doc] leaves one under a new
    label when it is handed a status, a depth and a priority: once the
    row is selected its request cannot be built. *)
Example sample_missing_url :
  eval (fetch_next_doc_batch sample_config)
       (exec (update_doc sample_now "no such doc_id"
                [kw_status (Some pending); kw_depth (Some 0);
                 kw_priority (Some 1)])
             sample_crawler)
  = Raised TypeError.
Proof. reflexivity. Qed.

(** ** Processing a fetched page *)

Definition request_deep : ScrapingRequest.t :=
  ScrapingRequest.mk (URL.str url_deep) url_deep (Some (URL.str url_deep)) 3.

Definition response_deep : Response.t :=
  Response.mk url_deep 200 (Some " Text/HTML ") [Byte.x02].

Definition response_de : Response.t :=
  Response.mk url_de 200 (Some "text/html; charset=utf-8") [Byte.x01].

Lemma dead_end_pruning_witness :
  loc (frontier sample_crawler) (ScrapingRequest.doc_id request_deep)
  = Some (sample_row url_deep 3 0 pending (2 # 8))
  /\ is_html response_deep = true
  /\ html_too_large sample_config (Response.content response_deep) = false
  /\ sample_tubingen
       (HtmlElement.text_content
          (parse_html sample_fromstring (Response.content response_deep)))
     = false
  /\ index (frontier
              (exec (process_response sample_digest sample_now sample_random
                       sample_parse sample_join sample_fromstring
                       sample_tubingen sample_english sample_config
                       (request_deep, Some response_deep)) sample_crawler))
     = index (frontier sample_crawler)
  /\ exists r',
       loc (frontier
              (exec (process_response sample_digest sample_now sample_random
                       sample_parse sample_join sample_fromstring
                       sample_tubingen sample_english sample_config
                       (request_deep, Some response_deep)) sample_crawler))
           (ScrapingRequest.doc_id request_deep) = Some r'
       /\ Row.status r' = Some completed.
Proof.
  split; [reflexivity|]. split; [reflexivity|]. split; [reflexivity|].
  split; [reflexivity|].
  destruct (dead_end_pruning sample_digest sample_now sample_random
              sample_parse sample_join sample_fromstring sample_tubingen
              sample_english sample_config request_deep response_deep
              sample_crawler (sample_row url_deep 3 0 pending (2 # 8))
              eq_refl eq_refl eq_refl eq_refl)
    as (_ & Hindex & Hstatus & _).
  split; [exact Hindex | exact Hstatus].
Defined.

Lemma language_branch_witness :
  loc (frontier sample_crawler) (ScrapingRequest.doc_id request_de)
  = Some (sample_row url_de 0 1 pending (4 # 8))
  /\ sample_tubingen
       (HtmlElement.text_content
          (parse_html sample_fromstring (Response.content response_de)))
     = true
  /\ is_english sample_english
       (parse_html sample_fromstring (Response.content response_de)) = false
  /\ (exists r',
        loc (frontier
               (exec (add_new_links_to_frontier sample_digest sample_now
                        sample_random sample_parse sample_join
                        sample_fromstring sample_tubingen sample_english
                        sample_config request_de response_de) sample_crawler))
            (ScrapingRequest.doc_id request_de) = Some r'
        /\ Row.features_tubingen r' = Some true
        /\ Row.features_english r' = Some false)
  /\ (forall d r',
        loc (frontier sample_crawler) d = None ->
        loc (frontier
               (exec (add_new_links_to_frontier sample_digest sample_now
                        sample_random sample_parse sample_join
                        sample_fromstring sample_tubingen sample_english
                        sample_config request_de response_de) sample_crawler))
            d = Some r' ->
        Row.priority r'
        = Some (if String.eqb "https://tuebingen.example.de/en" d
                then 1 else 0)).
Proof.
  split; [reflexivity|]. split; [reflexivity|]. split; [reflexivity|].
  destruct (language_branch sample_digest sample_now sample_random
              sample_parse sample_join sample_fromstring sample_tubingen
              sample_english sample_config request_de response_de
              sample_crawler (sample_row url_de 0 1 pending (4 # 8))
              eq_refl eq_refl eq_refl)
    as ((r' & Hloc & Hft & Hfe & _) & _ & _ & _ & Hnew & _).
  split.
  - exists r'. auto.
  - intros d r1 Hnone Hsome.
    destruct (Hnew d r1 Hnone Hsome) as (_ & _ & _ & Hp). exact Hp.
Defined.

Example sample_language_branch_frontier :
  map (fun x => (fst x, Row.priority (snd x), Row.depth (snd x)))
      (frontier
         (exec (add_new_links_to_frontier sample_digest sample_now
                  sample_random sample_parse sample_join sample_fromstring
                  sample_tubingen sample_english sample_config
                  request_de response_de) sample_crawler))
  = [("https://www.example.de/alt", Some 1, Some 0);
     ("https://tief.example.de/unten", Some 0, Some 3);
     ("https://down.example.org/", Some 0, Some 1);
     ("https://tuebingen.example.de/de", Some 1, Some 0);
     ("https://tuebingen.example.de/en", Some 1, Some 1);
     ("https://tuebingen.example.de/stadt", Some 0, Some 1);
     ("https://example.com/a", Some 0, Some 1)].
Proof. reflexivity. Qed.

Lemma retry_exhaustion_witness :
  unique_index (frontier sample_crawler)
  /\ eval (fetch_next_doc_batch sample_config) sample_crawler
     = Returned [request_de; request_down]
  /\ In request_down [request_de; request_down]
  /\ (forall attempt, (1 <= attempt <= 3)%nat ->
        attempt_fails sample_get 0 (ScrapingRequest.url request_down) attempt)
  /\ fetch_response sample_get 0 request_down = None
  /\ exists r',
       loc (frontier
              (exec (run_batch sample_digest sample_now sample_random
                       sample_parse sample_join sample_fromstring
                       sample_tubingen sample_english sample_get
                       sample_config 0 [request_de; request_down])
                    sample_crawler))
           (ScrapingRequest.doc_id request_down) = Some r'
       /\ Row.status r' = Some failed.
Proof.
  assert (Hin : In request_down [request_de; request_down])
    by (right; left; reflexivity).
  assert (Hfail : forall attempt, (1 <= attempt <= 3)%nat ->
            attempt_fails sample_get 0 (ScrapingRequest.url request_down)
              attempt)
    by (intros attempt _; exact I).
  split; [exact sample_unique_index|]. split; [reflexivity|].
  split; [exact Hin|]. split; [exact Hfail|].
  destruct (retry_exhaustion sample_digest sample_now sample_random
              sample_parse sample_join sample_fromstring sample_tubingen
              sample_english sample_get sample_config 0%nat sample_crawler
              [request_de; request_down] request_down
              sample_unique_index eq_refl Hin Hfail)
    as (_ & Hnone & Hrun).
  split; [exact Hnone|].
  exact (proj1 (Hrun _ _ (run_here _ _ _ _ _ _ _ _ _ _ _ _))).
Defined.

(* ================================================================== *)
(** * The small crawl, continued *)
(* ================================================================== *)

(** The state after the first round of the small crawl. *)
Abbreviation sample_after_round :=
  (exec (run_batch sample_digest sample_now sample_random sample_parse
           sample_join sample_fromstring sample_tubingen sample_english
           sample_get sample_config 0 [request_de; request_down])
        sample_crawler).

Lemma sample_run_steps :
  run_steps sample_digest sample_now sample_random sample_parse sample_join
    sample_fromstring sample_tubingen sample_english sample_get sample_config
    0 sample_crawler 1 sample_after_round.
Proof.
  eapply run_turn; [exact sample_batch | discriminate | apply run_here].
Defined.

Lemma sample_within_bounds :
  all_rows (within_bounds sample_config) (frontier sample_crawler).
Proof.
  intros d r Hin. simpl in Hin.
  repeat (destruct Hin as [Heq | Hin];
          [inversion Heq; subst; split; simpl; auto; lia|]).
  destruct Hin.
Defined.

Lemma sample_fingerprinted :
  all_rows (fingerprinted sample_digest sample_config) (frontier sample_crawler).
Proof.
  intros d r Hin. simpl in Hin.
  repeat (destruct Hin as [Heq | Hin];
          [inversion Heq; subst; intros _; eexists; repeat split; reflexivity|]).
  destruct Hin.
Defined.

(** ** Links *)


(** ** Invariants of a run *)

Lemma run_steps_within_bounds_witness :
  all_rows (within_bounds sample_config) (frontier sample_crawler)
  /\ all_rows (within_bounds sample_config) (frontier sample_after_round).
Proof.
  split; [exact sample_within_bounds|].
  exact (run_steps_within_bounds sample_digest sample_now sample_random
           sample_parse sample_join sample_fromstring sample_tubingen
           sample_english sample_get sample_config _ _ _ _
           sample_run_steps sample_within_bounds).
Defined.


Lemma scheduled_requests_fingerprinted_witness :
  all_rows (fingerprinted sample_digest sample_config)
           (frontier sample_crawler)
  /\ exists batch,
       eval (fetch_next_doc_batch sample_config) sample_crawler
       = Returned batch
       /\ Forall (fun req =>
                    ScrapingRequest.doc_id req
                    = create_id_for_url sample_digest (ScrapingRequest.url req)
                    /\ is_url_valid sample_config (ScrapingRequest.url req)
                       = true
                    /\ clean_url (ScrapingRequest.url req)
                       = ScrapingRequest.url req) batch
       /\ NoDup (map (fun req => get_main_domain (ScrapingRequest.url req))
                     batch).
Proof.
  split; [exact sample_fingerprinted|].
  exact (scheduled_requests_fingerprinted sample_digest sample_config
           sample_crawler sample_fingerprinted).
Defined.

Lemma run_steps_grows_witness :
  run_steps sample_digest sample_now sample_random sample_parse sample_join
    sample_fromstring sample_tubingen sample_english sample_get sample_config
    0 sample_crawler 1 sample_after_round
  /\ exists added,
       index (frontier sample_after_round)
       = (index (frontier sample_crawler) ++ added)%list.
Proof.
  split; [exact sample_run_steps|].
  exact (proj1 (run_steps_grows sample_digest sample_now sample_random
                  sample_parse sample_join sample_fromstring sample_tubingen
                  sample_english sample_get sample_config _ _ _ _
                  sample_run_steps)).
Defined.

Lemma fetched_once_witness :
  unique_index (frontier sample_crawler)
  /\ eval (fetch_next_doc_batch sample_config) sample_crawler
     = Returned [request_de; request_down]
  /\ In request_down [request_de; request_down]
  /\ (exists r',
        loc (frontier sample_after_round) (ScrapingRequest.doc_id request_down)
        = Some r'
        /\ Row.status r'
           = Some (verdict sample_config
                     (fetch_response sample_get 0 request_down)))
  /\ forall batch',
       eval (fetch_next_doc_batch sample_config) sample_after_round
       = Returned batch' ->
       ~ In (ScrapingRequest.doc_id request_down)
            (map ScrapingRequest.doc_id batch').
Proof.
  split; [exact sample_unique_index|]. split; [exact sample_batch|].
  split; [right; left; reflexivity|].
  exact (fetched_once sample_digest sample_now sample_random sample_parse
           sample_join sample_fromstring sample_tubingen sample_english
           sample_get sample_config 0 sample_crawler
           [request_de; request_down] request_down sample_unique_index
           sample_batch (or_intror (or_introl eq_refl)) 1%nat
           sample_after_round (run_here _ _ _ _ _ _ _ _ _ _ _ _)).
Defined.

Lemma _run_never_aborts_witness :
  pending_rows_have_url (frontier sample_crawler)
  /\ (eval (_run sample_digest sample_now sample_random sample_parse
              sample_join sample_fromstring sample_tubingen sample_english
              sample_get sample_config 5 0) sample_crawler = Finished
      \/ eval (_run sample_digest sample_now sample_random sample_parse
                 sample_join sample_fromstring sample_tubingen sample_english
                 sample_get sample_config 5 0) sample_crawler = OutOfFuel).
Proof.
  split; [exact sample_pending_rows_have_url|].
  exact (_run_never_aborts sample_digest sample_now sample_random sample_parse
           sample_join sample_fromstring sample_tubingen sample_english
           sample_get sample_config 5 0 sample_crawler
           sample_pending_rows_have_url).
Defined.

Lemma one_pending_row_per_url_witness :
  unique_index (frontier sample_crawler)
  /\ all_rows (fingerprinted sample_digest sample_config)
              (frontier sample_crawler)
  /\ In (URL.str url_deep, sample_row url_deep 3 0 pending (2 # 8))
        (frontier sample_after_round)
  /\ (URL.str url_deep = URL.str url_deep
      /\ sample_row url_deep 3 0 pending (2 # 8)
         = sample_row url_deep 3 0 pending (2 # 8)).
Proof.
  assert (Hin : In (URL.str url_deep, sample_row url_deep 3 0 pending (2 # 8))
                   (frontier sample_after_round))
    by (vm_compute; right; left; reflexivity).
  split; [exact sample_unique_index|]. split; [exact sample_fingerprinted|].
  split; [exact Hin|].
  exact (one_pending_row_per_url sample_digest sample_now sample_random
           sample_parse sample_join sample_fromstring sample_tubingen
           sample_english sample_get sample_config _ _ _ _ sample_run_steps
           sample_unique_index sample_fingerprinted _ _ _ _ Hin Hin
           eq_refl eq_refl eq_refl).
Defined.

(** ** Outcomes of a fetch *)

Lemma failed_outcome_witness :
  loc (frontier sample_crawler) (ScrapingRequest.doc_id request_down)
  = Some (sample_row url_down 1 0 pending (3 # 8))
  /\ index (frontier
              (exec (process_response sample_digest sample_now sample_random
                       sample_parse sample_join sample_fromstring
                       sample_tubingen sample_english sample_config
                       (request_down, None)) sample_crawler))
     = index (frontier sample_crawler)
  /\ loc (frontier
            (exec (process_response sample_digest sample_now sample_random
                     sample_parse sample_join sample_fromstring
                     sample_tubingen sample_english sample_config
                     (request_down, None)) sample_crawler))
         (ScrapingRequest.doc_id request_down)
     = Some (set_cells (sample_row url_down 1 0 pending (3 # 8))
               [kw_status (Some failed);
                kw_updated (Some (sample_now (clock sample_crawler)))]).
Proof.
  split; [reflexivity|].
  destruct (failed_outcome sample_digest sample_now sample_random sample_parse
              sample_join sample_fromstring sample_tubingen sample_english
              sample_config request_down None sample_crawler
              (sample_row url_down 1 0 pending (3 # 8)) eq_refl I)
    as (Hindex & _ & Hloc & _).
  split; [exact Hindex | exact Hloc].
Defined.

Lemma good_outcome_witness :
  loc (frontier sample_crawler) (ScrapingRequest.doc_id request_de)
  = Some (sample_row url_de 0 1 pending (4 # 8))
  /\ is_html response_de = true
  /\ html_too_large sample_config (Response.content response_de) = false
  /\ html_dir (exec (process_response sample_digest sample_now sample_random
                       sample_parse sample_join sample_fromstring
                       sample_tubingen sample_english sample_config
                       (request_de, Some response_de)) sample_crawler)
     = (ScrapingRequest.doc_id request_de, Response.content response_de)
       :: html_dir sample_crawler.
Proof.
  split; [reflexivity|]. split; [reflexivity|]. split; [reflexivity|].
  exact (proj1 (good_outcome sample_digest sample_now sample_random
                  sample_parse sample_join sample_fromstring sample_tubingen
                  sample_english sample_config request_de response_de
                  sample_crawler (sample_row url_de 0 1 pending (4 # 8))
                  eq_refl eq_refl eq_refl)).
Defined.

(** A page in English that mentions the town. *)
Definition english_page : HtmlElement.t :=
  HtmlElement.mk "Welcome to Tuebingen" [" en-GB "] ["/stadt"].

Definition english_fromstring : list Byte.byte -> option HtmlElement.t :=
  fun _ => Some english_page.

Lemma english_branch_witness :
  loc (frontier sample_crawler) (ScrapingRequest.doc_id request_de)
  = Some (sample_row url_de 0 1 pending (4 # 8))
  /\ sample_tubingen
       (HtmlElement.text_content
          (parse_html english_fromstring (Response.content response_de)))
     = true
  /\ is_english sample_english
       (parse_html english_fromstring (Response.content response_de)) = true
  /\ exists r',
       loc (frontier
              (exec (add_new_links_to_frontier sample_digest sample_now
                       sample_random sample_parse sample_join
                       english_fromstring sample_tubingen sample_english
                       sample_config request_de response_de) sample_crawler))
           (ScrapingRequest.doc_id request_de) = Some r'
       /\ Row.features_tubingen r' = Some true
       /\ Row.features_english r' = Some true
       /\ Row.status r'
          = Row.status (sample_row url_de 0 1 pending (4 # 8)).
Proof.
  split; [reflexivity|]. split; [reflexivity|]. split; [reflexivity|].
  exact (proj1 (proj2 (english_branch sample_digest sample_now sample_random
                         sample_parse sample_join english_fromstring
                         sample_tubingen sample_english sample_config
                         request_de response_de sample_crawler
                         (sample_row url_de 0 1 pending (4 # 8))
                         eq_refl eq_refl eq_refl))).
Defined.

(** A response whose body the parser rejects. *)
Definition response_blank : Response.t :=
  Response.mk url_deep 200 (Some "text/html") [].

Lemma unparsable_page_witness :
  loc (frontier sample_crawler) (ScrapingRequest.doc_id request_deep)
  = Some (sample_row url_deep 3 0 pending (2 # 8))
  /\ is_html response_blank = true
  /\ html_too_large sample_config (Response.content response_blank) = false
  /\ sample_fromstring (Response.content response_blank) = None
  /\ sample_tubingen EmptyString = false
  /\ index (frontier
              (exec (process_response sample_digest sample_now sample_random
                       sample_parse sample_join sample_fromstring
                       sample_tubingen sample_english sample_config
                       (request_deep, Some response_blank)) sample_crawler))
     = index (frontier sample_crawler)
  /\ exists r',
       loc (frontier
              (exec (process_response sample_digest sample_now sample_random
                       sample_parse sample_join sample_fromstring
                       sample_tubingen sample_english sample_config
                       (request_deep, Some response_blank)) sample_crawler))
           (ScrapingRequest.doc_id request_deep) = Some r'
       /\ Row.status r' = Some completed.
Proof.
  split; [reflexivity|]. split; [reflexivity|]. split; [reflexivity|].
  split; [reflexivity|]. split; [reflexivity|].
  destruct (unparsable_page sample_digest sample_now sample_random
              sample_parse sample_join sample_fromstring sample_tubingen
              sample_english sample_config request_deep response_blank
              sample_crawler (sample_row url_deep 3 0 pending (2 # 8))
              eq_refl eq_refl eq_refl eq_refl eq_refl)
    as (_ & _ & Hindex & _ & Hstatus).
  split; [exact Hindex | exact Hstatus].
Defined.

(** ** Two updates of one row *)

Lemma update_doc_merge_witness :
  loc (frontier sample_crawler) (URL.str url_de)
  = Some (sample_row url_de 0 1 pending (4 # 8))
  /\ loc (frontier
            (exec (update_doc sample_now (URL.str url_de)
                     [kw_features_tubingen (Some true)] ;;
                   update_doc sample_now (URL.str url_de)
                     [kw_status (Some completed)])%crawl
                  sample_crawler))
         (URL.str url_de)
     = Some (set_cells (sample_row url_de 0 1 pending (4 # 8))
               ([kw_features_tubingen (Some true)] ++
                [kw_status (Some completed)] ++
                [kw_updated (Some (sample_now (S (clock sample_crawler))))])).
Proof.
  split; [reflexivity|].
  exact (proj1 (update_doc_merge sample_now (URL.str url_de)
                  [kw_features_tubingen (Some true)]
                  [kw_status (Some completed)] sample_crawler
                  (sample_row url_de 0 1 pending (4 # 8)) eq_refl)).
Defined.

(* ================================================================== *)
(** * A parser of components that is not idempotent *)
(* ================================================================== *)

(** Percent-encoding of a host, for the one character that matters
    here. *)
Fixpoint quote_host (s : string) : string :=
  match s with
  | EmptyString => EmptyString
  | String c rest =>
      if Ascii.eqb c "<" then "%3C" ++ quote_host rest
      else String c (quote_host rest)
  end.

(** A parser after httpx's: the scheme in lower case, the host in lower
    case and then percent-encoded, the other components as given. *)
Definition sample_urlparse (components : URL.t) : URL.t :=
  URL.mk (Py.lower (URL.scheme components)) (URL.userinfo components)
         (quote_host (Py.lower (URL.host components)))
         (URL.port components) (URL.path components)
         (URL.query components) (URL.fragment components).










(** The URL of [URL("HTTP://a<b/x?q=1")]. *)
Definition url_angle : URL.t :=
  sample_urlparse
    (URL.mk "HTTP" EmptyString "a<b" None "/x" (Some "q=1") None).

(** Cleaning is not a copy of components: it changes the host of this
    URL; and the parser is not idempotent on it. *)
Example sample_clean_url_changes_host :
  URL.host url_angle = "a%3Cb"
  /\ URL.host (Httpx.clean_url sample_urlparse url_angle) = "a%3cb"
  /\ sample_urlparse url_angle <> url_angle.
Proof. split; [reflexivity|]. split; [reflexivity | discriminate]. Qed.


(** ** The frontier of a new run *)

Example sample_new_crawler :
  (exists self,
      new_crawler sample_digest sample_now sample_random sample_config
      = Returned self
      /\ index (frontier self) = ["https://tuebingen.example.de/de"])
  /\ new_crawler sample_digest sample_now sample_random
       {| batch_size := 2; max_depth := 10; max_filesize := 100;
          seed_urls := [https "www.facebook.com" "/tuebingen"];
          denied_domains := [contains "facebook.com"] |}
     = Raised KeyError.
Proof. split; [eexists; split; reflexivity | reflexivity]. Qed.
